(** * Item-based movie recommender: a shallow embedding and its properties

    The development follows the Python sources:
    - [app/database.py]        the relational store and the rating feed query,
    - [upload_data.py]         the one-shot CSV bulk loader,
    - [app/recommendation3.py] dataset building, (re)training, model restore
                               and recommendation with explanations,
    - [main.py]                the HTTP routes.

    Conventions.  Python floats (ratings, similarities, estimates) are
    modelled by exact rationals [Q]; a missing cell of a pandas frame (NaN)
    is [None].  Python dictionaries are [gmap]s and sets of strings are
    [gset]s, iterated in an order that is a parameter of the development
    ([SetOrder]).  Python exceptions are the
    [Raise] case of [result], and the module globals are the fields of
    [Globals], threaded explicitly through every operation together with the
    outside world ([World]: the database and the pickle file). *)

From Stdlib Require Import ZArith QArith Qround Lqa String Ascii List Sorted Lia.
From stdpp Require Import gmap strings list fin_maps.
Import ListNotations.

Local Open Scope string_scope.
Local Open Scope list_scope.
Local Open Scope Z_scope.

(** ** Exceptions and results *)

Inductive exn : Type :=
  | UserNotFound      (* ValueError("Usuario no encontrado en el dataset de ratings") *)
  | DatabaseError     (* engine.connect() / read_sql_query failed *)
  | FitError          (* algo.fit raised *)
  | PersistError      (* open(...,'wb') or pickle.dump raised *)
  | UnknownRawId      (* trainset.to_inner_iid: ValueError, not part of the trainset *)
  | IndexError        (* algo.sim[i, j] out of bounds *)
  | KeyError          (* label missing from a Series *)
  | AttributeError.   (* attribute access on None or on an unfitted model *)

Inductive result (A : Type) : Type :=
  | Ok (a : A)
  | Raise (e : exn).
Arguments Ok {A} a.
Arguments Raise {A} e.

Definition is_ok {A} (r : result A) : bool :=
  match r with Ok _ => true | Raise _ => false end.

(** ** The relational store (app/database.py, upload_data.py) *)

Module DB.

Record Database : Type := {
  User        : list Z;                 (* "User"(id) *)
  Movie       : list (Z * string);      (* Movie(id, title) *)
  Genre       : list (Z * string);      (* Genre(id, name) *)
  Movie_Genre : list (Z * Z);           (* Movie_Genre(movie_id, genre_id) *)
  Rating      : list (Z * Z * Q)        (* Rating(user_id, movie_id, value) *)
}.

(** One row of the rating feed returned by [fetch_data_from_db]. *)
Record FeedRow : Type := {
  user_id  : Z;
  movie_id : Z;
  rating   : Q;
  title    : string;
  genres   : string
}.

(** The FROM ... JOIN ... JOIN ... JOIN part of the query: every rating
    paired with its movie, each genre link of that movie and the linked
    genre.  All three joins are inner joins. *)
Definition joined (db : Database) : list (Z * Z * Q * string * string) :=
  flat_map (fun r : Z * Z * Q =>
    let '(u, m, v) := r in
    flat_map (fun mv : Z * string =>
      if Z.eqb (fst mv) m then
        flat_map (fun mg : Z * Z =>
          if Z.eqb (fst mg) (fst mv) then
            flat_map (fun g : Z * string =>
              if Z.eqb (fst g) (snd mg) then [(u, m, v, snd mv, snd g)] else [])
              (Genre db)
          else [])
          (Movie_Genre db)
      else [])
      (Movie db))
    (Rating db).

(** GROUP BY r.user_id, r.movie_id, r.value, m.title *)
Definition same_group (a b : Z * Z * Q * string) : bool :=
  let '(u1, m1, v1, t1) := a in
  let '(u2, m2, v2, t2) := b in
  Z.eqb u1 u2 && Z.eqb m1 m2 && Qeq_bool v1 v2 && String.eqb t1 t2.

(** STRING_AGG(g.name, '|'): a joined row either extends the group with
    its key or opens a new group at the end.  SQL leaves the order of the
    groups and of the aggregated names open; here both follow the order of
    the joined rows. *)
Fixpoint add_to_group (key : Z * Z * Q * string) (g : string)
    (groups : list (Z * Z * Q * string * string))
    : list (Z * Z * Q * string * string) :=
  match groups with
  | [] => [(key, g)]
  | (key', agg) :: rest =>
      if same_group key' key then (key', agg +:+ "|" +:+ g) :: rest
      else (key', agg) :: add_to_group key g rest
  end.

Definition group_by (rows : list (Z * Z * Q * string * string))
    : list (Z * Z * Q * string * string) :=
  fold_left (fun groups row => add_to_group (fst row) (snd row) groups) rows [].

Definition to_feed_row (x : Z * Z * Q * string * string) : FeedRow :=
  let '(u, m, v, t, g) := x in
  {| user_id := u; movie_id := m; rating := v; title := t; genres := g |}.

Definition query (db : Database) : list FeedRow :=
  map to_feed_row (group_by (joined db)).

(** [fetch_data_from_db]: [None] stands for a store that cannot be reached
    (the connection or the query raises). *)
Definition fetch_data_from_db (store : option Database) : result (list FeedRow) :=
  match store with
  | Some db => Ok (query db)
  | None => Raise DatabaseError
  end.

End DB.
Export DB.

(** ** Python and pandas helpers *)

(** [s.split(sep)] for a one-character separator: never the empty list. *)
Fixpoint split_on (sep : ascii) (s : string) : list string :=
  match s with
  | EmptyString => [EmptyString]
  | String c rest =>
      if Ascii.eqb c sep then EmptyString :: split_on sep rest
      else match split_on sep rest with
           | [] => [String c EmptyString]
           | w :: ws => String c w :: ws
           end
  end.

(** [sep.join(l)] *)
Definition join (sep : string) (l : list string) : string := String.concat sep l.

(** Sorted, duplicate-free axis labels, as pandas builds them for the index
    and the columns of a pivot table. *)
Fixpoint insert_uniq (x : Z) (l : list Z) : list Z :=
  match l with
  | [] => [x]
  | y :: r =>
      if x <? y then x :: l
      else if x =? y then l
      else y :: insert_uniq x r
  end.

Definition sorted_unique (l : list Z) : list Z := fold_right insert_uniq [] l.

(** [heapq.nlargest(n, l, key)] is documented as
    [sorted(l, key=key, reverse=True)[:n]]: a stable descending sort, cut
    after [n] elements; for [n <= 0] the result is empty. *)
Fixpoint insert_desc {A} (key : A -> Q) (x : A) (l : list A) : list A :=
  match l with
  | [] => [x]
  | y :: r =>
      if Qle_bool (key y) (key x) then x :: l
      else y :: insert_desc key x r
  end.

Definition sorted_desc {A} (key : A -> Q) (l : list A) : list A :=
  fold_right (insert_desc key) [] l.

Definition nlargest {A} (n : Z) (l : list A) (key : A -> Q) : list A :=
  firstn (Z.to_nat n) (sorted_desc key l).

(** Rounding to the nearest integer, ties to even (Python's [round] and
    the [.1f] format). *)
Definition round_half_even (q : Q) : Z :=
  let f := Qfloor q in
  let r := (q - inject_Z f)%Q in
  if Qle_bool r (1 # 2) then
    if Qle_bool (1 # 2) r then (if Z.even f then f else f + 1) else f
  else f + 1.

(** [round(x, 2)] *)
Definition round2 (q : Q) : Q := (inject_Z (round_half_even (q * 100)) / 100)%Q.

Definition digit (d : Z) : string :=
  String (ascii_of_nat (48 + Z.to_nat d)) EmptyString.

Fixpoint decimal_fuel (fuel : nat) (n : Z) : string :=
  match fuel with
  | O => digit (n mod 10)
  | S fuel' =>
      if n <? 10 then digit n
      else decimal_fuel fuel' (n / 10) +:+ digit (n mod 10)
  end.

(** Decimal digits of a non-negative integer. *)
Definition decimal (n : Z) : string := decimal_fuel (Z.to_nat n) n.

(** [f"{x:.1f}"] *)
Definition format_1f (q : Q) : string :=
  let n := Z.abs (round_half_even (q * 10)) in
  (if Qle_bool 0 q then "" else "-") +:+ decimal (n / 10) +:+ "." +:+ digit (n mod 10).

Definition sum_Q (l : list Q) : Q := fold_right Qplus 0%Q l.

(** Arithmetic mean (the default [aggfunc] of [pivot_table]). *)
Definition mean (l : list Q) : Q := (sum_Q l / inject_Z (Z.of_nat (length l)))%Q.

(** Position of the first occurrence. *)
Fixpoint index_of (x : Z) (l : list Z) : option nat :=
  match l with
  | [] => None
  | y :: r => if Z.eqb y x then Some O else option_map S (index_of x r)
  end.

(** Distinct values in order of first appearance. *)
Fixpoint first_seen (seen : list Z) (l : list Z) : list Z :=
  match l with
  | [] => []
  | x :: r =>
      if existsb (Z.eqb x) seen then first_seen seen r
      else x :: first_seen (x :: seen) r
  end.


(** ** The bulk loader (upload_data.py) *)

(** One line of data.csv. *)
Record CsvRow : Type := {
  csv_userId  : Z;
  csv_movieId : Z;
  csv_rating  : Q;
  csv_title   : string;
  csv_genres  : string
}.

Definition no_genres_listed : string := "(no genres listed)".

(** INSERT ... ON CONFLICT DO NOTHING on a key computed by [key_eq]. *)
Definition insert_do_nothing {A} (key_eq : A -> A -> bool) (x : A) (table : list A)
    : list A :=
  if existsb (key_eq x) table then table else table ++ [x].

Definition insert_all {A} (key_eq : A -> A -> bool) (xs : list A) (table : list A)
    : list A :=
  fold_left (fun t x => insert_do_nothing key_eq x t) xs table.

(** The serial id given to a new Genre row. *)
Definition next_genre_id (table : list (Z * string)) : Z :=
  1 + fold_right Z.max 0 (map fst table).

(** INSERT INTO Genre(name) ... ON CONFLICT (name) DO NOTHING *)
Definition insert_genre (name : string) (table : list (Z * string)) : list (Z * string) :=
  if existsb (fun g => String.eqb (snd g) name) table then table
  else table ++ [(next_genre_id table, name)].

(** [genre_dict[genre]], from [SELECT id, name FROM Genre]. *)
Definition genre_dict (table : list (Z * string)) (name : string) : option Z :=
  option_map fst (List.find (fun g => String.eqb (snd g) name) (rev table)).

(** The loop building [movie_genre_pairs]: the token '(no genres listed)'
    is skipped.  Every other genre name was inserted just before, so the
    dictionary lookup cannot fail in the script; a missing name
    contributes no pair here. *)
Definition movie_genre_pairs (csv : list CsvRow) (genre_table : list (Z * string))
    : list (Z * Z) :=
  flat_map (fun row =>
    flat_map (fun genre =>
      if String.eqb genre no_genres_listed then []
      else match genre_dict genre_table genre with
           | Some gid => [(csv_movieId row, gid)]
           | None => []
           end) (split_on "|" (csv_genres row))) csv.

Definition upload_data (db : Database) (csv : list CsvRow) : Database :=
  let genre_names := flat_map (fun row => split_on "|" (csv_genres row)) csv in
  let genre_table :=
    fold_left (fun t name => insert_genre name t)
      (List.filter (fun name => negb (String.eqb name no_genres_listed)) genre_names)
      (Genre db) in
  {| User := insert_all Z.eqb (map csv_userId csv) (User db);
     Movie := insert_all (fun a b => Z.eqb (fst a) (fst b))
                (map (fun row => (csv_movieId row, csv_title row)) csv) (Movie db);
     Genre := genre_table;
     Movie_Genre :=
       insert_all (fun a b => Z.eqb (fst a) (fst b) && Z.eqb (snd a) (snd b))
         (movie_genre_pairs csv genre_table) (Movie_Genre db);
     Rating :=
       insert_all (fun a b => Z.eqb (fst (fst a)) (fst (fst b))
                              && Z.eqb (snd (fst a)) (snd (fst b)))
         (map (fun row => (csv_userId row, csv_movieId row, csv_rating row)) csv)
         (Rating db) |}.

(** ** The other statements of app/database.py

    Each function is the SQL statement it executes, applied to the tables.
    The schema is not part of the sources: of its constraints the tables
    have the uniqueness that the ON CONFLICT clauses name, and a statement
    that the store would reject for another constraint is outside the
    model.  The three DELETE statements on "User", Movie and Genre, whose
    effect on the referencing rows the schema alone decides, are left
    out. *)

Module Crud.

(** What the functions of this part raise. *)
Inductive db_error : Type :=
  | GenreNotFound (genre_name : string)   (* ValueError(f"Género '{genre_name}' no encontrado") *)
  | ConnectionFailed.                     (* engine.connect() or the statement raised *)

(** INSERT INTO "User" (id) VALUES (:user_id) ON CONFLICT (id) DO NOTHING *)
Definition create_user (user_id : Z) (db : Database) : Database :=
  {| User := insert_do_nothing Z.eqb user_id (User db); Movie := Movie db;
     Genre := Genre db; Movie_Genre := Movie_Genre db; Rating := Rating db |}.

(** SELECT * FROM "User" *)
Definition get_all_users (db : Database) : list Z := User db.

(** MAX(id), NULL on an empty table. *)
Definition max_id (ids : list Z) : option Z :=
  match ids with
  | [] => None
  | x :: xs => Some (fold_right Z.max x xs)
  end.

(** SELECT COALESCE(MAX(id), 0) + 1 FROM "User" *)
Definition get_next_user_id (db : Database) : Z :=
  default 0 (max_id (User db)) + 1.

(** INSERT INTO Movie (id, title) ... ON CONFLICT (id) DO NOTHING *)
Definition create_movie (movie_id : Z) (title : string) (db : Database) : Database :=
  {| User := User db;
     Movie := insert_do_nothing (fun a b : Z * string => Z.eqb (fst a) (fst b))
                (movie_id, title) (Movie db);
     Genre := Genre db; Movie_Genre := Movie_Genre db; Rating := Rating db |}.

(** SELECT * FROM Movie *)
Definition get_all_movies (db : Database) : list (Z * string) := Movie db.

(** UPDATE Movie SET title = :new_title WHERE id = :movie_id *)
Definition update_movie (movie_id : Z) (new_title : string) (db : Database) : Database :=
  {| User := User db;
     Movie := map (fun mv : Z * string =>
                if Z.eqb (fst mv) movie_id then (fst mv, new_title) else mv) (Movie db);
     Genre := Genre db; Movie_Genre := Movie_Genre db; Rating := Rating db |}.

(** INSERT INTO Genre (name) ... ON CONFLICT (name) DO NOTHING *)
Definition create_genre (genre_name : string) (db : Database) : Database :=
  {| User := User db; Movie := Movie db; Genre := insert_genre genre_name (Genre db);
     Movie_Genre := Movie_Genre db; Rating := Rating db |}.

(** SELECT id FROM Genre WHERE name = :genre_name, then fetchone() *)
Definition genre_id_of (db : Database) (genre_name : string) : option Z :=
  option_map fst (List.find (fun g : Z * string => String.eqb (snd g) genre_name) (Genre db)).

Definition link_movie_to_genre (movie_id : Z) (genre_name : string) (db : Database)
    : db_error + Database :=
  match genre_id_of db genre_name with
  | None => inl (GenreNotFound genre_name)
  | Some genre_id =>
      inr {| User := User db; Movie := Movie db; Genre := Genre db;
             Movie_Genre :=
               insert_do_nothing
                 (fun a b : Z * Z => Z.eqb (fst a) (fst b) && Z.eqb (snd a) (snd b))
                 (movie_id, genre_id) (Movie_Genre db);
             Rating := Rating db |}
  end.

Definition unlink_movie_from_genre (movie_id : Z) (genre_name : string) (db : Database)
    : db_error + Database :=
  match genre_id_of db genre_name with
  | None => inl (GenreNotFound genre_name)
  | Some genre_id =>
      inr {| User := User db; Movie := Movie db; Genre := Genre db;
             Movie_Genre :=
               List.filter (fun mg : Z * Z =>
                   negb (Z.eqb (fst mg) movie_id && Z.eqb (snd mg) genre_id))
                 (Movie_Genre db);
             Rating := Rating db |}
  end.

(** SELECT g.name FROM Movie_Genre mg JOIN Genre g ON mg.genre_id = g.id
    WHERE mg.movie_id = :movie_id *)
Definition get_movie_genres_by_id (movie_id : Z) (db : Database) : list string :=
  flat_map (fun mg : Z * Z =>
    if Z.eqb (fst mg) movie_id
    then map snd (List.filter (fun g : Z * string => Z.eqb (fst g) (snd mg)) (Genre db))
    else []) (Movie_Genre db).

Definition same_rating_key (user_id movie_id : Z) (r : Z * Z * Q) : bool :=
  Z.eqb (fst (fst r)) user_id && Z.eqb (snd (fst r)) movie_id.

(** UPDATE Rating SET value = :new_value
    WHERE user_id = :user_id AND movie_id = :movie_id *)
Definition update_rating (user_id movie_id : Z) (new_value : Q) (db : Database)
    : Database :=
  {| User := User db; Movie := Movie db; Genre := Genre db;
     Movie_Genre := Movie_Genre db;
     Rating := map (fun r => if same_rating_key user_id movie_id r
                             then (user_id, movie_id, new_value) else r) (Rating db) |}.

(** INSERT INTO Rating ... ON CONFLICT (user_id, movie_id)
    DO UPDATE SET value = EXCLUDED.value *)
Definition create_rating (user_id movie_id : Z) (value : Q) (db : Database) : Database :=
  if existsb (same_rating_key user_id movie_id) (Rating db)
  then update_rating user_id movie_id value db
  else {| User := User db; Movie := Movie db; Genre := Genre db;
          Movie_Genre := Movie_Genre db;
          Rating := Rating db ++ [(user_id, movie_id, value)] |}.

(** DELETE FROM Rating WHERE user_id = :user_id AND movie_id = :movie_id *)
Definition delete_rating (user_id movie_id : Z) (db : Database) : Database :=
  {| User := User db; Movie := Movie db; Genre := Genre db;
     Movie_Genre := Movie_Genre db;
     Rating := List.filter (fun r => negb (same_rating_key user_id movie_id r))
                 (Rating db) |}.

(** SELECT * FROM Rating *)
Definition get_all_ratings (db : Database) : list (Z * Z * Q) := Rating db.

(** One row of [get_ratings_by_user]; [genres] is NULL for a movie without
    genre. *)
Record HistoryRow : Type := {
  h_user_id  : Z;
  h_movie_id : Z;
  h_rating   : Q;
  h_title    : string;
  h_genres   : option string
}.

(** The joins of [get_ratings_by_user]: the ratings of the user with their
    movie (inner join), and the names of the linked genres (left joins):
    a movie without link, or a link without genre, gives a row with a NULL
    name. *)
Definition joined_left (db : Database) (user : Z)
    : list (Z * Z * Q * string * option string) :=
  flat_map (fun r : Z * Z * Q =>
    let '(u, m, v) := r in
    if Z.eqb u user then
      flat_map (fun mv : Z * string =>
        if Z.eqb (fst mv) m then
          match List.filter (fun mg : Z * Z => Z.eqb (fst mg) (fst mv)) (Movie_Genre db) with
          | [] => [(u, m, v, snd mv, None)]
          | links =>
              flat_map (fun mg : Z * Z =>
                match List.filter (fun g : Z * string => Z.eqb (fst g) (snd mg)) (Genre db) with
                | [] => [(u, m, v, snd mv, None)]
                | gs => map (fun g : Z * string => (u, m, v, snd mv, Some (snd g))) gs
                end) links
          end
        else []) (Movie db)
    else []) (Rating db).

(** STRING_AGG(g.name, ' | '): NULL names are skipped, and the aggregate of
    no name is NULL. *)
Definition string_agg (agg name : option string) : option string :=
  match agg, name with
  | Some a, Some n => Some (a +:+ " | " +:+ n)
  | Some a, None => Some a
  | None, n => n
  end.

Fixpoint add_to_history (key : Z * Z * Q * string) (name : option string)
    (groups : list (Z * Z * Q * string * option string))
    : list (Z * Z * Q * string * option string) :=
  match groups with
  | [] => [(key, name)]
  | (key', agg) :: rest =>
      if same_group key' key then (key', string_agg agg name) :: rest
      else (key', agg) :: add_to_history key name rest
  end.

Definition to_history_row (x : Z * Z * Q * string * option string) : HistoryRow :=
  let '(u, m, v, t, g) := x in
  {| h_user_id := u; h_movie_id := m; h_rating := v; h_title := t; h_genres := g |}.

Definition get_ratings_by_user (user : Z) (db : Database) : list HistoryRow :=
  map to_history_row
    (fold_left (fun groups row => add_to_history (fst row) (snd row) groups)
       (joined_left db user) []).

End Crud.

(** ** Data of app/recommendation3.py *)

(** The values of [movie_info]: [{"title": ..., "genres": ...}]. *)
Record MovieInfo : Type := {
  mi_title  : string;
  mi_genres : string
}.

(** A pivoted frame: sorted column labels and one row of cells per index
    label; [None] is NaN (no rating). *)
Record DataFrame : Type := {
  columns : list Z;
  rows    : list (Z * list (option Q))
}.

Definition index (df : DataFrame) : list Z := map fst (rows df).

(** Surprise's trainset: the raw (user, item, rating) triples in feed order;
    inner ids are positions in order of first appearance. *)
Record Trainset : Type := {
  raw_ratings : list (Z * Z * Q)
}.

(** The [KNNBasic] object.  [trainset] and [sim] are the attributes that
    [fit] sets; both are missing on a freshly constructed object. *)
Record KNNBasic : Type := {
  k        : nat;
  min_k    : nat;
  trainset : option Trainset;
  sim      : option (list (list Q))
}.

(** The module globals [algo], [data], [movie_info], [rating_matrix] and
    [movie_genres_cache]. *)
Record Globals : Type := {
  algo               : option KNNBasic;
  data               : option (list FeedRow);
  movie_info         : option (gmap Z MovieInfo);
  rating_matrix      : option DataFrame;
  movie_genres_cache : gmap Z (gset string)
}.

(** The file recommender.pkl. *)
Inductive PickleFile : Type :=
  | NoFile
  | Corrupt
  | Pickled (a : KNNBasic).

(** What happens when retrain_model writes recommender.pkl. *)
Inductive DiskMode : Type :=
  | Writable
  | OpenFails     (* open(pkl_filename, "wb") raises: the file is untouched *)
  | DumpFails.    (* the file was truncated by open, pickle.dump raises *)

Record World : Type := {
  store           : option Database;   (* [None]: the database is unreachable *)
  recommender_pkl : PickleFile;
  disk            : DiskMode
}.

(** Result of an operation on the globals: the globals and the world it
    leaves behind (also when it raises) and what it returns. *)
Record Outcome (A : Type) : Type := {
  globals_after : Globals;
  world_after   : World;
  returned      : result A
}.
Arguments globals_after {A} o.
Arguments world_after {A} o.
Arguments returned {A} o.

(** One element of the list returned by [get_recommendations]. *)
Record Recommendation : Type := {
  movieId          : Z;
  rec_title        : string;
  rec_genres       : string;
  predicted_rating : Q;
  explanation      : string
}.

(** The two entry points of the Surprise library whose code is outside the
    repository: the similarity computation run by [algo.fit] and
    [algo.predict(uid, iid).est].  Either may raise. *)
Class Surprise : Type := {
  compute_similarities : Trainset -> result (list (list Q));
  predict : KNNBasic -> Z -> Z -> result Q
}.

(** The order in which the interpreter iterates a [set] of [str].  The
    language does not specify it: it depends on the hash seed of the
    process.  Any enumeration of the elements, each once, is allowed. *)
Class SetOrder : Type := {
  iterate : gset string -> list string;
  iterate_elements : forall s, iterate s ≡ₚ elements s
}.

Definition set_algo (g : Globals) (a : option KNNBasic) : Globals :=
  {| algo := a; data := data g; movie_info := movie_info g;
     rating_matrix := rating_matrix g; movie_genres_cache := movie_genres_cache g |}.

Definition set_cache (g : Globals) (c : gmap Z (gset string)) : Globals :=
  {| algo := algo g; data := data g; movie_info := movie_info g;
     rating_matrix := rating_matrix g; movie_genres_cache := c |}.

(** [data, movie_info, rating_matrix = ...] *)
Definition set_dataset (g : Globals)
    (d : list FeedRow * gmap Z MovieInfo * DataFrame) : Globals :=
  let '(df, mi, rm) := d in
  {| algo := algo g; data := Some df; movie_info := Some mi;
     rating_matrix := Some rm; movie_genres_cache := movie_genres_cache g |}.

Definition set_pkl (w : World) (p : PickleFile) : World :=
  {| store := store w; recommender_pkl := p; disk := disk w |}.

(** ** load_data *)

(** [df.drop_duplicates(subset=["movieId"]).set_index("movieId")
       [["title", "genres"]].to_dict(orient="index")]:
    the first row of each movie wins. *)
Definition movie_info_of (df : list FeedRow) : gmap Z MovieInfo :=
  list_to_map
    (map (fun r => (movie_id r, {| mi_title := title r; mi_genres := genres r |})) df).

(** One cell of the pivot table: the mean of the ratings of that user for
    that movie, NaN when there is none. *)
Definition cell (df : list FeedRow) (u m : Z) : option Q :=
  match List.filter (fun r => Z.eqb (user_id r) u && Z.eqb (movie_id r) m) df with
  | [] => None
  | r :: rs => Some (mean (map rating (r :: rs)))
  end.

(** [df.pivot_table(index="userId", columns="movieId", values="rating")]:
    sorted axis labels and the mean of the ratings of each (user, movie)
    pair; a frame without rows pivots to a frame without labels. *)
Definition pivot_table (df : list FeedRow) : DataFrame :=
  let cols := sorted_unique (map movie_id df) in
  {| columns := cols;
     rows := map (fun u => (u, map (cell df u) cols))
                 (sorted_unique (map user_id df)) |}.

(** [set(info["genres"].split("|"))] *)
Definition genre_set (genres_str : string) : gset string :=
  list_to_set (split_on "|" genres_str).

(** The loop filling [movie_genres_cache] from [movie_info_local.items()]. *)
Definition fill_cache (mi : gmap Z MovieInfo) (cache : gmap Z (gset string))
    : gmap Z (gset string) :=
  fold_left (fun c kv => <[fst kv := genre_set (mi_genres (snd kv))]> c)
            (map_to_list mi) cache.

Definition load_data (w : World) (g : Globals)
    : Outcome (list FeedRow * gmap Z MovieInfo * DataFrame) :=
  match fetch_data_from_db (store w) with
  | Raise e => {| globals_after := g; world_after := w; returned := Raise e |}
  | Ok df =>
      let movie_info_local := movie_info_of df in
      let rating_matrix_local := pivot_table df in
      {| globals_after :=
           set_cache g (fill_cache movie_info_local (movie_genres_cache g));
         world_after := w;
         returned := Ok (df, movie_info_local, rating_matrix_local) |}
  end.

(** ** retrain_model and load_model *)

(** [Dataset.load_from_df(data[["userId","movieId","rating"]], reader)
       .build_full_trainset()] *)
Definition build_full_trainset (df : list FeedRow) : Trainset :=
  {| raw_ratings := map (fun r => (user_id r, movie_id r, rating r)) df |}.

(** [KNNBasic(k=10, min_k=3, sim_options=..., verbose=False)] *)
Definition new_KNNBasic : KNNBasic :=
  {| k := 10; min_k := 3; trainset := None; sim := None |}.

(** The two attribute assignments made by [algo.fit(trainset)]. *)
Definition with_trainset (a : KNNBasic) (ts : Trainset) : KNNBasic :=
  {| k := k a; min_k := min_k a; trainset := Some ts; sim := sim a |}.

Definition with_sim (a : KNNBasic) (s : list (list Q)) : KNNBasic :=
  {| k := k a; min_k := min_k a; trainset := trainset a; sim := Some s |}.

Section Operations.
Context {lib : Surprise}.

Definition retrain_model (w : World) (g : Globals) : Outcome KNNBasic :=
  let o := load_data w g in
  match returned o with
  | Raise e => {| globals_after := globals_after o; world_after := w; returned := Raise e |}
  | Ok d =>
      let g1 := set_dataset (globals_after o) d in
      let ts := build_full_trainset (fst (fst d)) in
      (* algo = KNNBasic(...); algo.fit(trainset) stores the trainset in the
         object, then computes the similarities *)
      let a0 := with_trainset new_KNNBasic ts in
      match compute_similarities ts with
      | Raise e =>
          {| globals_after := set_algo g1 (Some a0);
             world_after := w; returned := Raise e |}
      | Ok s =>
          let a := with_sim a0 s in
          let g2 := set_algo g1 (Some a) in
          match disk w with
          | OpenFails =>
              {| globals_after := g2; world_after := w; returned := Raise PersistError |}
          | DumpFails =>
              {| globals_after := g2; world_after := set_pkl w Corrupt;
                 returned := Raise PersistError |}
          | Writable =>
              {| globals_after := g2; world_after := set_pkl w (Pickled a);
                 returned := Ok a |}
          end
      end
  end.

(** [algo = retrain_model()] inside [load_model]. *)
Definition retrain_and_assign (w : World) (g : Globals) : Outcome unit :=
  let o := retrain_model w g in
  match returned o with
  | Ok a => {| globals_after := set_algo (globals_after o) (Some a);
               world_after := world_after o; returned := Ok tt |}
  | Raise e => {| globals_after := globals_after o;
                  world_after := world_after o; returned := Raise e |}
  end.

Definition load_model (w : World) (g : Globals) : Outcome unit :=
  match recommender_pkl w with
  | Pickled a =>
      {| globals_after := set_algo g (Some a); world_after := w; returned := Ok tt |}
  | Corrupt => retrain_and_assign w g
  | NoFile => retrain_and_assign w g
  end.

(** Module initialisation: all globals unset, then
    [data, movie_info, rating_matrix = load_data()] and [load_model()]. *)
Definition initial_globals : Globals :=
  {| algo := None; data := None; movie_info := None; rating_matrix := None;
     movie_genres_cache := ∅ |}.

Definition module_init (w : World) : Outcome unit :=
  let o := load_data w initial_globals in
  match returned o with
  | Raise e => {| globals_after := globals_after o; world_after := w; returned := Raise e |}
  | Ok d => load_model w (set_dataset (globals_after o) d)
  end.

End Operations.

(** ** get_recommendations *)

(** [rating_matrix.loc[user_id]]: the user's row as (movie, cell) pairs. *)
Definition loc (rm : DataFrame) (u : Z) : option (list (Z * option Q)) :=
  match List.find (fun row => Z.eqb (fst row) u) (rows rm) with
  | Some row => Some (combine (columns rm) (snd row))
  | None => None
  end.

(** [user_ratings.dropna()] *)
Definition dropna (s : list (Z * option Q)) : list (Z * Q) :=
  flat_map (fun c => match snd c with Some r => [(fst c, r)] | None => [] end) s.

(** [user_ratings[user_ratings.isna()].index.tolist()] *)
Definition isna_labels (s : list (Z * option Q)) : list Z :=
  flat_map (fun c => match snd c with Some _ => [] | None => [fst c] end) s.

(** [rated_movies[rated_movies >= 3.5]] *)
Definition liked (rated : list (Z * Q)) : list (Z * Q) :=
  List.filter (fun c => Qle_bool (7 # 2) (snd c)) rated.

(** [rated_movies[similar_id]] *)
Definition series_get (s : list (Z * Q)) (m : Z) : result Q :=
  match List.find (fun c => Z.eqb (fst c) m) s with
  | Some c => Ok (snd c)
  | None => Raise KeyError
  end.

(** Raw item ids of a trainset in inner-id order. *)
Definition all_items (ts : Trainset) : list Z :=
  first_seen [] (map (fun t => snd (fst t)) (raw_ratings ts)).

(** [algo.trainset.to_inner_iid(raw_id)] *)
Definition to_inner_iid (a : KNNBasic) (m : Z) : result nat :=
  match trainset a with
  | None => Raise AttributeError
  | Some ts =>
      match index_of m (all_items ts) with
      | Some i => Ok i
      | None => Raise UnknownRawId
      end
  end.

(** [algo.sim[i, j]] *)
Definition sim_at (a : KNNBasic) (i j : nat) : result Q :=
  match sim a with
  | None => Raise AttributeError
  | Some s =>
      match nth_error s i with
      | Some row =>
          match nth_error row j with
          | Some x => Ok x
          | None => Raise IndexError
          end
      | None => Raise IndexError
      end
  end.

(** The inner loop over [liked_movie_ids]: the liked movies whose similarity
    to the candidate is above 0.1; a failing lookup skips the movie. *)
Definition movie_sims (a : KNNBasic) (inner_movie_id : nat) (liked_movie_ids : list Z)
    : list (Z * Q) :=
  flat_map (fun liked_id =>
    match to_inner_iid a liked_id with
    | Ok inner_liked_id =>
        match sim_at a inner_movie_id inner_liked_id with
        | Ok s => if Qle_bool s (1 # 10) then [] else [(liked_id, s)]
        | Raise _ => []
        end
    | Raise _ => []
    end) liked_movie_ids.

(** [movie_info.get(similar_id, {}).get("title", "una película similar")] *)
Definition title_or_default (mi : gmap Z MovieInfo) (m : Z) : string :=
  match mi !! m with
  | Some info => mi_title info
  | None => "una película similar"
  end.

(** [f"{sim_title} (valoración: {sim_rating:.1f})"] *)
Definition sim_text (sim_title : string) (sim_rating : Q) : string :=
  sim_title +:+ " (valoración: " +:+ format_1f sim_rating +:+ ")".

(** The texts of the [else] branch, one per similar movie; a failing
    [rated_movies[similar_id]] aborts the loop. *)
Fixpoint sim_texts (mi : gmap Z MovieInfo) (rated : list (Z * Q))
    (similar_movies : list (Z * Q)) : result (list string) :=
  match similar_movies with
  | [] => Ok []
  | (similar_id, _) :: rest =>
      match series_get rated similar_id with
      | Raise e => Raise e
      | Ok sim_rating =>
          match sim_texts mi rated rest with
          | Raise e => Raise e
          | Ok ts => Ok (sim_text (title_or_default mi similar_id) sim_rating :: ts)
          end
      end
  end.

(** Rule 1, the explanation by similar liked movies; the empty string when
    [similar_movies] is empty. *)
Definition similar_explanation (mi : gmap Z MovieInfo) (rated : list (Z * Q))
    (similar_movies : list (Z * Q)) : result string :=
  match similar_movies with
  | [] => Ok ""
  | [(similar_id, _)] =>
      match series_get rated similar_id with
      | Raise e => Raise e
      | Ok sim_rating =>
          Ok ("Te recomendamos esta película porque te gustó "
              +:+ sim_text (title_or_default mi similar_id) sim_rating +:+ ".")
      end
  | _ =>
      match sim_texts mi rated similar_movies with
      | Raise e => Raise e
      | Ok ts =>
          Ok ("Te recomendamos esta película porque te gustaron películas similares como "
              +:+ join ", " (removelast ts) +:+ " y " +:+ List.last ts "" +:+ ".")
      end
  end.

Section Explanations.
Context {py : SetOrder}.

(** The genre counts of the user's liked movies; empty genre names are
    ignored. *)
Definition user_genre_ratings (cache : gmap Z (gset string)) (liked_movie_ids : list Z)
    : gmap string nat :=
  fold_left (fun acc rated_id =>
    match cache !! rated_id with
    | Some gs =>
        fold_left (fun acc genre =>
          if String.eqb genre "" then acc
          else <[genre := S (default O (acc !! genre))]> acc) (iterate gs) acc
    | None => acc
    end) liked_movie_ids ∅.

(** Rule 2, the explanation by shared genres.  Returns the cache, which is
    written when the candidate has no non-empty entry and is in
    [movie_info], and the explanation (empty when no genre matches). *)
Definition genre_explanation (mi : gmap Z MovieInfo) (liked_movie_ids : list Z)
    (movie : Z) (cache : gmap Z (gset string)) : gmap Z (gset string) * string :=
  let cached := default ∅ (cache !! movie) in
  let '(cache', movie_genres) :=
    match mi !! movie with
    | Some info =>
        if decide (cached = ∅) then
          let genres_str := mi_genres info in
          let gs := if String.eqb genres_str "" then ∅ else genre_set genres_str in
          (<[movie := gs]> cache, gs)
        else (cache, cached)
    | None => (cache, cached)
    end in
  if decide (movie_genres = ∅) then (cache', "")
  else
    let counts := user_genre_ratings cache' liked_movie_ids in
    let matching_genres :=
      List.filter (fun genre => bool_decide (is_Some (counts !! genre))
                                && negb (String.eqb genre ""))
                  (iterate movie_genres) in
    match matching_genres with
    | [] => (cache', "")
    | _ =>
        (cache',
         "Te recomendamos esta película porque contiene géneros que sueles disfrutar: "
         +:+ join ", " matching_genres +:+ ".")
    end.

(** The body of the outer [try] for one recommended movie, threading
    [movie_genres_cache] and the local dictionary [best_similarities]. *)
Definition try_explain (a : KNNBasic) (mi : gmap Z MovieInfo) (rated : list (Z * Q))
    (liked_movie_ids : list Z) (movie : Z)
    (cache : gmap Z (gset string)) (best_similarities : gmap Z (list (Z * Q)))
    : gmap Z (gset string) * gmap Z (list (Z * Q)) * result string :=
  match to_inner_iid a movie with
  | Raise e => (cache, best_similarities, Raise e)
  | Ok inner_movie_id =>
      let best :=
        match best_similarities !! movie with
        | Some _ => best_similarities
        | None =>
            <[movie := nlargest 3 (movie_sims a inner_movie_id liked_movie_ids) snd]>
              best_similarities
        end in
      let similar_movies := default [] (best !! movie) in
      match similar_explanation mi rated similar_movies with
      | Raise e => (cache, best, Raise e)
      | Ok expl =>
          if String.eqb expl "" then
            let '(cache', expl') := genre_explanation mi liked_movie_ids movie cache in
            (cache', best, Ok expl')
          else (cache, best, Ok expl)
      end
  end.

Definition generic_explanation : string :=
  "Esta película ha sido bien valorada por usuarios con gustos similares a los tuyos.".

(** The loop over [top_recommendations]. *)
Fixpoint build_recommendations (a : KNNBasic) (mi : gmap Z MovieInfo)
    (rated : list (Z * Q)) (liked_movie_ids : list Z) (top : list (Z * Q))
    (cache : gmap Z (gset string)) (best_similarities : gmap Z (list (Z * Q)))
    : gmap Z (gset string) * list Recommendation :=
  match top with
  | [] => (cache, [])
  | (movie, pred_rating) :: rest =>
      let '(cache1, best1, r) :=
        try_explain a mi rated liked_movie_ids movie cache best_similarities in
      let expl := match r with Ok e => e | Raise _ => "" end in
      let expl := if String.eqb expl "" then generic_explanation else expl in
      let info := default {| mi_title := "Desconocido"; mi_genres := "" |} (mi !! movie) in
      let '(cache2, recs) :=
        build_recommendations a mi rated liked_movie_ids rest cache1 best1 in
      (cache2,
       {| movieId := movie; rec_title := mi_title info; rec_genres := mi_genres info;
          predicted_rating := round2 pred_rating; explanation := expl |} :: recs)
  end.

End Explanations.

Section Recommend.
Context {lib : Surprise} {py : SetOrder}.

(** The prediction loop: a candidate is kept when [predict] returns an
    estimate of at least 3.0; a raising [predict] skips the candidate. *)
Definition predictions (a : KNNBasic) (user : Z) (movies_no_valoradas : list Z)
    : list (Z * Q) :=
  flat_map (fun movie =>
    match predict a user movie with
    | Ok est => if Qle_bool 3 est then [(movie, est)] else []
    | Raise _ => []
    end) movies_no_valoradas.

(** The part of [get_recommendations] after the model check. *)
Definition recommend_with (a : KNNBasic) (g : Globals) (w : World) (user : Z) (top_n : Z)
    : Outcome (list Recommendation) :=
  match rating_matrix g with
  | None => {| globals_after := g; world_after := w; returned := Raise AttributeError |}
  | Some rm =>
      match loc rm user with
      | None => {| globals_after := g; world_after := w; returned := Raise UserNotFound |}
      | Some user_ratings =>
          let rated_movies := dropna user_ratings in
          let movies_no_valoradas := isna_labels user_ratings in
          let liked_movie_ids := map fst (liked rated_movies) in
          let top_recommendations :=
            nlargest top_n (predictions a user movies_no_valoradas) snd in
          match top_recommendations, movie_info g with
          | [], _ => {| globals_after := g; world_after := w; returned := Ok [] |}
          | _ :: _, None =>
              {| globals_after := g; world_after := w; returned := Raise AttributeError |}
          | _ :: _, Some mi =>
              let '(cache, recs) :=
                build_recommendations a mi rated_movies liked_movie_ids
                  top_recommendations (movie_genres_cache g) ∅ in
              {| globals_after := set_cache g cache; world_after := w; returned := Ok recs |}
          end
      end
  end.

Definition get_recommendations (w : World) (g : Globals) (user : Z) (top_n : Z)
    : Outcome (list Recommendation) :=
  match algo g with
  | Some a => recommend_with a g w user top_n
  | None =>
      let o := load_model w g in
      match returned o, algo (globals_after o) with
      | Ok _, Some a => recommend_with a (globals_after o) (world_after o) user top_n
      | Ok _, None =>
          {| globals_after := globals_after o; world_after := world_after o;
             returned := Raise AttributeError |}
      | Raise e, _ =>
          {| globals_after := globals_after o; world_after := world_after o;
             returned := Raise e |}
      end
  end.

(** The states the process can be in while it serves requests: the module
    initialisation succeeded, and then any number of retrain requests
    (which main.py answers with a 500 when they raise) and recommendation
    requests, each against whatever the world is at that moment. *)
Inductive reachable : Globals -> Prop :=
  | reach_init w : returned (module_init w) = Ok tt ->
      reachable (globals_after (module_init w))
  | reach_retrain w g : reachable g ->
      reachable (globals_after (retrain_model w g))
  | reach_recommend w g user top_n : reachable g ->
      reachable (globals_after (get_recommendations w g user top_n)).

End Recommend.

(** ** The HTTP routes of main.py *)

Module Api.

(** The [detail] of an HTTPException: a fixed text, or a prefix followed by
    the text of the exception that was caught. *)
Inductive Detail : Type :=
  | Message (text : string)
  | MessageWithError (prefix : string) (e : exn)
  | MessageWithDbError (prefix : string) (e : Crud.db_error).

Inductive Response (A : Type) : Type :=
  | Success (body : A)
  | HTTPException (status_code : Z) (detail : Detail).
Arguments Success {A} body.
Arguments HTTPException {A} status_code detail.

(** What a request leaves behind and what it answers. *)
Record Served (A : Type) : Type := {
  globals_served : Globals;
  world_served   : World;
  response       : Response A
}.
Arguments globals_served {A} s.
Arguments world_served {A} s.
Arguments response {A} s.

(** An item of ["recommendations"] with its ["non_personalized"] key. *)
Record RecItem : Type := {
  item             : Recommendation;
  non_personalized : bool
}.

(** The body of a successful GET /recommend/{user_id}. *)
Record RecommendBody : Type := {
  body_userId     : Z;
  ratingsHistory  : list Crud.HistoryRow;
  recommendations : list RecItem;
  personalized    : bool
}.

(** The exceptions of the model that are Python ValueErrors: the one
    raised by [get_recommendations] and Surprise's unknown raw id. *)
Definition is_ValueError (e : exn) : bool :=
  match e with
  | UserNotFound | UnknownRawId => true
  | _ => false
  end.

(** [str(ve)] *)
Definition str_ValueError (e : exn) : Detail :=
  match e with
  | UserNotFound => Message "Usuario no encontrado en el dataset de ratings"
  | _ => MessageWithError "" e
  end.

(** One item of the non-personalized list. *)
Definition non_personalized_rec (db : Database) (movie : Z * string) : RecItem :=
  let movie_genres := Crud.get_movie_genres_by_id (fst movie) db in
  {| item :=
       {| movieId := fst movie; rec_title := snd movie;
          rec_genres := match movie_genres with
                        | [] => "Sin géneros"
                        | _ :: _ => join " | " movie_genres
                        end;
          predicted_rating := 7 # 2;
          explanation := "Esta es una recomendación general no personalizada. Califica más películas para obtener recomendaciones personalizadas." |};
     non_personalized := true |}.

Section Routes.
Context {lib : Surprise} {py : SetOrder}.

(** GET /recommend/{user_id} *)
Definition recommend (w : World) (g : Globals) (user_id : Z) : Served RecommendBody :=
  match store w with
  | None =>
      {| globals_served := g; world_served := w;
         response := HTTPException 500
           (MessageWithError "Error al obtener recomendaciones: " DatabaseError) |}
  | Some db =>
      if negb (existsb (Z.eqb user_id) (Crud.get_all_users db)) then
        {| globals_served := g; world_served := w;
           response := HTTPException 404
             (Message "Usuario no encontrado en la base de datos") |}
      else
        let rating_history := Crud.get_ratings_by_user user_id db in
        match rating_history with
        | [] =>
            {| globals_served := g; world_served := w;
               response := Success
                 {| body_userId := user_id; ratingsHistory := [];
                    recommendations :=
                      map (non_personalized_rec db) (firstn 5 (Crud.get_all_movies db));
                    personalized := false |} |}
        | _ :: _ =>
            let o := get_recommendations w g user_id 5 in
            {| globals_served := globals_after o; world_served := world_after o;
               response :=
                 match returned o with
                 | Ok recs =>
                     Success
                       {| body_userId := user_id; ratingsHistory := rating_history;
                          recommendations :=
                            map (fun rec => {| item := rec; non_personalized := false |}) recs;
                          personalized := true |}
                 | Raise e =>
                     if is_ValueError e then HTTPException 404 (str_ValueError e)
                     else HTTPException 500
                            (MessageWithError "Error al obtener recomendaciones: " e)
                 end |}
        end
  end.

(** POST /retrain *)
Definition retrain (w : World) (g : Globals) : Served unit :=
  let o := retrain_model w g in
  {| globals_served := globals_after o; world_served := world_after o;
     response :=
       match returned o with
       | Ok _ => Success tt
       | Raise e => HTTPException 500 (MessageWithError "Error al reentrenar el modelo: " e)
       end |}.

End Routes.

Definition set_store (w : World) (db : Database) : World :=
  {| store := Some db; recommender_pkl := recommender_pkl w; disk := disk w |}.

(** A route that runs one statement on the store. *)
Definition run_statement (w : World) (prefix : string) (stmt : Database -> Database)
    : World * Response unit :=
  match store w with
  | None =>
      (w, HTTPException 500 (MessageWithDbError prefix Crud.ConnectionFailed))
  | Some db => (set_store w (stmt db), Success tt)
  end.

(** POST /ratings/ *)
Definition add_rating (w : World) (user_id movie_id : Z) (value : Q)
    : World * Response unit :=
  run_statement w "Error al crear calificación: "
    (Crud.create_rating user_id movie_id value).

(** PUT /ratings/ *)
Definition modify_rating (w : World) (user_id movie_id : Z) (value : Q)
    : World * Response unit :=
  run_statement w "Error al actualizar calificación: "
    (Crud.update_rating user_id movie_id value).

(** DELETE /ratings/ *)
Definition remove_rating (w : World) (user_id movie_id : Z) : World * Response unit :=
  run_statement w "Error al eliminar calificación: "
    (Crud.delete_rating user_id movie_id).

(** POST /movie-genres/ *)
Definition add_movie_genre (w : World) (movie_id : Z) (genre_name : string)
    : World * Response unit :=
  match store w with
  | None =>
      (w, HTTPException 500
            (MessageWithDbError "Error al asociar película y género: "
               Crud.ConnectionFailed))
  | Some db =>
      match Crud.link_movie_to_genre movie_id genre_name db with
      | inl e => (w, HTTPException 404 (MessageWithDbError "" e))
      | inr db' => (set_store w db', Success tt)
      end
  end.

End Api.

(** ** The Predictor *)

Module Predictor.

(** Modelled from the spec: the trained model of section 3 (TrainedModel):
    the rating matrix snapshot, a sparse map from user to a partial map
    from movie to rating, the item similarity model, where an undefined
    similarity is absent rather than zero, and the global mean rating.  The
    source keeps these inside Surprise's [KNNBasic] object. *)
Record TrainedModel : Type := {
  matrix      : gmap Z (gmap Z Q);
  similarity  : Z -> Z -> option Q;
  global_mean : Q
}.

(** Modelled from the spec: the constants of section 4.4, the maximum and
    minimum neighbour counts [k] and [min_k] and the configured minimum
    similarity of a qualifying neighbour. *)
Record Config : Type := {
  cfg_k       : nat;
  cfg_min_k   : nat;
  cfg_min_sim : Q
}.

(** [KNNBasic(k=10, min_k=3)] in retrain_model; a neighbour qualifies with
    a positive similarity. *)
Definition default_config : Config :=
  {| cfg_k := 10; cfg_min_k := 3; cfg_min_sim := 0 |}.

(** Modelled from the spec: section 4.4, the estimate is clamped to the
    valid rating range [0.5, 5.0]. *)
Definition clamp (q : Q) : Q :=
  if Qle_bool q (1 # 2) then 1 # 2
  else if Qle_bool 5 q then 5
  else q.

(** Modelled from the spec: the neighbours of section 4.4, the items the
    user has rated, other than the target, whose similarity to the target
    is defined, as (similarity, rating) pairs. *)
Definition neighbors (m : TrainedModel) (row : gmap Z Q) (movie : Z) : list (Q * Q) :=
  flat_map (fun jr : Z * Q =>
    if Z.eqb (fst jr) movie then []
    else match similarity m movie (fst jr) with
         | Some s => [(s, snd jr)]
         | None => []
         end) (map_to_list row).

(** Modelled from the spec: up to [k] neighbours with the highest
    similarity, of which those above the configured minimum are retained. *)
Definition qualifying (c : Config) (m : TrainedModel) (row : gmap Z Q) (movie : Z)
    : list (Q * Q) :=
  List.filter (fun n => negb (Qle_bool (fst n) (cfg_min_sim c)))
              (nlargest (Z.of_nat (cfg_k c)) (neighbors m row movie) fst).

Definition total_weight (ns : list (Q * Q)) : Q := sum_Q (map fst ns).

Definition weighted_sum (ns : list (Q * Q)) : Q :=
  sum_Q (map (fun n => (fst n * snd n)%Q) ns).

(** The [min_k] shortfall, which includes a zero total weight. *)
Definition shortfall (c : Config) (ns : list (Q * Q)) : bool :=
  (length ns <? cfg_min_k c)%nat || Qeq_bool (total_weight ns) 0.

(** Modelled from the spec: [predict(model, user_id, movie_id)] of section
    4.4 (the source calls [KNNBasic.predict] of the Surprise library, whose
    code is not in the repository).  An unknown user fails; on a [min_k]
    shortfall the fallback estimate is the global mean; otherwise the
    estimate is the similarity-weighted average of the neighbour ratings;
    the estimate is clamped. *)
Definition predict (c : Config) (m : TrainedModel) (user movie : Z) : result Q :=
  match matrix m !! user with
  | None => Raise UserNotFound
  | Some row =>
      let ns := qualifying c m row movie in
      if shortfall c ns then Ok (clamp (global_mean m))
      else Ok (clamp (weighted_sum ns / total_weight ns)%Q)
  end.

End Predictor.

(** ** A concrete library instance and a concrete world *)

(** The trained model held by a fitted [KNNBasic] object: its trainset as a
    rating matrix (a later rating of the same pair overwrites an earlier
    one), its similarity array read through the inner ids, and the mean of
    the trainset ratings. *)
Definition rating_map (ts : Trainset) : gmap Z (gmap Z Q) :=
  fold_left (fun acc t =>
    let '(u, m, r) := t in
    <[u := <[m := r]> (default ∅ (acc !! u))]> acc) (raw_ratings ts) ∅.

Definition trained_model (a : KNNBasic) : result Predictor.TrainedModel :=
  match trainset a, sim a with
  | Some ts, Some _ =>
      Ok {| Predictor.matrix := rating_map ts;
            Predictor.similarity := fun i j =>
              match to_inner_iid a i, to_inner_iid a j with
              | Ok ii, Ok jj =>
                  match sim_at a ii jj with Ok s => Some s | Raise _ => None end
              | _, _ => None
              end;
            Predictor.global_mean := mean (map snd (raw_ratings ts)) |}
  | _, _ => Raise AttributeError
  end.

(** A stand-in for the similarity computation of [fit], used only to run
    the operations on concrete data: every pair of distinct items gets
    similarity 1/2 and every item similarity 1 with itself. *)
Definition flat_similarities (ts : Trainset) : result (list (list Q)) :=
  let n := length (all_items ts) in
  Ok (map (fun i => map (fun j => if Nat.eqb i j then 1%Q else (1 # 2)%Q) (seq 0 n)) (seq 0 n)).

Definition sample_lib : Surprise :=
  {| compute_similarities := flat_similarities;
     predict := fun a u i =>
       match trained_model a with
       | Ok m => Predictor.predict Predictor.default_config m u i
       | Raise e => Raise e
       end |}.

(** Two iteration orders for the sets of genre names: the order of
    [elements], and its reverse. *)
Definition sample_order : SetOrder :=
  {| iterate := elements; iterate_elements := fun s => reflexivity (R := Permutation) _ |}.

Definition reversed_order : SetOrder :=
  {| iterate := fun s => reverse (elements s);
     iterate_elements := fun s => reverse_Permutation (elements s) |}.

(** A small store: users 1, 2 and 3; user 3 has rated nothing; movie 50 has
    no genre link. *)
Definition sample_db : Database :=
  {| User := [1; 2; 3];
     Movie := [(10, "Alien"); (20, "Brazil"); (30, "Casino"); (40, "Dune"); (50, "Echo")];
     Genre := [(1, "Sci-Fi"); (2, "Drama")];
     Movie_Genre := [(10, 1); (20, 1); (20, 2); (30, 2); (40, 1)];
     Rating := [(1, 10, 5%Q); (1, 20, 4%Q); (1, 30, 4%Q);
                (2, 10, 4%Q); (2, 40, 5%Q); (2, 50, (7 # 2)%Q)] |}.

(** The same store after user 3 rated movie 10. *)
Definition sample_db_later : Database :=
  {| User := User sample_db; Movie := Movie sample_db; Genre := Genre sample_db;
     Movie_Genre := Movie_Genre sample_db;
     Rating := Rating sample_db ++ [(3, 10, 5%Q)] |}.

Definition sample_world : World :=
  {| store := Some sample_db; recommender_pkl := NoFile; disk := Writable |}.

(** The globals after the module was initialised in [sample_world]. *)
Definition sample_globals : Globals :=
  globals_after (module_init (lib := sample_lib) sample_world).

(** The process is restarted after user 3 rated movie 10: the pickle file
    is the one written by the first start, the store is the later one. *)
Definition restart_world : World :=
  {| store := Some sample_db_later;
     recommender_pkl := recommender_pkl (world_after (module_init (lib := sample_lib) sample_world));
     disk := Writable |}.

Definition restart_globals : Globals :=
  globals_after (module_init (lib := sample_lib) restart_world).

(** A retrain request arrives after user 3 rated movie 10, and writing the
    pickle file fails. *)
Definition failing_disk_world : World :=
  {| store := Some sample_db_later; recommender_pkl := NoFile; disk := DumpFails |}.

(** A reachable store without any row. *)
Definition empty_db : Database :=
  {| User := []; Movie := []; Genre := []; Movie_Genre := []; Rating := [] |}.

Definition empty_world : World :=
  {| store := Some empty_db; recommender_pkl := NoFile; disk := Writable |}.

Definition empty_frame : DataFrame := {| columns := []; rows := [] |}.

(** A trained model in the sense of the Predictor: one user with two
    ratings, every pair of items similar with weight 1/2. *)
Definition sample_model : Predictor.TrainedModel :=
  {| Predictor.matrix := {[ 1 := {[ 10 := 5%Q; 20 := 4%Q ]} ]};
     Predictor.similarity := fun _ _ => Some (1 # 2)%Q;
     Predictor.global_mean := (9 # 2)%Q |}.

(** The model object, the recommendations of user 1 and the first of them
    in [sample_globals]. *)
Definition sample_algo : KNNBasic :=
  match algo sample_globals with Some a => a | None => new_KNNBasic end.

Definition sample_recs : list Recommendation :=
  match returned (get_recommendations (lib := sample_lib) (py := sample_order) sample_world sample_globals 1 5) with
  | Ok recs => recs
  | Raise _ => []
  end.

Definition sample_rec : Recommendation :=
  match sample_recs with
  | rec :: _ => rec
  | [] => {| movieId := 0; rec_title := ""; rec_genres := "";
             predicted_rating := 0; explanation := "" |}
  end.

(** A data.csv with one genreless movie. *)
Definition sample_csv : list CsvRow :=
  [ {| csv_userId := 1; csv_movieId := 10; csv_rating := 5; csv_title := "Alien";
       csv_genres := "Horror|Sci-Fi" |};
    {| csv_userId := 1; csv_movieId := 50; csv_rating := 4; csv_title := "Echo";
       csv_genres := "(no genres listed)" |};
    {| csv_userId := 2; csv_movieId := 10; csv_rating := 3; csv_title := "Alien";
       csv_genres := "Horror|Sci-Fi" |} ].

(** The same library with a similarity computation that finds no
    correlation at all, and the globals it leads to. *)
Definition zero_similarities (ts : Trainset) : result (list (list Q)) :=
  let n := length (all_items ts) in
  Ok (map (fun _ => map (fun _ => 0%Q) (seq 0 n)) (seq 0 n)).

Definition uncorrelated_lib : Surprise :=
  {| compute_similarities := zero_similarities; predict := predict (Surprise := sample_lib) |}.

Definition uncorrelated_globals : Globals :=
  globals_after (module_init (lib := uncorrelated_lib) sample_world).

(** Globals that no run produces: those of [uncorrelated_globals] with an
    emptied genre cache. *)
Definition uncovered_globals : Globals := set_cache uncorrelated_globals ∅.

(** ** Invariants of the globals *)

(** Every movie of [movie_info] has a non-empty genre set in the cache:
    what the loop of [load_data] establishes. *)
Definition cache_covers (mi : gmap Z MovieInfo) (cache : gmap Z (gset string)) : Prop :=
  forall m info, mi !! m = Some info -> exists gs, cache !! m = Some gs /\ gs <> ∅.

(** The globals hold a model object, and a dataset, metadata index and
    rating matrix that were built from one feed, covered by the cache. *)
Definition ready (g : Globals) : Prop :=
  (exists a, algo g = Some a) /\
  exists df, data g = Some df /\ movie_info g = Some (movie_info_of df) /\
             rating_matrix g = Some (pivot_table df) /\
             cache_covers (movie_info_of df) (movie_genres_cache g).

(** The rating matrix and the model in the globals were built from the same
    snapshot [df] of the rating feed. *)
Definition same_snapshot (g : Globals) : Prop :=
  exists df a, rating_matrix g = Some (pivot_table df) /\ algo g = Some a /\
               trainset a = Some (build_full_trainset df).

(** The local dictionary [best_similarities] only ever holds, for a movie
    of the trainset, the three most similar liked movies computed for it. *)
Definition best_similarities_ok (a : KNNBasic) (liked_movie_ids : list Z)
    (best : gmap Z (list (Z * Q))) : Prop :=
  forall m sel, best !! m = Some sel ->
    exists inner, to_inner_iid a m = Ok inner /\
                  sel = nlargest 3 (movie_sims a inner liked_movie_ids) snd.

(** The order a descending sort by [key] establishes. *)
Definition ge_key {A} (key : A -> Q) (x y : A) : Prop := (key y <= key x)%Q.

(** ** Reading a number back from its text *)

(** The value of a decimal digit. *)
Definition digit_value (c : ascii) : option Z :=
  let n := Z.of_nat (nat_of_ascii c) in
  if (48 <=? n) && (n <=? 57) then Some (n - 48) else None.

(** The number of tenths denoted by a numeral with exactly one digit after
    the point: ["4.5"] reads as 45. *)
Fixpoint read_tenths (acc : Z) (s : string) : option Z :=
  match s with
  | EmptyString => None
  | String c rest =>
      if Ascii.eqb c "." then
        match rest with
        | String d EmptyString => option_map (fun v => 10 * acc + v) (digit_value d)
        | _ => None
        end
      else
        match digit_value c with
        | Some v => read_tenths (10 * acc + v) rest
        | None => None
        end
  end.

(** [text] shows the rating [r] with one decimal: it is a numeral with one
    digit after the point, preceded by a minus sign when [r] is negative,
    and its value is within 0.05 of [r]. *)
Definition shows_rating (text : string) (r : Q) : Prop :=
  exists tenths : Z,
    (read_tenths 0 text = Some tenths \/
     exists body, text = "-" +:+ body /\ read_tenths 0 body = Some (- tenths)) /\
    (r - (1 # 20) <= inject_Z tenths / 10 <= r + (1 # 20))%Q.

(** ** Keys of the store *)

(** The uniqueness that the ON CONFLICT clauses of database.py and
    upload_data.py name: one value per (user, movie) in Rating and one
    title per id in Movie. *)
Definition unique_ratings (db : Database) : Prop :=
  forall u m v1 v2, In (u, m, v1) (Rating db) -> In (u, m, v2) (Rating db) -> v1 = v2.

Definition unique_movies (db : Database) : Prop :=
  forall m t1 t2, In (m, t1) (Movie db) -> In (m, t2) (Movie db) -> t1 = t2.

(** The (user, movie) pair of a feed row. *)
Definition feed_key (row : FeedRow) : Z * Z := (user_id row, movie_id row).

(** Two groups of the feed query with different GROUP BY keys. *)
Definition distinct_groups (a b : Z * Z * Q * string * string) : Prop :=
  same_group (fst a) (fst b) = false.

(** A genre name without the separator of STRING_AGG. *)
Definition no_bar (s : string) : Prop := ~ In "|"%char (list_ascii_of_string s).

(** The names aggregated into the group of [key]: those of the joined rows
    with that key, in order. *)
Definition names_of (key : Z * Z * Q * string)
    (rows : list (Z * Z * Q * string * string)) : list string :=
  map snd (List.filter (fun row => same_group key (fst row)) rows).

(** The names of the genres linked to a movie. *)
Definition movie_genre_names (db : Database) (m : Z) : list string :=
  flat_map (fun mg : Z * Z =>
    if Z.eqb (fst mg) m
    then map snd (List.filter (fun g : Z * string => Z.eqb (fst g) (snd mg)) (Genre db))
    else []) (Movie_Genre db).

(** The list [matching_genres] of the genre rule: the non-empty genres of
    the candidate that occur among the genres of the liked movies, in the
    order in which the set of the candidate's genres is iterated. *)
Definition matching_genres {py : SetOrder} (cache : gmap Z (gset string))
    (liked_movie_ids : list Z) (movie_genres : gset string) : list string :=
  List.filter (fun genre =>
      bool_decide (is_Some (user_genre_ratings cache liked_movie_ids !! genre))
      && negb (String.eqb genre ""))
    (iterate movie_genres).

(** A table with at most one row per key. *)
Definition key_unique {A} (key_eq : A -> A -> bool) (table : list A) : Prop :=
  forall x y, In x table -> In y table -> key_eq x y = true -> x = y.

(** ** More concrete data *)

(** A row of the feed of [sample_db]: movie 20 has two genres. *)
Definition sample_feed_row : FeedRow :=
  {| user_id := 1; movie_id := 20; rating := 4; title := "Brazil";
     genres := "Sci-Fi|Drama" |}.

(** The rating matrix of [sample_globals] and the row of user 1. *)
Definition sample_matrix : DataFrame :=
  match rating_matrix sample_globals with
  | Some rm => rm
  | None => empty_frame
  end.

Definition sample_row_1 : list (Z * option Q) := default [] (loc sample_matrix 1).

(** The row of user 2 in the rating matrix of [sample_globals], and the
    estimate of the sample library for the movies user 2 has not rated
    (the global mean: user 2 has fewer than [min_k] ratings). *)
Definition sample_row_2 : list (Z * option Q) :=
  match rating_matrix sample_globals with
  | Some rm => default [] (loc rm 2)
  | None => []
  end.

Definition sample_estimate : Q :=
  match predict (Surprise := sample_lib) sample_algo 2 20 with
  | Ok e => e
  | Raise _ => 0
  end.

(** The store after movie 60 was added and rated by user 2, and the
    process restarted on it with the pickle file of the first start: the
    restored model does not know movie 60. *)
Definition sample_db_new_movie : Database :=
  {| User := User sample_db;
     Movie := Movie sample_db ++ [(60, "Fargo")];
     Genre := Genre sample_db;
     Movie_Genre := Movie_Genre sample_db ++ [(60, 2)];
     Rating := Rating sample_db ++ [(2, 60, 4%Q)] |}.

Definition stale_world : World :=
  {| store := Some sample_db_new_movie;
     recommender_pkl := recommender_pkl restart_world;
     disk := Writable |}.

Definition stale_globals : Globals :=
  globals_after (module_init (lib := sample_lib) stale_world).

Definition stale_recs : list Recommendation :=
  match returned (get_recommendations (lib := sample_lib) (py := sample_order) stale_world stale_globals 1 5) with
  | Ok recs => recs
  | Raise _ => []
  end.

Definition stale_rec : Recommendation :=
  match List.find (fun rec => Z.eqb (movieId rec) 60) stale_recs with
  | Some rec => rec
  | None => sample_rec
  end.

(** The recommendations of user 1 under the library without correlation. *)
Definition uncorrelated_algo : KNNBasic :=
  match algo uncorrelated_globals with Some a => a | None => new_KNNBasic end.

Definition uncorrelated_recs : list Recommendation :=
  match returned (get_recommendations (lib := uncorrelated_lib) (py := sample_order)
                    sample_world uncorrelated_globals 1 5) with
  | Ok recs => recs
  | Raise _ => []
  end.

Definition uncorrelated_rec : Recommendation :=
  match uncorrelated_recs with
  | rec :: _ => rec
  | [] => sample_rec
  end.

(** The first line of [sample_csv]. *)
Definition sample_csv_row : CsvRow :=
  {| csv_userId := 1; csv_movieId := 10; csv_rating := 5; csv_title := "Alien";
     csv_genres := "Horror|Sci-Fi" |}.

(** [sample_db] after the genre Drama was linked to movie 50. *)
Definition sample_db_linked : Database :=
  match Crud.link_movie_to_genre 50 "Drama" sample_db with
  | inr db => db
  | inl _ => sample_db
  end.

(** [sample_db] after user 3 rated movie 50, which has no genre, and the
    globals of a process started on it. *)
Definition sample_db_genreless_user : Database :=
  {| User := User sample_db; Movie := Movie sample_db; Genre := Genre sample_db;
     Movie_Genre := Movie_Genre sample_db;
     Rating := Rating sample_db ++ [(3, 50, 4%Q)] |}.

Definition genreless_user_world : World :=
  {| store := Some sample_db_genreless_user; recommender_pkl := NoFile; disk := Writable |}.

Definition genreless_user_globals : Globals :=
  globals_after (module_init (lib := sample_lib) genreless_user_world).

(** * Properties *)

(** ** Axis labels: [sorted_unique] *)

Lemma In_insert_uniq (x y : Z) (l : list Z) :
  In y (insert_uniq x l) <-> y = x \/ In y l.
Proof.
  induction l as [|z l IH]; simpl.
  - intuition.
  - destruct (Z.ltb_spec x z); simpl; [intuition|].
    destruct (Z.eqb_spec x z); simpl; [subst; intuition|].
    rewrite IH. intuition.
Qed.

Lemma In_sorted_unique (y : Z) (l : list Z) :
  In y (sorted_unique l) <-> In y l.
Proof.
  induction l as [|x l IH]; simpl; [tauto|].
  rewrite In_insert_uniq, IH. intuition.
Qed.

Lemma insert_uniq_sorted (x : Z) (l : list Z) :
  StronglySorted Z.lt l -> StronglySorted Z.lt (insert_uniq x l).
Proof.
  induction 1 as [|z l Hs IH Hall]; simpl.
  - repeat constructor.
  - destruct (Z.ltb_spec x z).
    + constructor; [by constructor|].
      constructor; [done|].
      eapply List.Forall_impl; [|exact Hall]. simpl. intros; lia.
    + destruct (Z.eqb_spec x z); [by constructor|].
      constructor; [done|].
      apply List.Forall_forall. intros y Hy.
      apply In_insert_uniq in Hy as [->|Hy]; [lia|].
      rewrite List.Forall_forall in Hall. by apply Hall.
Qed.

Lemma sorted_unique_sorted (l : list Z) : StronglySorted Z.lt (sorted_unique l).
Proof.
  induction l; simpl; [constructor | by apply insert_uniq_sorted].
Qed.

Lemma sorted_lt_NoDup (l : list Z) : StronglySorted Z.lt l -> List.NoDup l.
Proof.
  induction 1 as [|z l Hs IH Hall]; constructor; [|done].
  intros Hin. rewrite List.Forall_forall in Hall. specialize (Hall _ Hin). lia.
Qed.

Lemma sorted_unique_NoDup (l : list Z) : List.NoDup (sorted_unique l).
Proof. apply sorted_lt_NoDup, sorted_unique_sorted. Qed.

(** ** Selection: [nlargest] *)

Section Nlargest.
Context {A : Type} (key : A -> Q).

Lemma In_insert_desc (x y : A) (l : list A) :
  In y (insert_desc key x l) <-> y = x \/ In y l.
Proof.
  induction l as [|z l IH]; simpl.
  - intuition.
  - destruct (Qle_bool (key z) (key x)); simpl; [intuition|].
    rewrite IH. intuition.
Qed.

Lemma In_sorted_desc (y : A) (l : list A) : In y (sorted_desc key l) <-> In y l.
Proof.
  induction l as [|x l IH]; simpl; [tauto|].
  rewrite In_insert_desc, IH. intuition.
Qed.

Lemma length_insert_desc (x : A) (l : list A) :
  length (insert_desc key x l) = S (length l).
Proof.
  induction l as [|z l IH]; simpl; [done|].
  destruct (Qle_bool (key z) (key x)); simpl; congruence.
Qed.

Lemma length_sorted_desc (l : list A) : length (sorted_desc key l) = length l.
Proof.
  induction l as [|x l IH]; simpl; [done|].
  by rewrite length_insert_desc, IH.
Qed.

Lemma insert_desc_sorted (x : A) (l : list A) :
  StronglySorted (ge_key key) l -> StronglySorted (ge_key key) (insert_desc key x l).
Proof.
  induction 1 as [|z l Hs IH Hall]; simpl.
  - repeat constructor.
  - destruct (Qle_bool (key z) (key x)) eqn:Hle.
    + apply Qle_bool_iff in Hle.
      constructor; [by constructor|].
      constructor; [exact Hle|].
      eapply List.Forall_impl; [|exact Hall].
      unfold ge_key. intros a Ha. by eapply Qle_trans.
    + assert (key x < key z)%Q as Hlt.
      { apply Qnot_le_lt. intros H. apply Qle_bool_iff in H. congruence. }
      constructor; [done|].
      apply List.Forall_forall. intros y Hy.
      apply In_insert_desc in Hy as [->|Hy].
      * by apply Qlt_le_weak.
      * rewrite List.Forall_forall in Hall. by apply Hall.
Qed.

Lemma sorted_desc_sorted (l : list A) : StronglySorted (ge_key key) (sorted_desc key l).
Proof.
  induction l; simpl; [constructor | by apply insert_desc_sorted].
Qed.

Lemma firstn_In (n : nat) (l : list A) (x : A) : In x (firstn n l) -> In x l.
Proof.
  revert n. induction l as [|z l IH]; intros [|n]; simpl; try tauto.
  intros [->|H]; [by left | right; by eapply IH].
Qed.

Lemma skipn_In (n : nat) (l : list A) (x : A) : In x (skipn n l) -> In x l.
Proof.
  revert n. induction l as [|z l IH]; intros [|n]; simpl; try tauto.
  intros H. right. by eapply IH.
Qed.

Lemma sorted_firstn_dominates (n : nat) (l : list A) :
  StronglySorted (ge_key key) l ->
  forall x y, In x (firstn n l) -> In y (skipn n l) -> ge_key key x y.
Proof.
  intros Hs. revert n.
  induction Hs as [|z l Hs IH Hall]; intros n x y Hx Hy.
  - by rewrite firstn_nil in Hx.
  - destruct n as [|n]; simpl in *; [done|].
    destruct Hx as [->|Hx].
    + rewrite List.Forall_forall in Hall. apply Hall.
      by eapply skipn_In.
    + by eapply IH.
Qed.

Lemma nlargest_length (n : Z) (l : list A) :
  (length (nlargest n l key) <= Z.to_nat n)%nat.
Proof. unfold nlargest. apply firstn_le_length. Qed.

Lemma nlargest_length_min (n : Z) (l : list A) :
  length (nlargest n l key) = Nat.min (Z.to_nat n) (length l).
Proof. unfold nlargest. by rewrite length_firstn, length_sorted_desc. Qed.

Lemma nlargest_nonpos (n : Z) (l : list A) : n <= 0 -> nlargest n l key = [].
Proof.
  intros Hn. unfold nlargest.
  replace (Z.to_nat n) with O by lia. done.
Qed.

Lemma nlargest_In (n : Z) (l : list A) (x : A) : In x (nlargest n l key) -> In x l.
Proof.
  unfold nlargest. intros Hx. apply In_sorted_desc. by eapply firstn_In.
Qed.

(** Whatever was not selected is no larger than anything selected. *)
Lemma nlargest_highest (n : Z) (l : list A) (x y : A) :
  In x (nlargest n l key) -> In y l ->
  In y (nlargest n l key) \/ (key y <= key x)%Q.
Proof.
  unfold nlargest. intros Hx Hy.
  apply In_sorted_desc in Hy.
  rewrite <- (firstn_skipn (Z.to_nat n) (sorted_desc key l)) in Hy at 1.
  apply in_app_or in Hy as [Hy|Hy]; [by left|right].
  eapply (sorted_firstn_dominates _ _ (sorted_desc_sorted l)); eauto.
Qed.

End Nlargest.

(** ** Rounding *)

Lemma round_half_even_floor (q : Q) : Qfloor q <= round_half_even q.
Proof.
  unfold round_half_even.
  repeat match goal with |- context [if ?b then _ else _] => destruct b end; lia.
Qed.

Lemma round2_floor_3 (q : Q) : (3 <= q)%Q -> (3 <= round2 q)%Q.
Proof.
  intros Hq. unfold round2.
  assert (300 <= round_half_even (q * 100)) as Hr.
  { etransitivity; [|apply round_half_even_floor].
    rewrite <- (Qfloor_Z 300).
    apply Qfloor_resp_le.
    apply Qle_trans with (3 * 100)%Q; [discriminate|].
    apply Qmult_le_compat_r; [exact Hq | discriminate]. }
  apply Qle_shift_div_l; [reflexivity|].
  apply Qle_trans with (inject_Z 300); [discriminate|].
  rewrite <- Zle_Qle. exact Hr.
Qed.

Ltac Qbool :=
  repeat match goal with
  | H : Qle_bool _ _ = true |- _ => apply Qle_bool_iff in H
  | H : Qle_bool ?x ?y = false |- _ =>
      assert (y < x)%Q by (apply Qnot_le_lt; intros Hc; apply Qle_bool_iff in Hc; congruence);
      clear H
  end.

Lemma round_half_even_below (q : Q) : round_half_even q <= Qfloor q + 1.
Proof.
  unfold round_half_even.
  repeat match goal with |- context [if ?b then _ else _] => destruct b end; lia.
Qed.

Lemma round_half_even_near (q : Q) :
  (q - (1 # 2) <= inject_Z (round_half_even q) <= q + (1 # 2))%Q.
Proof.
  pose proof (Qfloor_le q) as Hlo. pose proof (Qlt_floor q) as Hhi.
  rewrite inject_Z_plus in Hhi. change (inject_Z 1) with 1%Q in Hhi.
  unfold round_half_even.
  destruct (Qle_bool (q - inject_Z (Qfloor q)) (1 # 2)) eqn:A;
  destruct (Qle_bool (1 # 2) (q - inject_Z (Qfloor q))) eqn:B;
  destruct (Z.even (Qfloor q));
  rewrite ?inject_Z_plus; change (inject_Z 1) with 1%Q; Qbool; split; lra.
Qed.

(** ** The one-decimal format reads back as the rounded value *)

Lemma string_app_assoc (a b c : string) : (a +:+ b) +:+ c = a +:+ (b +:+ c).
Proof.
  induction a as [|x a IH]; [done|].
  change (String x ((a +:+ b) +:+ c) = String x (a +:+ (b +:+ c))). by rewrite IH.
Qed.

Lemma digit_cases (d : Z) :
  0 <= d < 10 ->
  exists c, digit d = String c EmptyString /\ digit_value c = Some d /\
            Ascii.eqb c "." = false.
Proof.
  intros H.
  assert (d = 0 \/ d = 1 \/ d = 2 \/ d = 3 \/ d = 4 \/ d = 5 \/ d = 6 \/ d = 7 \/
          d = 8 \/ d = 9) as Hd by lia.
  repeat (destruct Hd as [->|Hd]); try subst d;
    eexists; (split; [reflexivity|]); split; reflexivity.
Qed.

Lemma read_tenths_digit (d acc : Z) (rest : string) :
  0 <= d < 10 ->
  read_tenths acc (digit d +:+ rest) = read_tenths (10 * acc + d) rest.
Proof.
  intros H. destruct (digit_cases d H) as (c & -> & Hv & Hdot).
  change (String c EmptyString +:+ rest) with (String c rest).
  cbn [read_tenths]. by rewrite Hdot, Hv.
Qed.

Lemma read_tenths_point (d acc : Z) :
  0 <= d < 10 -> read_tenths acc ("." +:+ digit d) = Some (10 * acc + d).
Proof.
  intros H. destruct (digit_cases d H) as (c & -> & Hv & Hdot).
  change ("." +:+ String c EmptyString) with (String "." (String c EmptyString)).
  cbn [read_tenths]. change (Ascii.eqb "." ".") with true. cbv iota. by rewrite Hv.
Qed.

Lemma read_tenths_decimal_fuel (fuel : nat) (n : Z) :
  0 <= n -> (Z.to_nat n <= fuel)%nat ->
  exists p, forall acc rest,
    read_tenths acc (decimal_fuel fuel n +:+ rest) = read_tenths (p * acc + n) rest.
Proof.
  revert n. induction fuel as [|fuel IH]; intros n Hn Hf.
  - assert (n = 0) as -> by lia. exists 10. intros acc rest.
    cbn [decimal_fuel]. change (0 mod 10) with 0.
    rewrite read_tenths_digit by lia; f_equal; lia.
  - cbn [decimal_fuel]. destruct (Z.ltb_spec n 10) as [Hlt|Hge].
    + exists 10. intros acc rest. rewrite read_tenths_digit by lia; f_equal; lia.
    + pose proof (Z.div_lt n 10 ltac:(lia) ltac:(lia)) as Hdiv.
      pose proof (Z.div_pos n 10 ltac:(lia) ltac:(lia)) as Hpos.
      destruct (IH (n / 10) Hpos ltac:(lia)) as [p Hp].
      exists (10 * p). intros acc rest.
      rewrite string_app_assoc, Hp.
      rewrite read_tenths_digit by (apply Z.mod_pos_bound; lia).
      pose proof (Z.div_mod n 10 ltac:(lia)). f_equal; lia.
Qed.

Lemma read_tenths_numeral (n : Z) :
  0 <= n ->
  read_tenths 0 (decimal (n / 10) +:+ "." +:+ digit (n mod 10)) = Some n.
Proof.
  intros Hn. unfold decimal.
  pose proof (Z.div_pos n 10 Hn ltac:(lia)) as Hpos.
  destruct (read_tenths_decimal_fuel (Z.to_nat (n / 10)) (n / 10) Hpos ltac:(lia))
    as [p Hp].
  rewrite Hp, read_tenths_point by (apply Z.mod_pos_bound; lia).
  pose proof (Z.div_mod n 10 ltac:(lia)). f_equal; lia.
Qed.

(** [f"{r:.1f}"] shows [r] with one decimal. *)
Lemma format_1f_shows (r : Q) : shows_rating (format_1f r) r.
Proof.
  pose proof (round_half_even_near (r * 10)) as [Hlo Hhi].
  pose proof (round_half_even_floor (r * 10)) as Hfl.
  pose proof (round_half_even_below (r * 10)) as Hbe.
  pose proof (Qfloor_le (r * 10)) as Hqf.
  unfold format_1f.
  set (tenths := round_half_even (r * 10)) in *. clearbody tenths.
  exists tenths.
  split; [|unfold Qdiv; change (/ 10)%Q with (1 # 10)%Q; split; lra].
  destruct (Qle_bool 0 r) eqn:Hs; Qbool.
  - left. assert (0 <= tenths) as Hk.
    { etransitivity; [|exact Hfl]. rewrite <- (Qfloor_Z 0).
      apply Qfloor_resp_le. change (inject_Z 0) with 0%Q. lra. }
    rewrite Z.abs_eq by done.
    change ("" +:+ ?x) with x. by apply read_tenths_numeral.
  - right. assert (tenths <= 0) as Hk.
    { assert (Qfloor (r * 10) < 0); [|lia].
      rewrite Zlt_Qlt. change (inject_Z 0) with 0%Q. lra. }
    eexists. split; [reflexivity|].
    rewrite Z.abs_neq by done. apply read_tenths_numeral. lia.
Qed.

(** ** The rating feed *)

Lemma joined_In (db : Database) (u m : Z) (v : Q) (t g : string) :
  In (u, m, v, t, g) (joined db) ->
  In (u, m, v) (Rating db) /\ In (m, t) (Movie db) /\
  exists gid, In (m, gid) (Movie_Genre db) /\ In (gid, g) (Genre db).
Proof.
  unfold joined. intros H.
  apply in_flat_map in H as [[[u' m'] v'] [Hr H]].
  apply in_flat_map in H as [[mid t'] [Hm H]]. simpl in H.
  destruct (Z.eqb_spec mid m'); [subst mid | done].
  apply in_flat_map in H as [[mm gid] [Hmg H]]. simpl in H.
  destruct (Z.eqb_spec mm m'); [subst mm | done].
  apply in_flat_map in H as [[gid' g'] [Hg H]]. simpl in H.
  destruct (Z.eqb_spec gid' gid); [subst gid' | done].
  destruct H as [H|[]]. inversion H; subst. eauto 10.
Qed.

Lemma add_to_group_key key g groups k agg :
  In (k, agg) (add_to_group key g groups) ->
  k = key \/ exists agg0, In (k, agg0) groups.
Proof.
  induction groups as [|[k' agg'] rest IH]; simpl.
  - intros [H|[]]. inversion H. by left.
  - destruct (same_group k' key).
    + intros [H|H]; right.
      * inversion H; subst. eexists. by left.
      * eexists. right. exact H.
    + intros [H|H].
      * inversion H; subst. right. eexists. by left.
      * destruct (IH H) as [->|[agg0 H0]]; [by left|].
        right. eexists. right. exact H0.
Qed.

Lemma fold_groups_key rows acc k agg :
  In (k, agg)
     (fold_left (fun groups row => add_to_group (fst row) (snd row) groups) rows acc) ->
  (exists agg0, In (k, agg0) acc) \/ (exists g, In (k, g) rows).
Proof.
  revert acc. induction rows as [|[k' g'] rows IH]; simpl; intros acc H.
  - left. eauto.
  - destruct (IH _ H) as [[agg0 H0]|[g H0]].
    + apply add_to_group_key in H0 as [->|H0]; [|by left].
      right. eexists. by left.
    + right. eexists. right. exact H0.
Qed.

(** Every feed row comes from a rating joined with a genre link of its
    movie. *)
Lemma query_row_origin (db : Database) (row : FeedRow) :
  In row (query db) ->
  In (user_id row, movie_id row, rating row) (Rating db) /\
  exists gid, In (movie_id row, gid) (Movie_Genre db).
Proof.
  unfold query, group_by. intros H.
  apply in_map_iff in H as [[[[[u m] v] t] agg] [<- H]]. simpl.
  apply fold_groups_key in H as [[agg0 []]|[g H]].
  apply joined_In in H as (Hr & _ & gid & Hmg & _). eauto.
Qed.

(** ** The bulk loader *)

Lemma In_insert_all {A} (key_eq : A -> A -> bool) (xs table : list A) (x : A) :
  In x (insert_all key_eq xs table) -> In x table \/ In x xs.
Proof.
  unfold insert_all. revert table.
  induction xs as [|y xs IH]; simpl; intros table H; [by left|].
  apply IH in H as [H|H]; [|by right; right].
  unfold insert_do_nothing in H.
  destruct (existsb (key_eq y) table); [by left|].
  apply in_app_or in H as [H|[->|[]]]; [by left | right; by left].
Qed.

Lemma movie_genre_pairs_In (csv : list CsvRow) genre_table (m gid : Z) :
  In (m, gid) (movie_genre_pairs csv genre_table) ->
  exists row genre, In row csv /\ csv_movieId row = m /\
    In genre (split_on "|" (csv_genres row)) /\ genre <> no_genres_listed.
Proof.
  unfold movie_genre_pairs. intros H.
  apply in_flat_map in H as (row & Hrow & H).
  apply in_flat_map in H as (genre & Hgenre & H).
  destruct (String.eqb_spec genre no_genres_listed) as [|Hne]; [done|].
  destruct (genre_dict genre_table genre); [|done].
  destruct H as [[= <- _]|[]]. eauto 10.
Qed.

(** A movie whose every CSV line carries only the token
    '(no genres listed)' gets no Movie_Genre row from the loader. *)
Lemma bulk_loader_skips_no_genres_listed (db : Database) (csv : list CsvRow) (m : Z) :
  (forall gid, ~ In (m, gid) (Movie_Genre db)) ->
  (forall row, In row csv -> csv_movieId row = m -> csv_genres row = no_genres_listed) ->
  forall gid, ~ In (m, gid) (Movie_Genre (upload_data db csv)).
Proof.
  intros Hdb Hcsv gid Hin. simpl in Hin.
  apply In_insert_all in Hin as [Hin|Hin]; [by eapply Hdb|].
  apply movie_genre_pairs_In in Hin as (row & genre & Hrow & Hm & Hg & Hne).
  rewrite (Hcsv row Hrow Hm) in Hg.
  destruct Hg as [<-|[]]. done.
Qed.

(** ** The pivot table *)

Lemma index_pivot_table (df : list FeedRow) :
  index (pivot_table df) = sorted_unique (map user_id df).
Proof.
  unfold index, pivot_table. simpl. rewrite map_map. simpl. apply map_id.
Qed.

Lemma In_index_pivot_table (df : list FeedRow) (u : Z) :
  In u (index (pivot_table df)) <-> exists row, In row df /\ user_id row = u.
Proof.
  rewrite index_pivot_table, In_sorted_unique, in_map_iff. firstorder.
Qed.

Lemma In_columns_pivot_table (df : list FeedRow) (m : Z) :
  In m (columns (pivot_table df)) <-> exists row, In row df /\ movie_id row = m.
Proof.
  unfold pivot_table. simpl. rewrite In_sorted_unique, in_map_iff. firstorder.
Qed.

Lemma cell_Some (df : list FeedRow) (u m : Z) (r : Q) :
  cell df u m = Some r -> exists row, In row df /\ user_id row = u /\ movie_id row = m.
Proof.
  unfold cell.
  destruct (List.filter _ df) as [|row rs] eqn:Hf; [done|].
  intros _. exists row.
  assert (In row (List.filter
    (fun r => Z.eqb (user_id r) u && Z.eqb (movie_id r) m) df)) as Hin
    by (rewrite Hf; by left).
  apply filter_In in Hin as [Hin Hb].
  apply andb_prop in Hb as [H1 H2].
  apply Z.eqb_eq in H1, H2. done.
Qed.

Lemma find_fst_None {B} (u : Z) (l : list (Z * B)) :
  List.find (fun row => Z.eqb (fst row) u) l = None <-> ~ In u (map fst l).
Proof.
  induction l as [|[z b] l IH]; simpl; [tauto|].
  destruct (Z.eqb_spec z u); [subst; split; [done | tauto]|].
  rewrite IH. tauto.
Qed.

Lemma find_fst_Some {B} (u : Z) (l : list (Z * B)) (row : Z * B) :
  List.find (fun row => Z.eqb (fst row) u) l = Some row -> In row l /\ fst row = u.
Proof.
  intros H. apply find_some in H as [H1 H2]. apply Z.eqb_eq in H2. done.
Qed.

(** [user_id not in rating_matrix.index] *)
Lemma loc_None (rm : DataFrame) (u : Z) : loc rm u = None <-> ~ In u (index rm).
Proof.
  unfold loc, index. rewrite <- find_fst_None.
  destruct (List.find _ (rows rm)); split; congruence.
Qed.

Lemma loc_pivot_table (df : list FeedRow) (u : Z) (s : list (Z * option Q)) :
  loc (pivot_table df) u = Some s ->
  s = map (fun m => (m, cell df u m)) (columns (pivot_table df)).
Proof.
  unfold loc.
  destruct (List.find _ _) as [[u' cells]|] eqn:Hf; [|done].
  intros [= <-].
  apply find_fst_Some in Hf as [Hin Hu]. simpl in Hu. subst u'.
  unfold pivot_table in *. simpl in *.
  apply in_map_iff in Hin as [u' [[= -> <-] _]].
  generalize (sorted_unique (map movie_id df)) as cols.
  induction cols as [|c cols IH]; simpl; [done | by rewrite IH].
Qed.

Lemma In_isna_labels (s : list (Z * option Q)) (m : Z) :
  In m (isna_labels s) <-> In (m, None) s.
Proof.
  unfold isna_labels. rewrite in_flat_map. split.
  - intros [[m' [r|]] [Hin H]]; simpl in H; [done|].
    destruct H as [->|[]]. done.
  - intros H. exists (m, None). split; [done | by left].
Qed.

Lemma In_dropna (s : list (Z * option Q)) (m : Z) (r : Q) :
  In (m, r) (dropna s) <-> In (m, Some r) s.
Proof.
  unfold dropna. rewrite in_flat_map. split.
  - intros [[m' [r'|]] [Hin H]]; simpl in H; [|done].
    destruct H as [[= -> ->]|[]]. done.
  - intros H. exists (m, Some r). split; [done | by left].
Qed.

(** ** The genre cache *)

Lemma split_on_not_nil (sep : ascii) (s : string) : split_on sep s <> [].
Proof.
  destruct s as [|c s]; simpl; [done|].
  destruct (Ascii.eqb c sep); [done|].
  destruct (split_on sep s); done.
Qed.

Lemma genre_set_not_empty (s : string) : genre_set s <> ∅.
Proof.
  unfold genre_set. pose proof (split_on_not_nil "|" s) as Hne.
  destruct (split_on "|" s) as [|x l]; [done|].
  simpl. set_solver.
Qed.

Lemma fold_insert_lookup (l : list (Z * MovieInfo)) (c : gmap Z (gset string)) (m : Z) :
  NoDup l.*1 ->
  fold_left (fun c kv => <[fst kv := genre_set (mi_genres (snd kv))]> c) l c !! m
  = match (list_to_map l : gmap Z MovieInfo) !! m with
    | Some info => Some (genre_set (mi_genres info))
    | None => c !! m
    end.
Proof.
  revert c. induction l as [|[k v] l IH]; intros c Hnd; simpl.
  - by rewrite lookup_empty.
  - apply NoDup_cons in Hnd as [Hk Hnd].
    rewrite IH by done.
    destruct (decide (k = m)) as [->|Hne].
    + rewrite lookup_insert_eq.
      rewrite (not_elem_of_list_to_map_1 (M := gmap Z) l m Hk).
      by rewrite lookup_insert_eq.
    + rewrite (lookup_insert_ne (list_to_map l)) by done.
      destruct (list_to_map l !! m); [done|].
      by rewrite lookup_insert_ne.
Qed.

Lemma fill_cache_lookup (mi : gmap Z MovieInfo) (c : gmap Z (gset string)) (m : Z) :
  fill_cache mi c !! m
  = match mi !! m with
    | Some info => Some (genre_set (mi_genres info))
    | None => c !! m
    end.
Proof.
  unfold fill_cache. rewrite fold_insert_lookup by apply NoDup_fst_map_to_list.
  by rewrite list_to_map_to_list.
Qed.

Lemma fill_cache_covers (mi : gmap Z MovieInfo) (c : gmap Z (gset string)) :
  cache_covers mi (fill_cache mi c).
Proof.
  intros m info Hm. rewrite fill_cache_lookup, Hm.
  eexists. split; [done | apply genre_set_not_empty].
Qed.

Lemma fill_cache_empty (c : gmap Z (gset string)) : fill_cache ∅ c = c.
Proof. unfold fill_cache. by rewrite map_to_list_empty. Qed.

Lemma set_cache_id (g : Globals) : set_cache g (movie_genres_cache g) = g.
Proof. by destruct g. Qed.

Section ExplanationCache.
Context {py : SetOrder}.

Lemma genre_explanation_cache mi liked_movie_ids movie cache :
  cache_covers mi cache ->
  fst (genre_explanation mi liked_movie_ids movie cache) = cache.
Proof.
  intros Hcov. unfold genre_explanation.
  destruct (mi !! movie) as [info|] eqn:Hmi.
  - destruct (Hcov _ _ Hmi) as (gs & Hgs & Hne). rewrite Hgs. simpl.
    repeat case_decide; try done.
    destruct (List.filter _ _); done.
  - simpl. repeat case_decide; try done.
    destruct (List.filter _ _); done.
Qed.

Lemma try_explain_cache a mi rated liked_movie_ids movie cache best :
  cache_covers mi cache ->
  fst (fst (try_explain a mi rated liked_movie_ids movie cache best)) = cache.
Proof.
  intros Hcov. unfold try_explain.
  destruct (to_inner_iid a movie); [|done].
  destruct (similar_explanation _ _ _) as [expl|]; [|done].
  destruct (String.eqb expl ""); [|done].
  pose proof (genre_explanation_cache mi liked_movie_ids movie cache Hcov) as H.
  destruct (genre_explanation mi liked_movie_ids movie cache). simpl in *. done.
Qed.

Lemma build_recommendations_cache a mi rated liked_movie_ids top cache best :
  cache_covers mi cache ->
  fst (build_recommendations a mi rated liked_movie_ids top cache best) = cache.
Proof.
  intros Hcov. revert best.
  induction top as [|[movie est] top IH]; intros best; simpl; [done|].
  pose proof (try_explain_cache a mi rated liked_movie_ids movie cache best Hcov) as H.
  destruct (try_explain _ _ _ _ _ _ _) as [[cache1 best1] r]. simpl in H. subst cache1.
  specialize (IH best1).
  destruct (build_recommendations _ _ _ _ _ _ _) as [cache2 recs]. simpl in *. done.
Qed.

End ExplanationCache.

(** ** Reachable globals *)

Section Reachable.
Context {lib : Surprise} {py : SetOrder}.

Lemma recommend_with_globals a g w user top_n :
  (forall mi, movie_info g = Some mi -> cache_covers mi (movie_genres_cache g)) ->
  globals_after (recommend_with a g w user top_n) = g
  /\ world_after (recommend_with a g w user top_n) = w.
Proof.
  intros Hcov. unfold recommend_with.
  destruct (rating_matrix g) as [rm|]; [|done].
  destruct (loc rm user) as [s|]; [|done].
  destruct (nlargest _ _ _) as [|t top] eqn:Htop; [done|].
  destruct (movie_info g) as [mi|] eqn:Hmi; [|done].
  pose proof (build_recommendations_cache a mi (dropna s)
    (map fst (liked (dropna s))) (t :: top) (movie_genres_cache g) ∅ (Hcov _ eq_refl)) as H.
  destruct (build_recommendations _ _ _ _ _ _ _) as [cache recs].
  simpl in *. subst cache. by rewrite set_cache_id.
Qed.

Lemma load_data_ready_dataset w g d :
  returned (load_data w g) = Ok d ->
  exists df, d = (df, movie_info_of df, pivot_table df) /\
    fetch_data_from_db (store w) = Ok df /\
    globals_after (load_data w g)
    = set_cache g (fill_cache (movie_info_of df) (movie_genres_cache g)).
Proof.
  unfold load_data. destruct (fetch_data_from_db (store w)) as [df|e]; simpl; [|done].
  intros [= <-]. eauto.
Qed.

Lemma retrain_model_ready w g : ready g -> ready (globals_after (retrain_model w g)).
Proof.
  intros Hg. unfold retrain_model.
  destruct (returned (load_data w g)) as [d|e] eqn:Hld.
  - apply load_data_ready_dataset in Hld as (df & -> & _ & ->).
    assert (forall a', ready (set_algo (set_dataset
      (set_cache g (fill_cache (movie_info_of df) (movie_genres_cache g)))
      (df, movie_info_of df, pivot_table df)) (Some a'))) as Hready.
    { intros a'. split; [by eexists|].
      exists df. simpl. repeat split; try done. apply fill_cache_covers. }
    simpl. destruct (compute_similarities _); [destruct (disk w)|]; simpl; apply Hready.
  - simpl. unfold load_data in *.
    destruct (fetch_data_from_db (store w)); [done | exact Hg].
Qed.

Lemma retrain_model_algo w g a :
  returned (retrain_model w g) = Ok a -> algo (globals_after (retrain_model w g)) = Some a.
Proof.
  unfold retrain_model.
  destruct (returned (load_data w g)); [|done].
  destruct (compute_similarities _); [|done].
  destruct (disk w); simpl; congruence.
Qed.

Lemma retrain_model_Ok w g a :
  returned (retrain_model w g) = Ok a ->
  exists df, fetch_data_from_db (store w) = Ok df /\
    trainset a = Some (build_full_trainset df) /\
    globals_after (retrain_model w g)
    = set_algo (set_dataset
        (set_cache g (fill_cache (movie_info_of df) (movie_genres_cache g)))
        (df, movie_info_of df, pivot_table df)) (Some a).
Proof.
  unfold retrain_model.
  destruct (returned (load_data w g)) as [d|e] eqn:Hld; [|done].
  apply load_data_ready_dataset in Hld as (df & -> & Hfetch & ->). simpl.
  destruct (compute_similarities _) as [s|]; [|done].
  destruct (disk w); simpl; try done; intros [= <-]; exists df; done.
Qed.

Lemma retrain_and_assign_ready w g :
  returned (retrain_and_assign w g) = Ok tt ->
  ready (globals_after (retrain_and_assign w g)).
Proof.
  unfold retrain_and_assign.
  destruct (returned (retrain_model w g)) as [a|e] eqn:Hr; [|done].
  intros _. simpl.
  destruct (retrain_model_Ok w g a Hr) as (df & _ & _ & ->).
  split; [by eexists|]. exists df. simpl.
  repeat split; try done. apply fill_cache_covers.
Qed.

Lemma load_model_ready w g :
  (exists df, data g = Some df /\ movie_info g = Some (movie_info_of df) /\
     rating_matrix g = Some (pivot_table df) /\
     cache_covers (movie_info_of df) (movie_genres_cache g)) ->
  returned (load_model w g) = Ok tt ->
  ready (globals_after (load_model w g)).
Proof.
  intros Hg. unfold load_model.
  destruct (recommender_pkl w) as [| |a].
  - apply retrain_and_assign_ready.
  - apply retrain_and_assign_ready.
  - intros _. simpl. split; [by eexists | exact Hg].
Qed.

(** While the process serves requests, the globals are [ready]. *)
Lemma reachable_ready g : reachable g -> ready g.
Proof.
  induction 1 as [w Hok | w g Hr IH | w g user top_n Hr IH].
  - unfold module_init in *. cbv zeta in *.
    destruct (returned (load_data w initial_globals)) as [d|e] eqn:Hld; [|done].
    apply load_data_ready_dataset in Hld as (df & -> & _ & Hga).
    rewrite Hga in *.
    apply load_model_ready; [|done].
    exists df. simpl. repeat split; try done. apply fill_cache_covers.
  - by apply retrain_model_ready.
  - destruct IH as [[a Ha] Hd]. unfold get_recommendations. rewrite Ha.
    destruct Hd as (df & Hdata & Hmi & Hrm & Hcov).
    destruct (recommend_with_globals a g w user top_n) as [-> _].
    + intros mi. rewrite Hmi. by intros [= <-].
    + split; [by eexists | by exists df].
Qed.

End Reachable.

(** ** The shape of the recommendation list *)

Section RecommendShape.
Context {lib : Surprise} {py : SetOrder}.

Lemma build_recommendations_shape a mi rated liked_movie_ids top cache best :
  Forall2 (fun rec t => movieId rec = fst t /\ predicted_rating rec = round2 (snd t))
          (snd (build_recommendations a mi rated liked_movie_ids top cache best)) top.
Proof.
  revert cache best.
  induction top as [|[movie est] top IH]; intros cache best; simpl; [constructor|].
  destruct (try_explain _ _ _ _ _ _ _) as [[cache1 best1] r].
  specialize (IH cache1 best1).
  destruct (build_recommendations _ _ _ _ _ _ _) as [cache2 recs]. simpl in *.
  by constructor.
Qed.

Lemma Forall2_In_l {A B} (P : A -> B -> Prop) (l : list A) (k : list B) (x : A) :
  Forall2 P l k -> In x l -> exists y, In y k /\ P x y.
Proof.
  induction 1 as [|a b l k Hab _ IH]; simpl; [done|].
  intros [->|Hin]; [eauto|].
  destruct (IH Hin) as (y & Hy & HP). eauto.
Qed.


Lemma predictions_In a user cands movie est :
  In (movie, est) (predictions a user cands) ->
  In movie cands /\ predict a user movie = Ok est /\ (3 <= est)%Q.
Proof.
  unfold predictions. rewrite in_flat_map. intros [m [Hm H]].
  destruct (predict a user m) as [e|] eqn:Hp; [|done].
  destruct (Qle_bool 3 e) eqn:Hle; [|done].
  destruct H as [[= -> ->]|[]].
  apply Qle_bool_iff in Hle. done.
Qed.

(** With a model object in place, a call returns the list built from the
    selected predictions, or rejects the user. *)
Lemma recommend_with_returned a g w user top_n rm mi :
  rating_matrix g = Some rm -> movie_info g = Some mi ->
  returned (recommend_with a g w user top_n)
  = match loc rm user with
    | None => Raise UserNotFound
    | Some s =>
        Ok (snd (build_recommendations a mi (dropna s) (map fst (liked (dropna s)))
                   (nlargest top_n (predictions a user (isna_labels s)) snd)
                   (movie_genres_cache g) ∅))
    end.
Proof.
  intros Hrm Hmi. unfold recommend_with. rewrite Hrm, Hmi.
  destruct (loc rm user) as [s|]; [|done].
  destruct (nlargest _ _ _) as [|t top]; [done|].
  destruct (build_recommendations _ _ _ _ (t :: top) _ _). done.
Qed.

(** Every returned item is one of the selected predictions. *)
Lemma recommend_with_items a g w user top_n rm recs rec :
  rating_matrix g = Some rm ->
  returned (recommend_with a g w user top_n) = Ok recs ->
  In rec recs ->
  exists s est, loc rm user = Some s /\
    In (movieId rec, est) (nlargest top_n (predictions a user (isna_labels s)) snd) /\
    predicted_rating rec = round2 est.
Proof.
  intros Hrm. unfold recommend_with. rewrite Hrm.
  destruct (loc rm user) as [s|]; [|done].
  destruct (nlargest _ _ _) as [|t top] eqn:Htop; [by intros [= <-]|].
  destruct (movie_info g) as [mi|]; [|done].
  pose proof (build_recommendations_shape a mi (dropna s) (map fst (liked (dropna s)))
    (t :: top) (movie_genres_cache g) ∅) as Hshape.
  destruct (build_recommendations _ _ _ _ _ _ _) as [cache rs]. simpl in *.
  intros [= <-] Hin.
  destruct (Forall2_In_l _ _ _ _ Hshape Hin) as ([m est] & Hy & Hid & Hest).
  simpl in Hid, Hest. subst m. exists s, est. rewrite Htop. done.
Qed.

End RecommendShape.

(** ** The explanation by similar liked movies *)

Section SimilarExplanation.
Context {py : SetOrder}.

Lemma movie_sims_In a inner liked_movie_ids id s :
  In (id, s) (movie_sims a inner liked_movie_ids) <->
  In id liked_movie_ids /\
  exists j, to_inner_iid a id = Ok j /\ sim_at a inner j = Ok s /\ (1 # 10 < s)%Q.
Proof.
  unfold movie_sims. rewrite in_flat_map. split.
  - intros (liked_id & Hin & H).
    destruct (to_inner_iid a liked_id) as [j|] eqn:Hj; [|done].
    destruct (sim_at a inner j) as [x|] eqn:Hs; [|done].
    destruct (Qle_bool x (1 # 10)) eqn:Hle; [done|].
    destruct H as [[= -> ->]|[]].
    split; [done|]. exists j. repeat split; try done.
    apply Qnot_le_lt. intros H. apply Qle_bool_iff in H. congruence.
  - intros (Hin & j & Hj & Hs & Hlt). exists id. split; [done|].
    rewrite Hj, Hs.
    destruct (Qle_bool s (1 # 10)) eqn:Hle; [|by left].
    apply Qle_bool_iff in Hle. by apply Qlt_not_le in Hlt.
Qed.

Lemma In_liked_ids (rated : list (Z * Q)) (id : Z) :
  In id (map fst (liked rated)) <-> exists r, In (id, r) rated /\ (7 # 2 <= r)%Q.
Proof.
  unfold liked. rewrite in_map_iff. split.
  - intros ([id' r] & <- & Hin). apply filter_In in Hin as [Hin Hle].
    apply Qle_bool_iff in Hle. eauto.
  - intros (r & Hin & Hle). exists (id, r). split; [done|].
    apply filter_In. split; [done|]. by apply Qle_bool_iff.
Qed.

Lemma series_get_In (rated : list (Z * Q)) (id : Z) (r : Q) :
  List.NoDup (map fst rated) -> In (id, r) rated -> series_get rated id = Ok r.
Proof.
  unfold series_get.
  induction rated as [|[m x] rated IH]; simpl; [done|].
  intros Hnd Hin. apply List.NoDup_cons_iff in Hnd as [Hm Hnd].
  destruct (Z.eqb_spec m id) as [->|Hne].
  - destruct Hin as [[= ->]|Hin]; [done|].
    destruct Hm. apply in_map_iff. by exists (id, r).
  - destruct Hin as [[= -> _]|Hin]; [done|]. by apply IH.
Qed.

Lemma dropna_keys_NoDup (s : list (Z * option Q)) :
  List.NoDup (map fst s) -> List.NoDup (map fst (dropna s)).
Proof.
  induction s as [|[m [r|]] s IH]; simpl; intros Hnd; [done| |].
  - apply List.NoDup_cons_iff in Hnd as [Hm Hnd].
    constructor; [|by apply IH].
    intros Hin. apply Hm. apply in_map_iff in Hin as ([m' r'] & <- & Hin).
    apply In_dropna in Hin. apply in_map_iff. by eexists (_, _).
  - apply List.NoDup_cons_iff in Hnd as [_ Hnd]. by apply IH.
Qed.

Lemma loc_pivot_table_keys (df : list FeedRow) (u : Z) (s : list (Z * option Q)) :
  loc (pivot_table df) u = Some s -> List.NoDup (map fst (dropna s)).
Proof.
  intros Hloc. apply dropna_keys_NoDup.
  apply loc_pivot_table in Hloc. subst s.
  rewrite map_map. simpl. rewrite map_id.
  apply sorted_unique_NoDup.
Qed.

Lemma movie_info_of_Some (df : list FeedRow) (row : FeedRow) :
  In row df -> is_Some (movie_info_of df !! movie_id row).
Proof.
  intros Hin. unfold movie_info_of.
  destruct (list_to_map _ !! movie_id row) eqn:Hl; [by eexists|].
  apply not_elem_of_list_to_map_2 in Hl. destruct Hl.
  apply list_elem_of_In. rewrite <- list_fmap_compose.
  apply in_map_iff. by exists row.
Qed.

Lemma try_explain_best a mi rated liked_movie_ids movie cache best :
  best_similarities_ok a liked_movie_ids best ->
  best_similarities_ok a liked_movie_ids
    (snd (fst (try_explain a mi rated liked_movie_ids movie cache best))).
Proof.
  intros Hok. unfold try_explain.
  destruct (to_inner_iid a movie) as [inner|] eqn:Hinner; [|done].
  set (best' := match best !! movie with Some _ => best | None => _ end).
  assert (best_similarities_ok a liked_movie_ids best') as Hok'.
  { subst best'. destruct (best !! movie) eqn:Hb; [done|].
    intros m sel. destruct (decide (movie = m)) as [<-|Hne].
    - rewrite lookup_insert_eq. intros [= <-]. eauto.
    - rewrite lookup_insert_ne by done. apply Hok. }
  destruct (similar_explanation _ _ _) as [expl|]; [|done].
  destruct (String.eqb expl ""); [|done].
  destruct (genre_explanation _ _ _ _). done.
Qed.

Lemma try_explain_rule1 a mi rated liked_movie_ids movie cache best inner e :
  best_similarities_ok a liked_movie_ids best ->
  to_inner_iid a movie = Ok inner ->
  similar_explanation mi rated (nlargest 3 (movie_sims a inner liked_movie_ids) snd) = Ok e ->
  e <> "" ->
  snd (try_explain a mi rated liked_movie_ids movie cache best) = Ok e.
Proof.
  intros Hok Hinner He Hne. unfold try_explain. rewrite Hinner.
  set (best' := match best !! movie with Some _ => best | None => _ end).
  assert (default [] (best' !! movie)
          = nlargest 3 (movie_sims a inner liked_movie_ids) snd) as ->.
  { subst best'. destruct (best !! movie) as [sel|] eqn:Hb.
    - rewrite Hb. simpl. destruct (Hok _ _ Hb) as (inner' & Hi & ->). congruence.
    - by rewrite lookup_insert_eq. }
  rewrite He. apply String.eqb_neq in Hne. by rewrite Hne.
Qed.

Lemma build_recommendations_rule1 a mi rated liked_movie_ids top cache best rec inner e :
  best_similarities_ok a liked_movie_ids best ->
  In rec (snd (build_recommendations a mi rated liked_movie_ids top cache best)) ->
  to_inner_iid a (movieId rec) = Ok inner ->
  similar_explanation mi rated (nlargest 3 (movie_sims a inner liked_movie_ids) snd) = Ok e ->
  e <> "" ->
  explanation rec = e.
Proof.
  revert cache best.
  induction top as [|[movie est] top IH]; intros cache best Hok; simpl; [done|].
  pose proof (try_explain_best a mi rated liked_movie_ids movie cache best Hok) as Hok1.
  pose proof (try_explain_rule1 a mi rated liked_movie_ids movie cache best) as Hrule.
  destruct (try_explain _ _ _ _ _ _ _) as [[cache1 best1] r]. simpl in *.
  specialize (IH cache1 best1 Hok1).
  destruct (build_recommendations _ _ _ _ _ _ _) as [cache2 recs]. simpl in *.
  intros [<-|Hin] Hinner He Hne; simpl in *.
  - rewrite (Hrule inner e Hok Hinner He Hne).
    apply String.eqb_neq in Hne. by rewrite Hne.
  - by apply IH.
Qed.

Lemma sim_texts_Forall2 mi rated (sel : list (Z * Q)) :
  (forall x, In x sel -> exists r, series_get rated (fst x) = Ok r) ->
  exists texts, sim_texts mi rated sel = Ok texts /\
    Forall2 (fun t x => exists r, series_get rated (fst x) = Ok r /\
                                  t = sim_text (title_or_default mi (fst x)) r)
            texts sel.
Proof.
  induction sel as [|[id s] sel IH]; intros Hall; simpl.
  - exists []. split; [done | constructor].
  - destruct (Hall (id, s)) as [r Hr]; [by left|]. simpl in Hr. rewrite Hr.
    destruct IH as (texts & -> & HF); [intros x Hx; apply Hall; by right|].
    eexists. split; [done|]. constructor; [|done]. simpl. eauto.
Qed.

Lemma series_get_Ok (rated : list (Z * Q)) (id : Z) (r : Q) :
  series_get rated id = Ok r -> In (id, r) rated.
Proof.
  unfold series_get.
  destruct (List.find _ rated) as [[m x]|] eqn:Hf; [|done].
  intros [= <-]. apply find_fst_Some in Hf as [Hin Hm]. simpl in *. by subst.
Qed.

Lemma similar_explanation_single mi rated id sm r :
  series_get rated id = Ok r ->
  similar_explanation mi rated [(id, sm)]
  = Ok ("Te recomendamos esta película porque te gustó "
        +:+ sim_text (title_or_default mi id) r +:+ ".").
Proof. intros H. unfold similar_explanation. by rewrite H. Qed.

Lemma similar_explanation_several mi rated (sel : list (Z * Q)) texts :
  (2 <= length sel)%nat ->
  sim_texts mi rated sel = Ok texts ->
  similar_explanation mi rated sel
  = Ok ("Te recomendamos esta película porque te gustaron películas similares como "
        +:+ join ", " (removelast texts) +:+ " y " +:+ List.last texts "" +:+ ".").
Proof.
  destruct sel as [|[id s] [|y sel]]; simpl length; try lia.
  intros _ H. unfold similar_explanation. cbv beta iota. by rewrite H.
Qed.

End SimilarExplanation.

(** * The claims *)

(** ** Ratings of movies without genre links *)

(** C10: a rating whose movie has no row in Movie_Genre is dropped by the
    inner joins of the rating feed: no feed row mentions the movie, so the
    rating matrix has no column and no cell for it, the trainset has no
    rating of it, and no recommendation computed from that matrix names
    it, although the rating row is in the store. *)
Theorem genreless_movie_ratings_dropped {lib : Surprise} {py : SetOrder}
    (db : Database) (u m : Z) (v : Q) :
  In (u, m, v) (Rating db) ->
  (forall gid, ~ In (m, gid) (Movie_Genre db)) ->
  (forall row, In row (query db) -> movie_id row <> m) /\
  ~ In m (columns (pivot_table (query db))) /\
  (forall u', cell (query db) u' m = None) /\
  (forall t, In t (raw_ratings (build_full_trainset (query db))) -> snd (fst t) <> m) /\
  (forall w g a user top_n recs rec,
     algo g = Some a -> rating_matrix g = Some (pivot_table (query db)) ->
     returned (get_recommendations w g user top_n) = Ok recs ->
     In rec recs -> movieId rec <> m).
Proof.
  intros _ Hno.
  assert (forall row, In row (query db) -> movie_id row <> m) as Hfeed.
  { intros row Hrow Hm. apply query_row_origin in Hrow as [_ [gid Hg]].
    rewrite Hm in Hg. by eapply Hno. }
  assert (~ In m (columns (pivot_table (query db)))) as Hcol.
  { rewrite In_columns_pivot_table. intros (row & Hrow & Hm). by eapply Hfeed. }
  repeat split; try done.
  - intros u'. destruct (cell (query db) u' m) as [r|] eqn:Hc; [|done].
    apply cell_Some in Hc as (row & Hrow & _ & Hm). by destruct (Hfeed row Hrow).
  - intros [[u' m'] v']. simpl. intros Hin Hm'.
    apply in_map_iff in Hin as (row & [= _ Hm _] & Hrow).
    apply (Hfeed row Hrow). congruence.
  - intros w g a user top_n recs rec Ha Hrm Hret Hin Hm.
    unfold get_recommendations in Hret. rewrite Ha in Hret.
    destruct (recommend_with_items a g w user top_n _ recs rec Hrm Hret Hin)
      as (s & est & Hloc & Htop & _).
    apply nlargest_In, predictions_In in Htop as [Hcand _].
    apply In_isna_labels in Hcand.
    apply loc_pivot_table in Hloc. subst s.
    apply in_map_iff in Hcand as (c & [= Hc _] & Hcin). congruence.
Qed.

(** ** Unknown users *)

(** C4, as the code has it: while the process serves requests,
    [get_recommendations] raises the user-not-found error exactly when the
    user is absent from the index of the rating matrix and returns a list
    otherwise; the index of the matrix is the set of users with at least
    one row in the rating feed. *)
Theorem user_not_found_iff_absent_from_matrix {lib : Surprise} {py : SetOrder}
    (w : World) (g : Globals) (user top_n : Z) :
  reachable g ->
  exists df, data g = Some df /\ rating_matrix g = Some (pivot_table df) /\
    (returned (get_recommendations w g user top_n) = Raise UserNotFound
     <-> ~ In user (index (pivot_table df))) /\
    (In user (index (pivot_table df))
     -> is_ok (returned (get_recommendations w g user top_n)) = true) /\
    (In user (index (pivot_table df)) <-> exists row, In row df /\ user_id row = user).
Proof.
  intros Hr. apply reachable_ready in Hr as [[a Ha] (df & Hdata & Hmi & Hrm & _)].
  exists df. repeat split; try done.
  - unfold get_recommendations. rewrite Ha.
    rewrite (recommend_with_returned a g w user top_n _ _ Hrm Hmi).
    destruct (loc (pivot_table df) user) eqn:Hloc; [done|].
    intros _. by apply loc_None.
  - unfold get_recommendations. rewrite Ha.
    rewrite (recommend_with_returned a g w user top_n _ _ Hrm Hmi).
    intros Hn. apply loc_None in Hn. by rewrite Hn.
  - unfold get_recommendations. rewrite Ha.
    rewrite (recommend_with_returned a g w user top_n _ _ Hrm Hmi).
    intros Hin. destruct (loc (pivot_table df) user) eqn:Hloc; [done|].
    apply loc_None in Hloc. done.
  - by apply In_index_pivot_table.
  - by apply In_index_pivot_table.
Qed.

(** ** Top-n selection and the quality floor *)

(** C5: for a user of the rating matrix, [get_recommendations] returns a
    list; it is empty for [top_n = 0], has at most [top_n] items, and every
    item has a predicted rating of at least 3.0. *)
Theorem recommendations_at_most_n_above_floor {lib : Surprise} {py : SetOrder}
    (w : World) (g : Globals) (rm : DataFrame) (user top_n : Z) :
  reachable g ->
  rating_matrix g = Some rm ->
  In user (index rm) ->
  exists recs, returned (get_recommendations w g user top_n) = Ok recs /\
    (top_n = 0 -> recs = []) /\
    (0 <= top_n -> Z.of_nat (length recs) <= top_n) /\
    (forall rec, In rec recs -> (3 <= predicted_rating rec)%Q).
Proof.
  intros Hr Hrm Hin.
  apply reachable_ready in Hr as [[a Ha] (df & Hdata & Hmi & Hrm' & _)].
  unfold get_recommendations. rewrite Ha.
  rewrite (recommend_with_returned a g w user top_n _ _ Hrm Hmi).
  destruct (loc rm user) as [s|] eqn:Hloc; [|by apply loc_None in Hloc].
  eexists. split; [done|].
  pose proof (build_recommendations_shape a (movie_info_of df) (dropna s)
    (map fst (liked (dropna s)))
    (nlargest top_n (predictions a user (isna_labels s)) snd)
    (movie_genres_cache g) ∅) as Hshape.
  set (recs := snd (build_recommendations _ _ _ _ _ _ _)) in *.
  pose proof (List.Forall2_length Hshape) as Hlen.
  pose proof (nlargest_length snd top_n (predictions a user (isna_labels s))) as Hle.
  repeat split.
  - intros ->. rewrite nlargest_nonpos in Hlen by done.
    by destruct recs.
  - intros Hn. lia.
  - intros rec Hrec.
    destruct (Forall2_In_l _ _ _ _ Hshape Hrec) as ([m est] & Hy & _ & ->). simpl.
    apply nlargest_In, predictions_In in Hy as (_ & _ & Hest).
    by apply round2_floor_3.
Qed.

(** ** Recommendation is read-only *)

(** C8: while the process serves requests, a call of [get_recommendations]
    leaves the globals (the model object, the dataset, the rating matrix,
    the metadata index and the genre cache) and the world as they were. *)
Theorem get_recommendations_read_only {lib : Surprise} {py : SetOrder}
    (w : World) (g : Globals) (user top_n : Z) :
  reachable g ->
  globals_after (get_recommendations w g user top_n) = g /\
  world_after (get_recommendations w g user top_n) = w.
Proof.
  intros Hr. apply reachable_ready in Hr as [[a Ha] (df & _ & Hmi & _ & Hcov)].
  unfold get_recommendations. rewrite Ha.
  apply recommend_with_globals.
  intros mi. rewrite Hmi. by intros [= <-].
Qed.

(** ** The neighbour-similarity explanation *)

(** C7: for a recommended movie that the trainset knows, the explanation
    is built from [sel], the selection among the user's liked movies
    (own rating at least 3.5) whose similarity to the candidate is strictly
    above 0.1: [sel] has at most three entries (all qualifying ones when
    there are fewer), each is such a liked movie, and no qualifying movie
    left out is more similar than a selected one.  When [sel] has exactly
    one entry the explanation names its title and the user's rating; when
    it has several, the explanation enumerates the title and rating of
    each, all but the last joined by commas and the last by "y".  The
    rating is shown with one decimal. *)
Theorem neighbor_similarity_explanation {lib : Surprise} {py : SetOrder}
    (w : World) (g : Globals) (a : KNNBasic) (user top_n : Z)
    (recs : list Recommendation) (rec : Recommendation) (inner : nat) :
  reachable g ->
  algo g = Some a ->
  returned (get_recommendations w g user top_n) = Ok recs ->
  In rec recs ->
  to_inner_iid a (movieId rec) = Ok inner ->
  exists df mi s,
    rating_matrix g = Some (pivot_table df) /\ movie_info g = Some mi /\
    loc (pivot_table df) user = Some s /\
    let qualifying := movie_sims a inner (map fst (liked (dropna s))) in
    let sel := nlargest 3 qualifying snd in
    length sel = Nat.min 3 (length qualifying) /\
    (forall id sm, In (id, sm) qualifying <->
       exists r j, In (id, Some r) s /\ (7 # 2 <= r)%Q /\
         to_inner_iid a id = Ok j /\ sim_at a inner j = Ok sm /\ (1 # 10 < sm)%Q) /\
    (forall x, In x sel -> In x qualifying) /\
    (forall x y, In x sel -> In y qualifying -> In y sel \/ (snd y <= snd x)%Q) /\
    (forall id sm, sel = [(id, sm)] ->
       exists r info shown,
         In (id, Some r) s /\ mi !! id = Some info /\ shows_rating shown r /\
         explanation rec
         = "Te recomendamos esta película porque te gustó "
           +:+ (mi_title info +:+ " (valoración: " +:+ shown +:+ ")") +:+ ".") /\
    ((2 <= length sel)%nat ->
       exists texts,
         Forall2 (fun t x => exists r info shown,
                    In (fst x, Some r) s /\ mi !! fst x = Some info /\
                    shows_rating shown r /\
                    t = mi_title info +:+ " (valoración: " +:+ shown +:+ ")")
                 texts sel /\
         explanation rec
         = "Te recomendamos esta película porque te gustaron películas similares como "
           +:+ String.concat ", " (removelast texts) +:+ " y "
           +:+ List.last texts "" +:+ ".").
Proof.
  intros Hr Ha Hret Hrec Hinner.
  apply reachable_ready in Hr as [_ (df & _ & Hmi & Hrm & _)].
  unfold get_recommendations in Hret. rewrite Ha in Hret.
  rewrite (recommend_with_returned a g w user top_n _ _ Hrm Hmi) in Hret.
  destruct (loc (pivot_table df) user) as [s|] eqn:Hloc; [|done].
  injection Hret as <-.
  exists df, (movie_info_of df), s. repeat (split; [done|]).
  pose proof (loc_pivot_table_keys df user s Hloc) as Hnd.
  set (rated := dropna s) in *.
  set (qualifying := movie_sims a inner (map fst (liked rated))).
  set (sel := nlargest 3 qualifying snd).
  assert (forall id sm, In (id, sm) qualifying <->
     exists r j, In (id, Some r) s /\ (7 # 2 <= r)%Q /\
       to_inner_iid a id = Ok j /\ sim_at a inner j = Ok sm /\ (1 # 10 < sm)%Q) as Hq.
  { intros id sm. unfold qualifying. rewrite movie_sims_In, In_liked_ids. split.
    - intros [(r & Hin & Hle) (j & Hj & Hs & Hlt)].
      apply In_dropna in Hin. eauto 10.
    - intros (r & j & Hin & Hle & Hj & Hs & Hlt).
      apply In_dropna in Hin. eauto 10. }
  assert (forall id r, In (id, Some r) s ->
     series_get rated id = Ok r /\ exists info, movie_info_of df !! id = Some info) as Hcell.
  { intros id r Hin. split.
    - apply series_get_In; [done|]. by apply In_dropna.
    - apply loc_pivot_table in Hloc. rewrite Hloc in Hin.
      apply in_map_iff in Hin as (m & [= -> Hc] & _).
      apply cell_Some in Hc as (row & Hrow & _ & <-).
      by apply movie_info_of_Some. }
  assert (forall x, In x sel ->
     exists r info, In (fst x, Some r) s /\ series_get rated (fst x) = Ok r /\
       movie_info_of df !! fst x = Some info) as Hsel.
  { intros [id sm] Hx. apply nlargest_In, Hq in Hx as (r & j & Hin & _).
    destruct (Hcell _ _ Hin) as [Hget [info Hinfo]]. simpl. eauto 10. }
  assert (best_similarities_ok a (map fst (liked rated)) ∅) as Hempty.
  { intros m l. by rewrite lookup_empty. }
  repeat split.
  - apply nlargest_length_min.
  - apply Hq.
  - apply Hq.
  - intros x. apply nlargest_In.
  - intros x y. apply nlargest_highest.
  - intros id sm Hone. change (sel = [(id, sm)]) in Hone.
    destruct (Hsel (id, sm)) as (r & info & Hin & Hget & Hinfo);
      [rewrite Hone; by left|].
    simpl in Hin, Hget, Hinfo.
    exists r, info, (format_1f r).
    split; [done|]. split; [done|]. split; [apply format_1f_shows|].
    pose proof (similar_explanation_single (movie_info_of df) rated id sm r Hget) as He.
    rewrite <- Hone in He. unfold title_or_default in He. rewrite Hinfo in He.
    exact (build_recommendations_rule1 _ _ _ _ _ _ _ _ _ _ Hempty Hrec Hinner He
             ltac:(done)).
  - intros Hlen. change (2 <= length sel)%nat in Hlen.
    destruct (sim_texts_Forall2 (movie_info_of df) rated sel) as (texts & Htexts & HF).
    { intros x Hx. destruct (Hsel x Hx) as (r & _ & _ & Hget & _). eauto. }
    exists texts. split.
    + eapply Forall2_impl; [exact HF|]. simpl.
      intros t x (r & Hget & ->).
      apply series_get_Ok, In_dropna in Hget.
      destruct (Hcell _ _ Hget) as [_ [info Hinfo]].
      exists r, info, (format_1f r).
      split; [done|]. split; [done|]. split; [apply format_1f_shows|].
      unfold title_or_default. by rewrite Hinfo.
    + pose proof (similar_explanation_several (movie_info_of df) rated sel texts
                    Hlen Htexts) as He.
      exact (build_recommendations_rule1 _ _ _ _ _ _ _ _ _ _ Hempty Hrec Hinner He
               ltac:(done)).
Qed.

(** ** Model and matrix versions *)

(** C1, as the code has it: a retrain that succeeds leaves a rating matrix
    and a model built from the one feed it fetched: the trainset of the
    model is that feed and its similarity matrix is the one computed from
    that trainset.  Restoring a persisted model replaces the model object
    only, so after an initialisation that restores, the rating matrix is
    the one built from the current feed and the model is the persisted
    one, whatever feed it was trained on. *)
Theorem retrain_same_snapshot_restore_keeps_matrix {lib : Surprise}
    (w : World) (g : Globals) :
  (forall a, returned (retrain_model w g) = Ok a ->
     exists df s, fetch_data_from_db (store w) = Ok df /\
       rating_matrix (globals_after (retrain_model w g)) = Some (pivot_table df) /\
       algo (globals_after (retrain_model w g)) = Some a /\
       trainset a = Some (build_full_trainset df) /\
       compute_similarities (build_full_trainset df) = Ok s /\
       sim a = Some s) /\
  (forall a, recommender_pkl w = Pickled a ->
     returned (load_model w g) = Ok tt /\
     globals_after (load_model w g) = set_algo g (Some a)) /\
  (forall a db, recommender_pkl w = Pickled a -> store w = Some db ->
     returned (module_init w) = Ok tt /\
     algo (globals_after (module_init w)) = Some a /\
     rating_matrix (globals_after (module_init w)) = Some (pivot_table (query db))).
Proof.
  split; [|split].
  - intros a. unfold retrain_model, load_data.
    destruct (fetch_data_from_db (store w)) as [df|e] eqn:Hfetch; [|done]. simpl.
    destruct (compute_similarities (build_full_trainset df)) as [s|e] eqn:Hsim; [|done].
    destruct (disk w); simpl; try done.
    intros [= <-]. exists df, s. done.
  - intros a Hpkl. unfold load_model. by rewrite Hpkl.
  - intros a db Hpkl Hstore.
    unfold module_init, load_data, load_model. rewrite Hstore, Hpkl. done.
Qed.

(** ** Failure of a retrain *)

(** C2, as the code has it: a retrain that raises left the globals and the
    world untouched when the feed could not be fetched; when a later step
    (fit or persistence) raised, the dataset, the metadata index, the
    rating matrix and the genre cache are already those of the new feed
    and [algo] is the newly constructed model object. *)
Theorem failed_retrain_effects {lib : Surprise} (w : World) (g : Globals) (e : exn) :
  returned (retrain_model w g) = Raise e ->
  (store w = None /\ globals_after (retrain_model w g) = g /\
   world_after (retrain_model w g) = w)
  \/
  (exists db a',
     store w = Some db /\
     data (globals_after (retrain_model w g)) = Some (query db) /\
     movie_info (globals_after (retrain_model w g)) = Some (movie_info_of (query db)) /\
     rating_matrix (globals_after (retrain_model w g)) = Some (pivot_table (query db)) /\
     movie_genres_cache (globals_after (retrain_model w g))
       = fill_cache (movie_info_of (query db)) (movie_genres_cache g) /\
     algo (globals_after (retrain_model w g)) = Some a' /\
     trainset a' = Some (build_full_trainset (query db))).
Proof.
  unfold retrain_model, load_data.
  destruct (store w) as [db|] eqn:Hstore; simpl.
  - intros Hraise. right. exists db.
    destruct (compute_similarities _) as [s|]; [destruct (disk w)|];
      simpl in *; try done; eexists; repeat split; done.
  - intros _. by left.
Qed.

(** ** Empty and unreachable feeds *)

(** C9, as the code has it: [load_data] raises (the database error) when
    the feed cannot be fetched; an empty feed does not raise, it yields an
    empty dataset, metadata index and rating matrix and leaves the cache as
    it was; retraining on an empty feed raises only if the library's fit or
    the persistence does; and on an empty rating matrix
    [get_recommendations] rejects every user with the user-not-found error
    and changes nothing. *)
Theorem load_data_unreachable_or_empty {lib : Surprise} {py : SetOrder}
    (w : World) (g : Globals) :
  (store w = None ->
     returned (load_data w g) = Raise DatabaseError /\ globals_after (load_data w g) = g) /\
  (forall db, store w = Some db -> query db = [] ->
     returned (load_data w g) = Ok ([], ∅, empty_frame) /\
     globals_after (load_data w g) = g) /\
  (forall db s, store w = Some db -> query db = [] -> disk w = Writable ->
     compute_similarities (build_full_trainset []) = Ok s ->
     is_ok (returned (retrain_model w g)) = true /\
     rating_matrix (globals_after (retrain_model w g)) = Some empty_frame) /\
  (forall a user top_n, algo g = Some a -> rating_matrix g = Some empty_frame ->
     returned (get_recommendations w g user top_n) = Raise UserNotFound /\
     globals_after (get_recommendations w g user top_n) = g).
Proof.
  split; [|split; [|split]].
  - intros Hstore. unfold load_data. by rewrite Hstore.
  - intros db Hstore Hempty. unfold load_data. rewrite Hstore. simpl.
    rewrite Hempty. change (movie_info_of []) with (∅ : gmap Z MovieInfo).
    by rewrite fill_cache_empty, set_cache_id.
  - intros db s Hstore Hempty Hdisk Hfit.
    unfold retrain_model, load_data. rewrite Hstore. simpl. rewrite Hempty. simpl.
    rewrite Hfit, Hdisk. done.
  - intros a user top_n Ha Hrm.
    unfold get_recommendations, recommend_with. rewrite Ha, Hrm. done.
Qed.

(** ** The Predictor *)

Lemma clamp_range (q : Q) : (1 # 2 <= Predictor.clamp q <= 5)%Q.
Proof.
  unfold Predictor.clamp.
  destruct (Qle_bool q (1 # 2)) eqn:Hlo; [split; discriminate|].
  destruct (Qle_bool 5 q) eqn:Hhi; [split; discriminate|].
  split; apply Qlt_le_weak, Qnot_le_lt; intros H; apply Qle_bool_iff in H; congruence.
Qed.

Lemma clamp_in_range (q : Q) : (1 # 2 <= q <= 5)%Q -> (Predictor.clamp q == q)%Q.
Proof.
  intros [Hlo Hhi]. unfold Predictor.clamp.
  destruct (Qle_bool q (1 # 2)) eqn:H1.
  { apply Qle_bool_iff in H1. by apply Qle_antisym. }
  destruct (Qle_bool 5 q) eqn:H2; [|reflexivity].
  apply Qle_bool_iff in H2. by apply Qle_antisym.
Qed.

(** C3: for a user of the model and a movie with fewer than [min_k]
    qualifying neighbours, or with a zero total similarity weight,
    [predict] returns the fallback estimate, the (clamped) global mean,
    and does not raise; the clamp leaves a global mean of the rating range
    as it is. *)
Theorem predict_fallback_on_shortfall (c : Predictor.Config)
    (m : Predictor.TrainedModel) (user movie : Z) (row : gmap Z Q) :
  Predictor.matrix m !! user = Some row ->
  (length (Predictor.qualifying c m row movie) < Predictor.cfg_min_k c)%nat
  \/ (Predictor.total_weight (Predictor.qualifying c m row movie) == 0)%Q ->
  Predictor.predict c m user movie = Ok (Predictor.clamp (Predictor.global_mean m)) /\
  ((1 # 2 <= Predictor.global_mean m <= 5)%Q ->
   (Predictor.clamp (Predictor.global_mean m) == Predictor.global_mean m)%Q).
Proof.
  intros Hrow Hshort. split; [|apply clamp_in_range].
  unfold Predictor.predict. rewrite Hrow.
  assert (Predictor.shortfall c (Predictor.qualifying c m row movie) = true) as ->; [|done].
  unfold Predictor.shortfall. apply orb_true_iff.
  destruct Hshort as [Hlen|Hzero].
  - left. by apply Nat.ltb_lt.
  - right. by apply Qeq_bool_iff.
Qed.

(** C6: whenever [predict] returns an estimate, the estimate lies in
    [0.5, 5.0]. *)
Theorem predict_within_rating_range (c : Predictor.Config)
    (m : Predictor.TrainedModel) (user movie : Z) (est : Q) :
  Predictor.predict c m user movie = Ok est -> (1 # 2 <= est <= 5)%Q.
Proof.
  unfold Predictor.predict.
  destruct (Predictor.matrix m !! user) as [row|]; [|done].
  destruct (Predictor.shortfall _ _); intros [= <-]; apply clamp_range.
Qed.

(** * Further properties of the code *)

(** ** The rating feed: completeness and one row per rating *)

Lemma same_group_spec (a b : Z * Z * Q * string) :
  same_group a b = true <->
  fst (fst (fst a)) = fst (fst (fst b)) /\ snd (fst (fst a)) = snd (fst (fst b)) /\
  (snd (fst a) == snd (fst b))%Q /\ snd a = snd b.
Proof.
  destruct a as [[[u1 m1] v1] t1], b as [[[u2 m2] v2] t2]. simpl.
  rewrite !andb_true_iff, !Z.eqb_eq, Qeq_bool_iff, String.eqb_eq. tauto.
Qed.

Lemma same_group_refl (a : Z * Z * Q * string) : same_group a a = true.
Proof. apply same_group_spec. repeat split; reflexivity. Qed.

Lemma same_group_sym (a b : Z * Z * Q * string) :
  same_group a b = true -> same_group b a = true.
Proof.
  rewrite !same_group_spec. intros (H1 & H2 & H3 & H4).
  repeat split; by symmetry.
Qed.

Lemma same_group_trans (a b c : Z * Z * Q * string) :
  same_group a b = true -> same_group b c = true -> same_group a c = true.
Proof.
  rewrite !same_group_spec. intros (H1 & H2 & H3 & H4) (H5 & H6 & H7 & H8).
  split; [congruence|]. split; [congruence|]. split; [|congruence].
  by rewrite H3.
Qed.

Lemma In_joined (db : Database) (u m : Z) (v : Q) (t g : string) (gid : Z) :
  In (u, m, v) (Rating db) -> In (m, t) (Movie db) ->
  In (m, gid) (Movie_Genre db) -> In (gid, g) (Genre db) ->
  In (u, m, v, t, g) (joined db).
Proof.
  intros Hr Hm Hmg Hg. unfold joined.
  apply in_flat_map. exists (u, m, v). split; [done|].
  apply in_flat_map. exists (m, t). split; [done|]. simpl. rewrite Z.eqb_refl.
  apply in_flat_map. exists (m, gid). split; [done|]. simpl. rewrite Z.eqb_refl.
  apply in_flat_map. exists (gid, g). split; [done|]. simpl. rewrite Z.eqb_refl.
  by left.
Qed.

Lemma add_to_group_keeps key g groups k agg :
  In (k, agg) groups -> exists agg', In (k, agg') (add_to_group key g groups).
Proof.
  induction groups as [|[k' a'] rest IH]; simpl; [done|].
  intros [[= -> ->]|Hin].
  - destruct (same_group k key); eexists; by left.
  - destruct (same_group k' key).
    + eexists. right. exact Hin.
    + destruct (IH Hin) as [agg' H]. eexists. right. exact H.
Qed.

Lemma add_to_group_has key g groups :
  exists k agg, In (k, agg) (add_to_group key g groups) /\ same_group k key = true.
Proof.
  induction groups as [|[k' a'] rest IH]; simpl.
  - exists key, g. split; [by left | apply same_group_refl].
  - destruct (same_group k' key) eqn:Hs.
    + exists k', (a' +:+ "|" +:+ g). split; [by left | done].
    + destruct IH as (k & agg & Hin & Hk). exists k, agg. split; [by right | done].
Qed.

Lemma fold_groups_keeps rows acc k agg :
  In (k, agg) acc ->
  exists agg',
    In (k, agg')
       (fold_left (fun groups row => add_to_group (fst row) (snd row) groups) rows acc).
Proof.
  revert acc agg. induction rows as [|[k' g'] rows IH]; simpl; intros acc agg Hin.
  - eauto.
  - destruct (add_to_group_keeps k' g' acc k agg Hin) as [agg' H]. by eapply IH.
Qed.

Lemma fold_groups_has rows acc key g :
  In (key, g) rows ->
  exists k agg,
    In (k, agg)
       (fold_left (fun groups row => add_to_group (fst row) (snd row) groups) rows acc)
    /\ same_group k key = true.
Proof.
  revert acc. induction rows as [|[k' g'] rows IH]; simpl; intros acc Hin; [done|].
  destruct Hin as [[= -> ->]|Hin]; [|by apply IH].
  destruct (add_to_group_has key g acc) as (k & agg & H & Hk).
  destruct (fold_groups_keeps rows _ k agg H) as [agg' H'].
  exists k, agg'. done.
Qed.

Lemma query_has_rating (db : Database) (u m gid : Z) (v : Q) (t g : string) :
  In (u, m, v) (Rating db) -> In (m, t) (Movie db) ->
  In (m, gid) (Movie_Genre db) -> In (gid, g) (Genre db) ->
  exists row, In row (query db) /\ user_id row = u /\ movie_id row = m /\
              (rating row == v)%Q /\ title row = t.
Proof.
  intros Hr Hm Hmg Hg.
  pose proof (In_joined db u m v t g gid Hr Hm Hmg Hg) as Hj.
  destruct (fold_groups_has (joined db) [] (u, m, v, t) g Hj) as (k & agg & Hin & Hk).
  apply same_group_spec in Hk as (H1 & H2 & H3 & H4).
  destruct k as [[[u' m'] v'] t']. simpl in *. subst.
  exists (to_feed_row (u, m, v', t, agg)). split; [|done].
  unfold query, group_by. apply in_map_iff. by eexists.
Qed.

(** X1: a rating whose movie is in the Movie table and has a link to an
    existing genre reaches the feed, with its user, movie, value and
    title. *)
Theorem rating_with_genre_in_feed (db : Database) (u m gid : Z) (v : Q) (t g : string) :
  In (u, m, v) (Rating db) -> In (m, t) (Movie db) ->
  In (m, gid) (Movie_Genre db) -> In (gid, g) (Genre db) ->
  exists row, In row (query db) /\ user_id row = u /\ movie_id row = m /\
              (rating row == v)%Q /\ title row = t.
Proof. apply query_has_rating. Qed.

Lemma add_to_group_distinct key g groups :
  StronglySorted distinct_groups groups ->
  StronglySorted distinct_groups (add_to_group key g groups).
Proof.
  induction 1 as [|[k a] rest Hs IH Hall]; simpl.
  - repeat constructor.
  - destruct (same_group k key) eqn:Hk.
    + constructor; [done|]. exact Hall.
    + constructor; [done|].
      apply List.Forall_forall. intros [k' a'] Hin.
      apply add_to_group_key in Hin as [->|[a0 Hin]]; [exact Hk|].
      rewrite List.Forall_forall in Hall. exact (Hall _ Hin).
Qed.

Lemma group_by_distinct rows : StronglySorted distinct_groups (group_by rows).
Proof.
  unfold group_by.
  assert (forall acc, StronglySorted distinct_groups acc ->
    StronglySorted distinct_groups
      (fold_left (fun groups row => add_to_group (fst row) (snd row) groups) rows acc))
    as H.
  { induction rows as [|row rows IH]; simpl; intros acc Hacc; [done|].
    by apply IH, add_to_group_distinct. }
  apply H. constructor.
Qed.

Lemma group_key_origin (db : Database) k agg :
  In (k, agg) (group_by (joined db)) ->
  In (fst k) (Rating db) /\ In (snd (fst (fst k)), snd k) (Movie db).
Proof.
  intros H. apply fold_groups_key in H as [[agg0 []]|[g H]].
  destruct k as [[[u m] v] t].
  apply joined_In in H as (Hr & Hm & _). done.
Qed.

Lemma query_keys_NoDup (db : Database) :
  unique_ratings db -> unique_movies db ->
  List.NoDup (map feed_key (query db)).
Proof.
  intros Hur Hum. unfold query. rewrite map_map.
  pose proof (group_by_distinct (joined db)) as Hd.
  assert (forall x, In x (group_by (joined db)) ->
    In (fst (fst x)) (Rating db) /\ In (snd (fst (fst (fst x))), snd (fst x)) (Movie db))
    as Horigin.
  { intros [k agg]. apply group_key_origin. }
  induction Hd as [|x rest Hs IH Hall]; simpl; [constructor|].
  constructor.
  - intros Hin. apply in_map_iff in Hin as (y & Hkey & Hy).
    rewrite List.Forall_forall in Hall. specialize (Hall y Hy).
    unfold distinct_groups in Hall.
    destruct (Horigin x (or_introl eq_refl)) as [Hrx Hmx].
    destruct (Horigin y (or_intror Hy)) as [Hry Hmy].
    destruct x as [[[[ux mx] vx] tx] ax], y as [[[[uy my] vy] ty] ay].
    cbn [fst snd feed_key to_feed_row user_id movie_id] in *.
    injection Hkey as -> ->.
    rewrite (Hur _ _ _ _ Hrx Hry), (Hum _ _ _ Hmx Hmy) in Hall.
    by rewrite same_group_refl in Hall.
  - apply IH. intros y Hy. apply Horigin. by right.
Qed.

(** X2: when the Rating table holds one value per (user, movie) and the
    Movie table one title per id, the feed has one row per (user, movie),
    however many genres the movie has. *)
Theorem feed_one_row_per_rating (db : Database) :
  unique_ratings db -> unique_movies db ->
  List.NoDup (map feed_key (query db)).
Proof. apply query_keys_NoDup. Qed.

Lemma filter_unique_key {A} (f : A -> Z * Z) (l : list A) (x : A) :
  List.NoDup (map f l) -> In x l ->
  List.filter (fun y => Z.eqb (fst (f y)) (fst (f x)) && Z.eqb (snd (f y)) (snd (f x))) l
  = [x].
Proof.
  induction l as [|a l IH]; simpl; [done|].
  intros Hnd Hin. apply List.NoDup_cons_iff in Hnd as [Ha Hnd].
  assert (forall y, In y l -> f y = f x ->
    List.filter (fun y => Z.eqb (fst (f y)) (fst (f x)) && Z.eqb (snd (f y)) (snd (f x))) l
    <> []) as Hne.
  { intros y Hy Hf Hnil.
    assert (In y (List.filter
      (fun y => Z.eqb (fst (f y)) (fst (f x)) && Z.eqb (snd (f y)) (snd (f x))) l)) as H.
    { apply filter_In. split; [done|]. rewrite Hf, !Z.eqb_refl. done. }
    by rewrite Hnil in H. }
  destruct Hin as [->|Hin].
  - rewrite !Z.eqb_refl. simpl. f_equal.
    destruct (List.filter _ l) as [|y ys] eqn:Hf; [done|].
    assert (In y (List.filter
      (fun y => Z.eqb (fst (f y)) (fst (f x)) && Z.eqb (snd (f y)) (snd (f x))) l)) as H
      by (rewrite Hf; by left).
    apply filter_In in H as [Hy Hb]. apply andb_prop in Hb as [H1 H2].
    apply Z.eqb_eq in H1, H2. destruct Ha.
    apply in_map_iff. exists y. split; [|done].
    destruct (f y), (f x). simpl in *. congruence.
  - destruct (Z.eqb (fst (f a)) (fst (f x)) && Z.eqb (snd (f a)) (snd (f x))) eqn:Hb.
    + apply andb_prop in Hb as [H1 H2]. apply Z.eqb_eq in H1, H2. destruct Ha.
      apply in_map_iff. exists x. split; [|done].
      destruct (f a), (f x). simpl in *. congruence.
    + by apply IH.
Qed.

Lemma mean_singleton (x : Q) : (mean [x] == x)%Q.
Proof. unfold mean. simpl. field. Qed.

(** X3: under the same uniqueness, the cell of the rating matrix for a
    rating that reaches the feed holds the stored value (the mean that
    the pivot takes is over that one row). *)
Theorem matrix_cell_is_stored_rating (db : Database)
    (u m gid : Z) (v : Q) (t g : string) :
  unique_ratings db -> unique_movies db ->
  In (u, m, v) (Rating db) -> In (m, t) (Movie db) ->
  In (m, gid) (Movie_Genre db) -> In (gid, g) (Genre db) ->
  exists r, cell (query db) u m = Some r /\ (r == v)%Q.
Proof.
  intros Hur Hum Hr Hm Hmg Hg.
  destruct (query_has_rating db u m gid v t g Hr Hm Hmg Hg)
    as (row & Hrow & <- & <- & Hv & _).
  pose proof (filter_unique_key feed_key (query db) row
                (query_keys_NoDup db Hur Hum) Hrow) as Hf.
  unfold cell. simpl in Hf. rewrite Hf.
  eexists. split; [done|]. simpl. by rewrite mean_singleton.
Qed.

(** ** The genre string of the feed and the genre cache *)

Lemma split_on_no_bar (s : string) : no_bar s -> split_on "|" s = [s].
Proof.
  unfold no_bar. induction s as [|c s IH]; simpl; [done|].
  intros Hn. destruct (Ascii.eqb_spec c "|") as [->|Hc]; [destruct Hn; by left|].
  rewrite IH; [done|]. intros H. apply Hn. by right.
Qed.

Lemma split_on_append (a g : string) :
  no_bar g -> split_on "|" (a +:+ "|" +:+ g) = split_on "|" a ++ [g].
Proof.
  intros Hg. induction a as [|c a IH]; simpl.
  - by rewrite split_on_no_bar.
  - simpl in IH. rewrite IH.
    destruct (Ascii.eqb c "|"); [done|].
    pose proof (split_on_not_nil "|" a) as Hne.
    destruct (split_on "|" a); done.
Qed.

Lemma names_of_snoc key rows k g :
  names_of key (rows ++ [(k, g)])
  = names_of key rows ++ (if same_group key k then [g] else []).
Proof.
  unfold names_of. rewrite List.filter_app, map_app. simpl.
  destruct (same_group key k); done.
Qed.

Lemma filter_none {A} (f : A -> bool) (l : list A) :
  (forall x, In x l -> f x = false) -> List.filter f l = [].
Proof.
  induction l as [|a l IH]; simpl; intros H; [done|].
  rewrite (H a) by (by left). apply IH. intros x Hx. apply H. by right.
Qed.

Lemma add_to_group_cases key g acc k agg :
  StronglySorted distinct_groups acc ->
  In (k, agg) (add_to_group key g acc) ->
  (In (k, agg) acc /\ same_group k key = false)
  \/ (exists agg0, In (k, agg0) acc /\ same_group k key = true /\
                   agg = agg0 +:+ "|" +:+ g)
  \/ (k = key /\ agg = g /\ forall x, In x acc -> same_group (fst x) key = false).
Proof.
  induction 1 as [|[k0 a0] rest Hs IH Hall]; simpl.
  - intros [[= <- <-]|[]]. right. right. done.
  - destruct (same_group k0 key) eqn:Hk0.
    + intros [[= <- <-]|Hin].
      * right. left. exists a0. split; [by left | done].
      * left. split; [by right|].
        rewrite List.Forall_forall in Hall. specialize (Hall _ Hin).
        unfold distinct_groups in Hall. simpl in Hall.
        destruct (same_group k key) eqn:Hk; [|done].
        rewrite (same_group_trans k0 key k Hk0 (same_group_sym _ _ Hk)) in Hall. done.
    + intros [[= <- <-]|Hin].
      * left. split; [by left | done].
      * destruct (IH Hin) as [[H1 H2]|[(agg0 & H1 & H2 & H3)|(H1 & H2 & H3)]].
        -- left. split; [by right | done].
        -- right. left. exists agg0. split; [by right | done].
        -- right. right. repeat split; try done.
           intros x [<-|Hx]; [done | by apply H3].
Qed.

(** What the GROUP BY loop keeps true of the groups built from the joined
    rows read so far. *)
Lemma fold_groups_names rows acc done_rows :
  Forall (fun row => no_bar (snd row)) rows ->
  StronglySorted distinct_groups acc ->
  (forall k agg, In (k, agg) acc -> split_on "|" agg = names_of k done_rows) ->
  (forall k g, In (k, g) done_rows ->
     exists k' agg, In (k', agg) acc /\ same_group k' k = true) ->
  forall k agg,
    In (k, agg)
       (fold_left (fun groups row => add_to_group (fst row) (snd row) groups) rows acc) ->
    split_on "|" agg = names_of k (done_rows ++ rows).
Proof.
  revert acc done_rows.
  induction rows as [|[key g] rows IH]; simpl; intros acc done_rows Hbar Hd Hnames Hcov k agg Hin.
  - rewrite app_nil_r. by apply Hnames.
  - apply List.Forall_cons_iff in Hbar as [Hg Hbar]. simpl in Hg.
    replace (done_rows ++ (key, g) :: rows) with ((done_rows ++ [(key, g)]) ++ rows)
      by (by rewrite <- app_assoc).
    eapply (IH (add_to_group key g acc)); try done.
    + by apply add_to_group_distinct.
    + intros k1 agg1 H1. rewrite names_of_snoc.
      apply (add_to_group_cases key g acc k1 agg1 Hd) in H1
        as [[H1 H2]|[(agg0 & H1 & H2 & ->)|(-> & -> & H3)]].
      * rewrite H2, app_nil_r. by apply Hnames.
      * rewrite H2, split_on_append by done. f_equal. by apply Hnames.
      * rewrite same_group_refl, split_on_no_bar by done.
        assert (names_of key done_rows = []) as ->; [|done].
        unfold names_of. rewrite filter_none; [done|].
        intros [k2 g2] H2. simpl.
        destruct (same_group key k2) eqn:Hk2; [|done].
        destruct (Hcov _ _ H2) as (k' & agg' & Hin' & Hk').
        specialize (H3 _ Hin'). simpl in H3.
        by rewrite (same_group_trans k' k2 key Hk' (same_group_sym _ _ Hk2)) in H3.
    + intros k1 g1 H1. apply in_app_or in H1 as [H1|[[= <- <-]|[]]].
      * destruct (Hcov _ _ H1) as (k' & agg' & Hin' & Hk').
        destruct (add_to_group_keeps key g acc k' agg' Hin') as [agg'' H'']. eauto.
      * apply add_to_group_has.
Qed.

Lemma group_by_names rows k agg :
  Forall (fun row => no_bar (snd row)) rows ->
  In (k, agg) (group_by rows) -> split_on "|" agg = names_of k rows.
Proof.
  intros Hbar Hin.
  apply (fold_groups_names rows [] [] Hbar); try done. constructor.
Qed.

Lemma joined_names_no_bar (db : Database) :
  (forall gid name, In (gid, name) (Genre db) -> no_bar name) ->
  Forall (fun row => no_bar (snd row)) (joined db).
Proof.
  intros Hbar. apply List.Forall_forall. intros [[[[u m] v] t] g] Hin. simpl.
  apply joined_In in Hin as (_ & _ & gid & _ & Hg). by eapply Hbar.
Qed.

Lemma In_movie_genre_names (db : Database) (m : Z) (g : string) :
  In g (movie_genre_names db m) <->
  exists gid, In (m, gid) (Movie_Genre db) /\ In (gid, g) (Genre db).
Proof.
  unfold movie_genre_names. rewrite in_flat_map. split.
  - intros ([m' gid] & Hmg & H). simpl in H.
    destruct (Z.eqb_spec m' m) as [->|]; [|done].
    apply in_map_iff in H as ([gid' g'] & Hg & H). simpl in Hg. subst g'.
    apply filter_In in H as [H Heq]. simpl in Heq. apply Z.eqb_eq in Heq. subst.
    eauto.
  - intros (gid & Hmg & Hg). exists (m, gid). split; [done|]. simpl.
    rewrite Z.eqb_refl. apply in_map_iff. exists (gid, g). split; [done|].
    apply filter_In. split; [done|]. simpl. apply Z.eqb_refl.
Qed.

(** The genre string of a feed row splits into the names of the genres
    linked to its movie. *)
Lemma query_row_genre_set (db : Database) (row : FeedRow) :
  (forall gid name, In (gid, name) (Genre db) -> no_bar name) ->
  In row (query db) ->
  genre_set (genres row) = list_to_set (movie_genre_names db (movie_id row)).
Proof.
  intros Hbar Hin. unfold query in Hin.
  apply in_map_iff in Hin as ([[[[u m] v] t] agg] & <- & Hin). simpl.
  unfold genre_set.
  rewrite (group_by_names _ _ _ (joined_names_no_bar db Hbar) Hin).
  destruct (group_key_origin db _ _ Hin) as [Hr Hm]. simpl in Hr, Hm.
  apply set_eq. intros g. rewrite !elem_of_list_to_set, !list_elem_of_In.
  rewrite In_movie_genre_names. unfold names_of. rewrite in_map_iff. split.
  - intros ([[[[u' m'] v'] t'] g'] & Hg & H). simpl in Hg. subst g'.
    apply filter_In in H as [H Hk]. cbn [fst] in Hk.
    apply same_group_spec in Hk as (_ & Hm' & _). simpl in Hm'. subst m'.
    apply joined_In in H as (_ & _ & gid & Hmg & Hg). eauto.
  - intros (gid & Hmg & Hg). exists (u, m, v, t, g). split; [done|].
    apply filter_In. split; [by eapply In_joined|]. cbn [fst].
    apply same_group_refl.
Qed.

Lemma movie_info_of_lookup (df : list FeedRow) (m : Z) (info : MovieInfo) :
  movie_info_of df !! m = Some info ->
  exists row, In row df /\ movie_id row = m /\
              mi_title info = title row /\ mi_genres info = genres row.
Proof.
  unfold movie_info_of. intros H. apply elem_of_list_to_map_2 in H.
  apply list_elem_of_In, in_map_iff in H as (row & [= <- <-] & Hrow).
  exists row. done.
Qed.

(** X4: STRING_AGG and split are inverse on the genre names: when no genre
    name contains the separator, [load_data] leaves in the genre cache, for
    every movie of the feed, exactly the set of names of the genres linked
    to that movie. *)
Theorem load_data_caches_linked_genres (w : World) (g : Globals) (db : Database)
    (row : FeedRow) :
  store w = Some db ->
  (forall gid name, In (gid, name) (Genre db) -> no_bar name) ->
  In row (query db) ->
  movie_genres_cache (globals_after (load_data w g)) !! movie_id row
  = Some (list_to_set (movie_genre_names db (movie_id row))).
Proof.
  intros Hstore Hbar Hrow. unfold load_data. rewrite Hstore. simpl.
  rewrite fill_cache_lookup.
  destruct (movie_info_of_Some (query db) row Hrow) as [info Hinfo].
  rewrite Hinfo. f_equal.
  apply movie_info_of_lookup in Hinfo as (row' & Hrow' & Hm & _ & ->).
  rewrite (query_row_genre_set db row' Hbar Hrow'). by rewrite Hm.
Qed.

(** ** The shape of the rating matrix *)

Lemma cell_of_row (df : list FeedRow) (row : FeedRow) :
  In row df -> exists r, cell df (user_id row) (movie_id row) = Some r.
Proof.
  intros Hin. unfold cell.
  destruct (List.filter _ df) as [|x xs] eqn:Hf; [|by eexists].
  assert (In row (List.filter
    (fun r => Z.eqb (user_id r) (user_id row) && Z.eqb (movie_id r) (movie_id row)) df))
    as H by (apply filter_In; by rewrite !Z.eqb_refl).
  by rewrite Hf in H.
Qed.

(** X5: the rating matrix is rectangular, its index and columns are
    strictly increasing, and it has no empty row or column: every user of
    the index has rated some movie of the columns and every movie of the
    columns is rated by some user of the index. *)
Theorem pivot_table_shape (df : list FeedRow) :
  StronglySorted Z.lt (index (pivot_table df)) /\
  StronglySorted Z.lt (columns (pivot_table df)) /\
  (forall row, In row (rows (pivot_table df)) ->
     length (snd row) = length (columns (pivot_table df))) /\
  (forall u, In u (index (pivot_table df)) ->
     exists m r, In m (columns (pivot_table df)) /\ cell df u m = Some r) /\
  (forall m, In m (columns (pivot_table df)) ->
     exists u r, In u (index (pivot_table df)) /\ cell df u m = Some r).
Proof.
  split; [rewrite index_pivot_table; apply sorted_unique_sorted|].
  split; [apply sorted_unique_sorted|].
  split; [|split].
  - intros row Hin. simpl in Hin. apply in_map_iff in Hin as (u & <- & _).
    simpl. by rewrite length_map.
  - intros u Hu. apply In_index_pivot_table in Hu as (row & Hrow & <-).
    destruct (cell_of_row df row Hrow) as [r Hr].
    exists (movie_id row), r. split; [|done].
    apply In_columns_pivot_table. eauto.
  - intros m Hm. apply In_columns_pivot_table in Hm as (row & Hrow & <-).
    destruct (cell_of_row df row Hrow) as [r Hr].
    exists (user_id row), r. split; [|done].
    apply In_index_pivot_table. eauto.
Qed.

(** ** What is recommended, and in which order *)

(** X6: while the process serves requests, every recommended movie is a
    column of the rating matrix that the user has not rated. *)
Theorem recommendations_are_unrated {lib : Surprise} {py : SetOrder}
    (w : World) (g : Globals) (user top_n : Z) (recs : list Recommendation) :
  reachable g ->
  returned (get_recommendations w g user top_n) = Ok recs ->
  exists df, rating_matrix g = Some (pivot_table df) /\
    forall rec, In rec recs ->
      In (movieId rec) (columns (pivot_table df)) /\
      cell df user (movieId rec) = None.
Proof.
  intros Hr Hret.
  apply reachable_ready in Hr as [[a Ha] (df & _ & _ & Hrm & _)].
  exists df. split; [done|]. intros rec Hrec.
  unfold get_recommendations in Hret. rewrite Ha in Hret.
  destruct (recommend_with_items a g w user top_n _ recs rec Hrm Hret Hrec)
    as (s & est & Hloc & Htop & _).
  apply nlargest_In, predictions_In in Htop as [Hcand _].
  apply In_isna_labels in Hcand.
  apply loc_pivot_table in Hloc. subst s.
  apply in_map_iff in Hcand as (m & [= -> Hc] & Hm). done.
Qed.

Lemma round_half_even_mono (q1 q2 : Q) :
  (q1 <= q2)%Q -> round_half_even q1 <= round_half_even q2.
Proof.
  intros Hle. pose proof (Qfloor_resp_le _ _ Hle) as Hf.
  destruct (Z.eq_dec (Qfloor q1) (Qfloor q2)) as [Heq|Hne].
  - unfold round_half_even. rewrite <- Heq.
    destruct (Qle_bool (q1 - inject_Z (Qfloor q1)) (1 # 2)) eqn:A1;
    destruct (Qle_bool (1 # 2) (q1 - inject_Z (Qfloor q1))) eqn:B1;
    destruct (Qle_bool (q2 - inject_Z (Qfloor q1)) (1 # 2)) eqn:A2;
    destruct (Qle_bool (1 # 2) (q2 - inject_Z (Qfloor q1))) eqn:B2;
    destruct (Z.even (Qfloor q1)); try lia; Qbool; exfalso; lra.
  - pose proof (round_half_even_below q1). pose proof (round_half_even_floor q2). lia.
Qed.

Lemma round2_mono (q1 q2 : Q) : (q1 <= q2)%Q -> (round2 q1 <= round2 q2)%Q.
Proof.
  intros Hle. unfold round2.
  assert (round_half_even (q1 * 100) <= round_half_even (q2 * 100)) as H.
  { apply round_half_even_mono. apply Qmult_le_compat_r; [done | discriminate]. }
  rewrite Zle_Qle in H. unfold Qdiv.
  apply Qmult_le_compat_r; [done | discriminate].
Qed.

Lemma insert_desc_Permutation {A} (key : A -> Q) (x : A) (l : list A) :
  insert_desc key x l ≡ₚ x :: l.
Proof.
  induction l as [|y l IH]; simpl; [done|].
  destruct (Qle_bool (key y) (key x)); [done|].
  rewrite IH. apply Permutation_swap.
Qed.

Lemma sorted_desc_Permutation {A} (key : A -> Q) (l : list A) :
  sorted_desc key l ≡ₚ l.
Proof.
  induction l as [|x l IH]; simpl; [done|].
  by rewrite insert_desc_Permutation, IH.
Qed.

Lemma nlargest_keys_NoDup {A} (key : A -> Q) (f : A -> Z) (n : Z) (l : list A) :
  List.NoDup (map f l) -> List.NoDup (map f (nlargest n l key)).
Proof.
  intros Hnd. unfold nlargest.
  assert (List.NoDup (map f (sorted_desc key l))) as Hs.
  { eapply Permutation_NoDup; [|exact Hnd].
    apply Permutation_map. symmetry. apply sorted_desc_Permutation. }
  rewrite <- (firstn_skipn (Z.to_nat n) (sorted_desc key l)), map_app in Hs.
  by apply NoDup_app_remove_r in Hs.
Qed.

Lemma nlargest_sorted {A} (key : A -> Q) (n : Z) (l : list A) :
  StronglySorted (ge_key key) (nlargest n l key).
Proof.
  unfold nlargest. pose proof (sorted_desc_sorted key l) as Hs.
  generalize (Z.to_nat n). induction Hs as [|x xs Hs IH Hall]; intros [|k]; simpl;
    try constructor.
  - apply IH.
  - rewrite List.Forall_forall in *. intros y Hy. apply Hall. by eapply firstn_In.
Qed.

Section RecommendOrder.
Context {lib : Surprise} {py : SetOrder}.

Lemma predictions_keys_NoDup a user (cands : list Z) :
  List.NoDup cands -> List.NoDup (map fst (predictions a user cands)).
Proof.
  induction 1 as [|m cands Hm Hnd IH]; simpl; [constructor|].
  rewrite map_app. fold (predictions a user cands).
  destruct (predict a user m) as [est|]; [|done].
  destruct (Qle_bool 3 est); [|done]. simpl.
  constructor; [|done].
  intros Hin. apply in_map_iff in Hin as ([m' e'] & <- & Hin).
  apply predictions_In in Hin as [Hin _]. done.
Qed.

End RecommendOrder.

Lemma isna_labels_NoDup (s : list (Z * option Q)) :
  List.NoDup (map fst s) -> List.NoDup (isna_labels s).
Proof.
  induction s as [|[m [r|]] s IH]; simpl; intros Hnd; [constructor| |].
  - apply List.NoDup_cons_iff in Hnd as [_ Hnd]. by apply IH.
  - apply List.NoDup_cons_iff in Hnd as [Hm Hnd].
    constructor; [|by apply IH].
    intros Hin. apply In_isna_labels in Hin. apply Hm.
    apply in_map_iff. by exists (m, None).
Qed.

Lemma loc_pivot_table_labels (df : list FeedRow) (u : Z) (s : list (Z * option Q)) :
  loc (pivot_table df) u = Some s -> map fst s = columns (pivot_table df).
Proof.
  intros Hloc. apply loc_pivot_table in Hloc. subst s.
  rewrite map_map. simpl. apply map_id.
Qed.

Lemma Forall2_sorted_map {A B} (R : A -> A -> Prop) (S : B -> B -> Prop)
    (P : A -> B -> Prop) (l : list A) (k : list B) :
  (forall a1 a2 b1 b2, P a1 b1 -> P a2 b2 -> S b1 b2 -> R a1 a2) ->
  Forall2 P l k -> StronglySorted S k -> StronglySorted R l.
Proof.
  intros HRS HF. induction HF as [|a b l k Hab HF IH]; intros Hs; [constructor|].
  apply StronglySorted_inv in Hs as [Hs Hall].
  constructor; [by apply IH|].
  apply List.Forall_forall. intros a' Ha'.
  destruct (Forall2_In_l _ _ _ _ HF Ha') as (b' & Hb' & Hab').
  rewrite List.Forall_forall in Hall. eauto.
Qed.

Lemma Forall2_map_eq {A B C} (f : A -> C) (h : B -> C) (l : list A) (k : list B) :
  Forall2 (fun a b => f a = h b) l k -> map f l = map h k.
Proof. induction 1; simpl; congruence. Qed.

(** X7: while the process serves requests, the returned list is ordered by
    non-increasing predicted rating and names no movie twice. *)
Theorem recommendations_descending_distinct {lib : Surprise} {py : SetOrder}
    (w : World) (g : Globals) (user top_n : Z) (recs : list Recommendation) :
  reachable g ->
  returned (get_recommendations w g user top_n) = Ok recs ->
  StronglySorted (fun r1 r2 => (predicted_rating r2 <= predicted_rating r1)%Q) recs /\
  List.NoDup (map movieId recs).
Proof.
  intros Hr Hret.
  apply reachable_ready in Hr as [[a Ha] (df & _ & Hmi & Hrm & _)].
  unfold get_recommendations in Hret. rewrite Ha in Hret.
  rewrite (recommend_with_returned a g w user top_n _ _ Hrm Hmi) in Hret.
  destruct (loc (pivot_table df) user) as [s|] eqn:Hloc; [|done].
  injection Hret as <-.
  pose proof (build_recommendations_shape a (movie_info_of df) (dropna s)
    (map fst (liked (dropna s)))
    (nlargest top_n (predictions a user (isna_labels s)) snd)
    (movie_genres_cache g) ∅) as Hshape.
  split.
  - eapply Forall2_sorted_map; [|exact Hshape|apply nlargest_sorted].
    intros r1 r2 t1 t2 [_ ->] [_ ->] Hge. by apply round2_mono.
  - erewrite (Forall2_map_eq movieId (fst : Z * Q -> Z)); cycle 1.
    { eapply Forall2_impl; [exact Hshape|]. by intros r t [H _]. }
    apply nlargest_keys_NoDup, predictions_keys_NoDup, isna_labels_NoDup.
    rewrite (loc_pivot_table_labels df user s Hloc). apply sorted_unique_NoDup.
Qed.

Lemma sorted_desc_sorted_id {A} (key : A -> Q) (l : list A) :
  StronglySorted (ge_key key) l -> sorted_desc key l = l.
Proof.
  induction 1 as [|x l Hs IH Hall]; simpl; [done|].
  fold (sorted_desc key l). rewrite IH.
  destruct l as [|y l]; simpl; [done|].
  apply List.Forall_cons_iff in Hall as [Hy _]. unfold ge_key in Hy.
  apply Qle_bool_iff in Hy. by rewrite Hy.
Qed.

Section EqualEstimates.
Context {lib : Surprise} {py : SetOrder}.

Lemma predictions_constant a user (cands : list Z) (e : Q) :
  (forall m, In m cands -> predict a user m = Ok e) -> (3 <= e)%Q ->
  predictions a user cands = map (fun m => (m, e)) cands.
Proof.
  intros Hp He. induction cands as [|m cands IH]; simpl; [done|].
  fold (predictions a user cands).
  rewrite (Hp m) by (by left). apply Qle_bool_iff in He. rewrite He. simpl.
  f_equal. apply IH. intros m' Hm'. apply Hp. by right.
Qed.

End EqualEstimates.

Lemma constant_keys_sorted (cands : list Z) (e : Q) :
  StronglySorted (ge_key snd) (map (fun m : Z => (m, e)) cands).
Proof.
  induction cands as [|m cands IH]; simpl; constructor; [done|].
  apply List.Forall_forall. intros [m' e'] Hin.
  apply in_map_iff in Hin as (m'' & [= _ <-] & _).
  unfold ge_key. simpl. apply Qle_refl.
Qed.

(** X8: ties keep the column order.  When the predictor returns the same
    estimate, of at least 3.0, for every movie the user has not rated (as
    a fallback to the global mean does), the recommended movies are the
    first [top_n] unrated columns, in ascending order of movie id. *)
Theorem equal_estimates_keep_column_order {lib : Surprise} {py : SetOrder}
    (w : World) (g : Globals) (a : KNNBasic) (rm : DataFrame)
    (s : list (Z * option Q)) (user top_n : Z) (e : Q) :
  reachable g -> algo g = Some a ->
  rating_matrix g = Some rm -> loc rm user = Some s ->
  (forall m, In m (isna_labels s) -> predict a user m = Ok e) ->
  (3 <= e)%Q ->
  exists recs, returned (get_recommendations w g user top_n) = Ok recs /\
    map movieId recs = firstn (Z.to_nat top_n) (isna_labels s).
Proof.
  intros Hr Ha Hrm Hloc Hp He.
  apply reachable_ready in Hr as [_ (df & _ & Hmi & _ & _)].
  unfold get_recommendations. rewrite Ha.
  rewrite (recommend_with_returned a g w user top_n _ _ Hrm Hmi), Hloc.
  eexists. split; [done|].
  pose proof (build_recommendations_shape a (movie_info_of df) (dropna s)
    (map fst (liked (dropna s)))
    (nlargest top_n (predictions a user (isna_labels s)) snd)
    (movie_genres_cache g) ∅) as Hshape.
  erewrite (Forall2_map_eq movieId (fst : Z * Q -> Z)); cycle 1.
  { eapply Forall2_impl; [exact Hshape|]. by intros r t [H _]. }
  rewrite (predictions_constant a user _ e Hp He). unfold nlargest.
  rewrite sorted_desc_sorted_id by apply constant_keys_sorted.
  rewrite <- firstn_map, map_map. simpl. by rewrite map_id.
Qed.

(** ** Explanations and metadata of the returned items *)

Lemma build_recommendations_items {py : SetOrder}
    a mi rated liked_movie_ids top cache best rec :
  In rec (snd (build_recommendations a mi rated liked_movie_ids top cache best)) ->
  explanation rec <> "" /\
  rec_title rec
  = mi_title (default {| mi_title := "Desconocido"; mi_genres := "" |} (mi !! movieId rec)) /\
  rec_genres rec
  = mi_genres (default {| mi_title := "Desconocido"; mi_genres := "" |} (mi !! movieId rec)) /\
  (forall e, to_inner_iid a (movieId rec) = Raise e ->
             explanation rec = generic_explanation).
Proof.
  revert cache best.
  induction top as [|[movie est] top IH]; intros cache best; simpl; [done|].
  assert (forall e, to_inner_iid a movie = Raise e ->
    snd (try_explain a mi rated liked_movie_ids movie cache best) = Raise e) as Hraise.
  { intros e He. unfold try_explain. by rewrite He. }
  destruct (try_explain _ _ _ _ _ _ _) as [[cache1 best1] r]. simpl in Hraise.
  specialize (IH cache1 best1).
  destruct (build_recommendations _ _ _ _ _ _ _) as [cache2 recs]. simpl in *.
  intros [<-|Hin]; [|by apply IH]. simpl.
  repeat split.
  - destruct r as [e0|]; [|done].
    destruct (String.eqb_spec e0 ""); [done|done].
  - intros e He. by rewrite (Hraise e He).
Qed.

Section Items.
Context {lib : Surprise} {py : SetOrder}.

(** A returned list is built by the loop over the selected predictions,
    for some model object, metadata index and user row. *)
Lemma get_recommendations_built w g user top_n recs :
  returned (get_recommendations w g user top_n) = Ok recs ->
  recs = [] \/
  exists a mi rated liked_movie_ids top cache,
    recs = snd (build_recommendations a mi rated liked_movie_ids top cache ∅).
Proof.
  assert (forall a g' w', returned (recommend_with a g' w' user top_n) = Ok recs ->
    recs = [] \/
    exists a mi rated liked_movie_ids top cache,
      recs = snd (build_recommendations a mi rated liked_movie_ids top cache ∅)) as H.
  { intros a g' w'. unfold recommend_with.
    destruct (rating_matrix g') as [rm|]; [|done].
    destruct (loc rm user) as [s|]; [|done].
    destruct (nlargest _ _ _) as [|t top]; [intros [= <-]; by left|].
    destruct (movie_info g') as [mi|]; [|done].
    destruct (build_recommendations a mi (dropna s) (map fst (liked (dropna s)))
                (t :: top) (movie_genres_cache g') ∅) as [cache rs] eqn:Hb.
    intros [= <-]. right.
    exists a, mi, (dropna s), (map fst (liked (dropna s))), (t :: top),
           (movie_genres_cache g').
    by rewrite Hb. }
  unfold get_recommendations.
  destruct (algo g) as [a|]; [apply H|].
  destruct (returned (load_model w g)); [|done].
  destruct (algo (globals_after (load_model w g))); [apply H | done].
Qed.

End Items.

Section ExplanationForm.
Context {py : SetOrder}.

Lemma similar_explanation_form mi rated sel e :
  similar_explanation mi rated sel = Ok e ->
  e = "" \/ exists reason, e = "Te recomendamos esta película porque " +:+ reason.
Proof.
  unfold similar_explanation. destruct sel as [|[id sm] [|y sel]].
  - intros [= <-]. by left.
  - destruct (series_get rated id) as [r|]; [|done]. intros [= <-]. right.
    by exists ("te gustó " +:+ sim_text (title_or_default mi id) r +:+ ".").
  - destruct (sim_texts mi rated _) as [ts|]; [|done]. intros [= <-]. right.
    by exists ("te gustaron películas similares como "
               +:+ join ", " (removelast ts) +:+ " y " +:+ List.last ts "" +:+ ".").
Qed.

Lemma genre_explanation_form mi liked_movie_ids movie cache :
  snd (genre_explanation mi liked_movie_ids movie cache) = "" \/
  exists reason, snd (genre_explanation mi liked_movie_ids movie cache)
                 = "Te recomendamos esta película porque " +:+ reason.
Proof.
  unfold genre_explanation.
  destruct (match mi !! movie with Some _ => _ | None => _ end) as [cache' gs].
  case_decide; [by left|].
  destruct (List.filter _ _) as [|x l] eqn:Hf; [by left|]. right.
  by exists ("contiene géneros que sueles disfrutar: " +:+ join ", " (x :: l) +:+ ".").
Qed.

Lemma try_explain_form a mi rated liked_movie_ids movie cache best e :
  snd (try_explain a mi rated liked_movie_ids movie cache best) = Ok e ->
  e = "" \/ exists reason, e = "Te recomendamos esta película porque " +:+ reason.
Proof.
  unfold try_explain.
  destruct (to_inner_iid a movie) as [inner|]; [|done].
  destruct (similar_explanation _ _ _) as [expl|] eqn:Hs; [|done].
  destruct (String.eqb expl "") eqn:He.
  - pose proof (genre_explanation_form mi liked_movie_ids movie cache) as Hg.
    destruct (genre_explanation mi liked_movie_ids movie cache) as [cache' expl'].
    simpl in *. by intros [= <-].
  - simpl. intros [= <-]. by apply similar_explanation_form in Hs.
Qed.

Lemma build_recommendations_form a mi rated liked_movie_ids top cache best rec :
  In rec (snd (build_recommendations a mi rated liked_movie_ids top cache best)) ->
  explanation rec
  = "Esta película ha sido bien valorada por usuarios con gustos similares a los tuyos."
  \/ exists reason, explanation rec = "Te recomendamos esta película porque " +:+ reason.
Proof.
  revert cache best.
  induction top as [|[movie est] top IH]; intros cache best; simpl; [done|].
  pose proof (try_explain_form a mi rated liked_movie_ids movie cache best) as Hform.
  destruct (try_explain _ _ _ _ _ _ _) as [[cache1 best1] r]. simpl in Hform.
  specialize (IH cache1 best1).
  destruct (build_recommendations _ _ _ _ _ _ _) as [cache2 recs]. simpl in *.
  intros [<-|Hin]; [|by apply IH]. simpl.
  destruct r as [e|]; [|by left].
  destruct (String.eqb_spec e "") as [Heq|Hne]; [by left|].
  destruct (Hform e eq_refl) as [Heq|H]; [done | by right].
Qed.

End ExplanationForm.

(** X9: whatever the globals, every item of a returned list carries a
    non-empty explanation: it is the generic sentence or a sentence that
    begins with "Te recomendamos esta película porque". *)
Theorem explanation_never_empty {lib : Surprise} {py : SetOrder}
    (w : World) (g : Globals) (user top_n : Z)
    (recs : list Recommendation) (rec : Recommendation) :
  returned (get_recommendations w g user top_n) = Ok recs ->
  In rec recs ->
  explanation rec <> "" /\
  (explanation rec
   = "Esta película ha sido bien valorada por usuarios con gustos similares a los tuyos."
   \/ exists reason, explanation rec = "Te recomendamos esta película porque " +:+ reason).
Proof.
  intros Hret Hrec.
  apply get_recommendations_built in Hret
    as [->|(a & mi & rated & liked_ids & top & cache & ->)]; [done|].
  split.
  - by apply build_recommendations_items in Hrec as [H _].
  - by apply build_recommendations_form in Hrec.
Qed.

(** X10: a recommended movie that the model's trainset does not know (a
    restored model older than the feed, or a model whose fit failed) gets
    the generic explanation: the genre rule is skipped as well. *)
Theorem unknown_to_trainset_generic_explanation {lib : Surprise} {py : SetOrder}
    (w : World) (g : Globals) (a : KNNBasic) (user top_n : Z)
    (recs : list Recommendation) (rec : Recommendation) (e : exn) :
  reachable g -> algo g = Some a ->
  returned (get_recommendations w g user top_n) = Ok recs ->
  In rec recs ->
  to_inner_iid a (movieId rec) = Raise e ->
  explanation rec = generic_explanation.
Proof.
  intros Hr Ha Hret Hrec Hraise.
  apply reachable_ready in Hr as [_ (df & _ & Hmi & Hrm & _)].
  unfold get_recommendations in Hret. rewrite Ha in Hret.
  rewrite (recommend_with_returned a g w user top_n _ _ Hrm Hmi) in Hret.
  destruct (loc (pivot_table df) user) as [s|]; [|done].
  injection Hret as <-.
  apply build_recommendations_items in Hrec as (_ & _ & _ & H). by eapply H.
Qed.

Lemma movie_info_of_find (df : list FeedRow) (m : Z) :
  movie_info_of df !! m
  = option_map (fun r => {| mi_title := title r; mi_genres := genres r |})
               (List.find (fun r => Z.eqb (movie_id r) m) df).
Proof.
  unfold movie_info_of. induction df as [|r df IH]; simpl; [done|].
  destruct (Z.eqb_spec (movie_id r) m) as [->|Hne].
  - by rewrite lookup_insert_eq.
  - by rewrite lookup_insert_ne.
Qed.

Lemma recommendations_are_unrated_aux {lib : Surprise} {py : SetOrder}
    (w : World) (g : Globals) (user top_n : Z) (recs : list Recommendation) :
  reachable g ->
  returned (get_recommendations w g user top_n) = Ok recs ->
  exists df, data g = Some df /\ movie_info g = Some (movie_info_of df) /\
    forall rec, In rec recs ->
      In (movieId rec) (columns (pivot_table df)) /\
      (rec_title rec
       = mi_title (default {| mi_title := "Desconocido"; mi_genres := "" |}
                     (movie_info_of df !! movieId rec)) /\
       rec_genres rec
       = mi_genres (default {| mi_title := "Desconocido"; mi_genres := "" |}
                      (movie_info_of df !! movieId rec))).
Proof.
  intros Hr Hret.
  apply reachable_ready in Hr as [[a Ha] (df & Hdata & Hmi & Hrm & _)].
  exists df. split; [done|]. split; [done|]. intros rec Hrec.
  unfold get_recommendations in Hret. rewrite Ha in Hret. split.
  - destruct (recommend_with_items a g w user top_n _ recs rec Hrm Hret Hrec)
      as (s & est & Hloc & Htop & _).
    apply nlargest_In, predictions_In in Htop as [Hcand _].
    apply In_isna_labels in Hcand.
    apply loc_pivot_table in Hloc. subst s.
    apply in_map_iff in Hcand as (m & [= -> Hc] & Hm). done.
  - rewrite (recommend_with_returned a g w user top_n _ _ Hrm Hmi) in Hret.
    destruct (loc (pivot_table df) user) as [s|]; [|done].
    injection Hret as <-.
    apply build_recommendations_items in Hrec as (_ & Ht & Hg & _). done.
Qed.

(** X11: while the process serves requests, the title and the genre string
    of every returned item are those of the first feed row of its movie;
    the placeholder title is never used. *)
Theorem recommendation_metadata_from_feed {lib : Surprise} {py : SetOrder}
    (w : World) (g : Globals) (user top_n : Z)
    (recs : list Recommendation) (rec : Recommendation) :
  reachable g ->
  returned (get_recommendations w g user top_n) = Ok recs ->
  In rec recs ->
  exists df row, data g = Some df /\
    List.find (fun r => Z.eqb (movie_id r) (movieId rec)) df = Some row /\
    rec_title rec = title row /\ rec_genres rec = genres row.
Proof.
  intros Hr Hret Hrec.
  destruct (recommendations_are_unrated_aux w g user top_n recs Hr Hret)
    as (df & Hdata & Hmi & Hcols).
  destruct (Hcols rec Hrec) as (Hcol & Hitem).
  apply In_columns_pivot_table in Hcol as (row0 & Hrow0 & Hm).
  destruct (List.find (fun r => Z.eqb (movie_id r) (movieId rec)) df) as [row|] eqn:Hf.
  - exists df, row. split; [done|]. split; [done|].
    destruct Hitem as (Ht & Hg). rewrite movie_info_of_find, Hf in Ht, Hg. done.
  - eapply find_none in Hf; [|exact Hrow0]. simpl in Hf.
    apply Z.eqb_neq in Hf. done.
Qed.

(** ** The genre rule *)

Lemma count_genres_dom (l : list string) (acc : gmap string nat) (x : string) :
  is_Some (fold_left (fun acc genre =>
      if String.eqb genre "" then acc
      else <[genre := S (default O (acc !! genre))]> acc) l acc !! x)
  <-> is_Some (acc !! x) \/ (x <> "" /\ In x l).
Proof.
  revert acc. induction l as [|y l IH]; intros acc; simpl; [tauto|].
  rewrite IH. destruct (String.eqb_spec y "") as [->|Hy].
  - split; [tauto|]. intros [H|[H1 [H2|H2]]]; try tauto. congruence.
  - destruct (decide (y = x)) as [->|Hne].
    + rewrite lookup_insert_eq. split; [|intros _; left; by eexists].
      intros _. right. split; [done | by left].
    + rewrite lookup_insert_ne by done. split; [tauto|].
      intros [H|[H1 [H2|H2]]]; tauto.
Qed.

Section GenreRule.
Context {py : SetOrder}.

(** Whatever the order, an iteration visits the elements of the set, each
    once. *)
Lemma In_iterate (gs : gset string) (x : string) : In x (iterate gs) <-> x ∈ gs.
Proof. by rewrite <- list_elem_of_In, (iterate_elements gs), elem_of_elements. Qed.

Lemma NoDup_iterate (gs : gset string) : List.NoDup (iterate gs).
Proof. apply NoDup_ListNoDup. rewrite (iterate_elements gs). apply NoDup_elements. Qed.

Lemma fold_user_genres_dom (cache : gmap Z (gset string)) (ids : list Z)
    (acc : gmap string nat) (x : string) :
  is_Some (fold_left (fun acc rated_id =>
      match cache !! rated_id with
      | Some gs =>
          fold_left (fun acc genre =>
            if String.eqb genre "" then acc
            else <[genre := S (default O (acc !! genre))]> acc) (iterate gs) acc
      | None => acc
      end) ids acc !! x)
  <-> is_Some (acc !! x) \/
      (x <> "" /\ exists id gs, In id ids /\ cache !! id = Some gs /\ x ∈ gs).
Proof.
  revert acc. induction ids as [|id ids IH]; intros acc; simpl.
  - split; [tauto|]. intros [H|(_ & id & gs & [] & _)]. done.
  - rewrite IH. destruct (cache !! id) as [gs|] eqn:Hc.
    + rewrite count_genres_dom. split.
      * intros [[H|[H1 H2]]|(H1 & id' & gs' & H2 & H3 & H4)]; [tauto| |].
        -- right. split; [done|]. exists id, gs. split; [by left|].
           split; [done|]. by apply In_iterate.
        -- right. split; [done|]. exists id', gs'. split; [by right | done].
      * intros [H|(H1 & id' & gs' & [<-|H2] & H3 & H4)]; [tauto| |].
        -- left. right. split; [done|].
           rewrite Hc in H3. injection H3 as <-.
           by apply In_iterate.
        -- right. split; [done|]. exists id', gs'. done.
    + split.
      * intros [H|(H1 & id' & gs' & H2 & H3 & H4)]; [tauto|].
        right. split; [done|]. exists id', gs'. split; [by right | done].
      * intros [H|(H1 & id' & gs' & [<-|H2] & H3 & H4)]; [tauto|congruence|].
        right. split; [done|]. exists id', gs'. done.
Qed.

Lemma In_matching_genres cache liked_movie_ids (gs : gset string) (x : string) :
  In x (matching_genres cache liked_movie_ids gs) <->
  x ∈ gs /\ x <> "" /\
  exists id gs', In id liked_movie_ids /\ cache !! id = Some gs' /\ x ∈ gs'.
Proof.
  unfold matching_genres, user_genre_ratings.
  rewrite filter_In, andb_true_iff, bool_decide_eq_true, negb_true_iff, String.eqb_neq.
  rewrite fold_user_genres_dom, lookup_empty, In_iterate.
  split.
  - intros (H1 & [[y Hy]|(_ & H2)] & H3); [done | done].
  - intros (H1 & H2 & H3). split; [done|]. split; [|done]. right. done.
Qed.

Lemma NoDup_matching_genres cache liked_movie_ids (gs : gset string) :
  List.NoDup (matching_genres cache liked_movie_ids gs).
Proof. apply List.NoDup_filter, NoDup_iterate. Qed.

Lemma genre_explanation_covered mi liked_movie_ids movie cache info gs :
  mi !! movie = Some info -> cache !! movie = Some gs -> gs <> ∅ ->
  genre_explanation mi liked_movie_ids movie cache
  = (cache,
     match matching_genres cache liked_movie_ids gs with
     | [] => ""
     | _ :: _ =>
         "Te recomendamos esta película porque contiene géneros que sueles disfrutar: "
         +:+ String.concat ", " (matching_genres cache liked_movie_ids gs) +:+ "."
     end).
Proof.
  intros Hmi Hc Hne. unfold genre_explanation, matching_genres.
  rewrite Hmi, Hc. simpl. repeat case_decide; try done.
  destruct (List.filter _ _); done.
Qed.

Lemma try_explain_rule2 a mi rated liked_movie_ids movie cache best inner info gs :
  best_similarities_ok a liked_movie_ids best ->
  to_inner_iid a movie = Ok inner ->
  movie_sims a inner liked_movie_ids = [] ->
  mi !! movie = Some info -> cache !! movie = Some gs -> gs <> ∅ ->
  snd (try_explain a mi rated liked_movie_ids movie cache best)
  = Ok (snd (genre_explanation mi liked_movie_ids movie cache)).
Proof.
  intros Hok Hinner Hsims Hmi Hc Hne. unfold try_explain. rewrite Hinner.
  set (best' := match best !! movie with Some _ => best | None => _ end).
  assert (default [] (best' !! movie) = []) as ->.
  { subst best'. destruct (best !! movie) as [sel|] eqn:Hb.
    - rewrite Hb. simpl. destruct (Hok _ _ Hb) as (inner' & Hi & ->).
      assert (inner' = inner) as -> by congruence. by rewrite Hsims.
    - rewrite lookup_insert_eq, Hsims. done. }
  simpl. rewrite (genre_explanation_covered _ _ _ _ _ _ Hmi Hc Hne). done.
Qed.

Lemma build_recommendations_rule2 a mi rated liked_movie_ids top cache best rec inner
    info gs :
  cache_covers mi cache ->
  best_similarities_ok a liked_movie_ids best ->
  In rec (snd (build_recommendations a mi rated liked_movie_ids top cache best)) ->
  to_inner_iid a (movieId rec) = Ok inner ->
  movie_sims a inner liked_movie_ids = [] ->
  mi !! movieId rec = Some info -> cache !! movieId rec = Some gs -> gs <> ∅ ->
  explanation rec
  = match matching_genres cache liked_movie_ids gs with
    | [] => "Esta película ha sido bien valorada por usuarios con gustos similares a los tuyos."
    | _ :: _ =>
        "Te recomendamos esta película porque contiene géneros que sueles disfrutar: "
        +:+ String.concat ", " (matching_genres cache liked_movie_ids gs) +:+ "."
    end.
Proof.
  intros Hcov. revert best.
  induction top as [|[movie est] top IH]; intros best Hok; simpl; [done|].
  pose proof (try_explain_best a mi rated liked_movie_ids movie cache best Hok) as Hok1.
  pose proof (try_explain_cache a mi rated liked_movie_ids movie cache best Hcov) as Hc1.
  pose proof (try_explain_rule2 a mi rated liked_movie_ids movie cache best) as Hrule.
  destruct (try_explain _ _ _ _ _ _ _) as [[cache1 best1] r]. simpl in *. subst cache1.
  specialize (IH best1 Hok1).
  destruct (build_recommendations _ _ _ _ _ _ _) as [cache2 recs]. simpl in *.
  intros [<-|Hin] Hinner Hsims Hmi Hc Hne; simpl in *; [|by apply IH].
  rewrite (Hrule inner info gs Hok Hinner Hsims Hmi Hc Hne).
  rewrite (genre_explanation_covered _ _ _ _ _ _ Hmi Hc Hne). simpl.
  destruct (matching_genres cache liked_movie_ids gs); done.
Qed.

End GenreRule.

(** X12: for a recommended movie that the trainset knows and for which no
    liked movie has a similarity above 0.1, the explanation lists, each
    once and separated by ", ", the non-empty genres of the movie (from
    the genre cache) that occur among the cached genres of the user's
    liked movies; when there is none, the generic sentence is used.  The
    order of the listed genres is that of the iteration over the set,
    which the program does not fix. *)
Theorem genre_overlap_explanation {lib : Surprise} {py : SetOrder}
    (w : World) (g : Globals) (a : KNNBasic) (user top_n : Z)
    (recs : list Recommendation) (rec : Recommendation) (inner : nat) :
  reachable g -> algo g = Some a ->
  returned (get_recommendations w g user top_n) = Ok recs ->
  In rec recs ->
  to_inner_iid a (movieId rec) = Ok inner ->
  exists df s gs,
    rating_matrix g = Some (pivot_table df) /\
    loc (pivot_table df) user = Some s /\
    movie_genres_cache g !! movieId rec = Some gs /\
    (movie_sims a inner (map fst (liked (dropna s))) = [] ->
     exists listed,
       List.NoDup listed /\
       (forall x, In x listed <->
          x ∈ gs /\ x <> "" /\
          exists id r gs', In (id, Some r) s /\ (7 # 2 <= r)%Q /\
            movie_genres_cache g !! id = Some gs' /\ x ∈ gs') /\
       explanation rec
       = match listed with
         | [] => "Esta película ha sido bien valorada por usuarios con gustos similares a los tuyos."
         | _ :: _ =>
             "Te recomendamos esta película porque contiene géneros que sueles disfrutar: "
             +:+ String.concat ", " listed +:+ "."
         end).
Proof.
  intros Hr Ha Hret Hrec Hinner.
  apply reachable_ready in Hr as [_ (df & _ & Hmi & Hrm & Hcov)].
  unfold get_recommendations in Hret. rewrite Ha in Hret.
  destruct (recommend_with_items a g w user top_n _ recs rec Hrm Hret Hrec)
    as (s & est & Hloc & Htop & _).
  rewrite (recommend_with_returned a g w user top_n _ _ Hrm Hmi), Hloc in Hret.
  injection Hret as <-.
  assert (exists info, movie_info_of df !! movieId rec = Some info) as [info Hinfo].
  { apply nlargest_In, predictions_In in Htop as [Hcand _].
    apply In_isna_labels in Hcand.
    pose proof (loc_pivot_table df user s Hloc) as Hs. rewrite Hs in Hcand.
    apply in_map_iff in Hcand as (m & [= Hm _] & Hcol).
    apply In_columns_pivot_table in Hcol as (row & Hrow & Hrm').
    rewrite <- Hm, <- Hrm'. by apply movie_info_of_Some. }
  destruct (Hcov _ _ Hinfo) as (gs & Hgs & Hne).
  exists df, s, gs. repeat (split; [done|]).
  intros Hsims.
  exists (matching_genres (movie_genres_cache g) (map fst (liked (dropna s))) gs).
  split; [apply NoDup_matching_genres|]. split.
  - intros x. rewrite In_matching_genres. split.
    + intros (H1 & H2 & id & gs' & Hid & Hc & Hx).
      apply In_liked_ids in Hid as (r & Hin & Hle). apply In_dropna in Hin.
      split; [done|]. split; [done|]. exists id, r, gs'. done.
    + intros (H1 & H2 & id & r & gs' & Hin & Hle & Hc & Hx).
      split; [done|]. split; [done|]. exists id, gs'. split; [|done].
      apply In_liked_ids. exists r. split; [|done]. by apply In_dropna.
  - eapply build_recommendations_rule2; eauto.
    intros m l. by rewrite lookup_empty.
Qed.

(** ** Start, restart and retrain *)

Lemma fill_cache_idem (mi : gmap Z MovieInfo) (c : gmap Z (gset string)) :
  fill_cache mi (fill_cache mi c) = fill_cache mi c.
Proof.
  apply map_eq. intros m. rewrite !fill_cache_lookup.
  destruct (mi !! m); done.
Qed.

Section Lifecycle.
Context {lib : Surprise} {py : SetOrder}.

(** The outcome of a retrain that returns. *)
Lemma retrain_model_Ok_world w g a :
  returned (retrain_model w g) = Ok a ->
  world_after (retrain_model w g) = set_pkl w (Pickled a) /\ disk w = Writable /\
  exists df s, fetch_data_from_db (store w) = Ok df /\
    compute_similarities (build_full_trainset df) = Ok s /\
    a = with_sim (with_trainset new_KNNBasic (build_full_trainset df)) s.
Proof.
  unfold retrain_model.
  destruct (returned (load_data w g)) as [d|e] eqn:Hld; [|done].
  apply load_data_ready_dataset in Hld as (df & -> & Hfetch & ->). simpl.
  destruct (compute_similarities _) as [s|] eqn:Hs; [|done].
  destruct (disk w); simpl; try done. intros [= <-]. eauto 10.
Qed.

(** The globals and the world after an initialisation that succeeds. *)
Lemma module_init_Ok w :
  returned (module_init w) = Ok tt ->
  exists df a, fetch_data_from_db (store w) = Ok df /\
    globals_after (module_init w)
    = {| algo := Some a; data := Some df; movie_info := Some (movie_info_of df);
         rating_matrix := Some (pivot_table df);
         movie_genres_cache := fill_cache (movie_info_of df) ∅ |} /\
    recommender_pkl (world_after (module_init w)) = Pickled a /\
    store (world_after (module_init w)) = store w.
Proof.
  unfold module_init. cbv zeta.
  destruct (returned (load_data w initial_globals)) as [d|e] eqn:Hld; [|done].
  apply load_data_ready_dataset in Hld as (df & -> & Hfetch & ->).
  unfold load_model, retrain_and_assign.
  assert (forall g0,
    g0 = set_dataset (set_cache initial_globals
           (fill_cache (movie_info_of df) (movie_genres_cache initial_globals)))
           (df, movie_info_of df, pivot_table df) ->
    forall a, returned (retrain_model w g0) = Ok a ->
    set_algo (globals_after (retrain_model w g0)) (Some a)
    = {| algo := Some a; data := Some df; movie_info := Some (movie_info_of df);
         rating_matrix := Some (pivot_table df);
         movie_genres_cache := fill_cache (movie_info_of df) ∅ |} /\
    recommender_pkl (world_after (retrain_model w g0)) = Pickled a /\
    store (world_after (retrain_model w g0)) = store w) as Hretrain.
  { intros g0 -> a Hr.
    destruct (retrain_model_Ok_world _ _ _ Hr) as (-> & _ & _).
    destruct (retrain_model_Ok _ _ _ Hr) as (df' & Hfetch' & _ & ->).
    rewrite Hfetch in Hfetch'. injection Hfetch' as <-.
    simpl. by rewrite fill_cache_idem. }
  destruct (recommender_pkl w) as [| |a] eqn:Hpkl; simpl.
  - destruct (returned (retrain_model w _)) as [a|e] eqn:Hr; [|done]. intros _.
    exists df, a. split; [done|]. simpl. by apply Hretrain.
  - destruct (returned (retrain_model w _)) as [a|e] eqn:Hr; [|done]. intros _.
    exists df, a. split; [done|]. simpl. by apply Hretrain.
  - intros _. exists df, a. done.
Qed.

End Lifecycle.


(** X14: a restart reproduces the state.  After an initialisation that
    succeeded, initialising again in the world it left behind (same store,
    the pickle file it wrote or found) succeeds and gives the same
    globals. *)
Theorem restart_reproduces_globals {lib : Surprise} (w : World) :
  returned (module_init w) = Ok tt ->
  returned (module_init (world_after (module_init w))) = Ok tt /\
  globals_after (module_init (world_after (module_init w)))
  = globals_after (module_init w).
Proof.
  intros Hok.
  destruct (module_init_Ok w Hok) as (df & a & Hfetch & -> & Hpkl & Hstore).
  set (w' := world_after (module_init w)) in *.
  unfold module_init, load_data, load_model. rewrite Hstore, Hfetch, Hpkl. done.
Qed.

(** X15: retraining twice on an unchanged store.  After a retrain that
    returned, a second retrain in the world it left behind returns the
    same model and leaves the same globals and the same pickle file. *)
Theorem retrain_twice_same_model {lib : Surprise} (w : World) (g : Globals) (a : KNNBasic) :
  returned (retrain_model w g) = Ok a ->
  returned (retrain_model (world_after (retrain_model w g))
                          (globals_after (retrain_model w g))) = Ok a /\
  globals_after (retrain_model (world_after (retrain_model w g))
                               (globals_after (retrain_model w g)))
  = globals_after (retrain_model w g) /\
  world_after (retrain_model (world_after (retrain_model w g))
                             (globals_after (retrain_model w g)))
  = world_after (retrain_model w g).
Proof.
  intros Hr.
  destruct (retrain_model_Ok_world _ _ _ Hr) as (-> & Hdisk & df & s & Hfetch & Hs & ->).
  destruct (retrain_model_Ok _ _ _ Hr) as (df' & Hfetch' & _ & ->).
  rewrite Hfetch in Hfetch'. injection Hfetch' as <-.
  unfold retrain_model, load_data. simpl. rewrite Hfetch. simpl.
  rewrite Hs, Hdisk. simpl. rewrite fill_cache_idem. done.
Qed.

(** X16: the genre cache is never cleared.  A retrain, whatever its
    outcome, keeps an entry for every movie that had one, and the entry of
    a movie that is not in the new feed is left as it was. *)
Theorem retrain_keeps_cache_entries {lib : Surprise} (w : World) (g : Globals) (m : Z) :
  (is_Some (movie_genres_cache g !! m) ->
   is_Some (movie_genres_cache (globals_after (retrain_model w g)) !! m)) /\
  (forall db, store w = Some db ->
     (forall row, In row (query db) -> movie_id row <> m) ->
     movie_genres_cache (globals_after (retrain_model w g)) !! m
     = movie_genres_cache g !! m).
Proof.
  assert (movie_genres_cache (globals_after (retrain_model w g))
          = match store w with
            | Some db => fill_cache (movie_info_of (query db)) (movie_genres_cache g)
            | None => movie_genres_cache g
            end) as ->.
  { unfold retrain_model, load_data.
    destruct (store w) as [db|]; simpl; [|done].
    destruct (compute_similarities _); [destruct (disk w)|]; done. }
  split.
  - destruct (store w) as [db|]; [|done].
    rewrite fill_cache_lookup. destruct (movie_info_of (query db) !! m); [by eexists|done].
  - intros db -> Hno. rewrite fill_cache_lookup.
    destruct (movie_info_of (query db) !! m) as [info|] eqn:Hinfo; [|done].
    apply movie_info_of_lookup in Hinfo as (row & Hrow & Hm & _).
    by destruct (Hno row Hrow).
Qed.

(** ** The bulk loader *)

Section InsertAll.
Context {A : Type} (key_eq : A -> A -> bool).

Lemma insert_all_incl (xs table : list A) (y : A) :
  In y table -> In y (insert_all key_eq xs table).
Proof.
  unfold insert_all. revert table.
  induction xs as [|x xs IH]; simpl; intros table Hy; [done|].
  apply IH. unfold insert_do_nothing.
  destruct (existsb (key_eq x) table); [done|]. apply in_or_app. by left.
Qed.

Lemma insert_all_covered_id (xs table : list A) :
  (forall x, In x xs -> existsb (key_eq x) table = true) ->
  insert_all key_eq xs table = table.
Proof.
  unfold insert_all. induction xs as [|x xs IH]; simpl; intros Hc; [done|].
  unfold insert_do_nothing at 2. rewrite (Hc x) by (by left).
  apply IH. intros y Hy. apply Hc. by right.
Qed.

Lemma insert_all_covers (xs table : list A) :
  (forall x, key_eq x x = true) ->
  forall x, In x xs -> existsb (key_eq x) (insert_all key_eq xs table) = true.
Proof.
  intros Hrefl. unfold insert_all. revert table.
  induction xs as [|y xs IH]; simpl; intros table x Hx; [done|].
  destruct Hx as [->|Hx]; [|by apply IH].
  apply existsb_exists.
  assert (exists z, In z (insert_do_nothing key_eq x table) /\ key_eq x z = true)
    as (z & Hz & Hk).
  { unfold insert_do_nothing. destruct (existsb (key_eq x) table) eqn:He.
    - by apply existsb_exists in He.
    - exists x. split; [|done]. apply in_or_app. right. by left. }
  exists z. split; [|done]. by apply (insert_all_incl xs).
Qed.

Lemma insert_all_idem (xs table : list A) :
  (forall x, key_eq x x = true) ->
  insert_all key_eq xs (insert_all key_eq xs table) = insert_all key_eq xs table.
Proof. intros Hrefl. apply insert_all_covered_id. by apply insert_all_covers. Qed.

Lemma insert_all_key_unique (xs table : list A) :
  (forall x y, key_eq x y = key_eq y x) ->
  key_unique key_eq table -> key_unique key_eq (insert_all key_eq xs table).
Proof.
  intros Hsym. unfold insert_all. revert table.
  induction xs as [|x xs IH]; simpl; intros table Hu; [done|].
  apply IH. unfold insert_do_nothing.
  destruct (existsb (key_eq x) table) eqn:He; [done|].
  assert (forall y, In y table -> key_eq x y = false) as Hnew.
  { intros y Hy. destruct (key_eq x y) eqn:Hk; [|done].
    assert (existsb (key_eq x) table = true) as H
      by (apply existsb_exists; by exists y).
    congruence. }
  intros a b Ha Hb Hk.
  apply in_app_or in Ha as [Ha|[<-|[]]]; apply in_app_or in Hb as [Hb|[<-|[]]].
  - by apply Hu.
  - rewrite Hsym, (Hnew a Ha) in Hk. done.
  - rewrite (Hnew b Hb) in Hk. done.
  - done.
Qed.

End InsertAll.

Lemma fold_insert_genre_incl (names : list string) (table : list (Z * string)) y :
  In y table -> In y (fold_left (fun t name => insert_genre name t) names table).
Proof.
  revert table. induction names as [|n names IH]; simpl; intros table Hy; [done|].
  apply IH. unfold insert_genre.
  destruct (existsb _ table); [done|]. apply in_or_app. by left.
Qed.

Lemma fold_insert_genre_covered_id (names : list string) (table : list (Z * string)) :
  (forall n, In n names -> existsb (fun g => String.eqb (snd g) n) table = true) ->
  fold_left (fun t name => insert_genre name t) names table = table.
Proof.
  induction names as [|n names IH]; simpl; intros Hc; [done|].
  unfold insert_genre at 2. rewrite (Hc n) by (by left).
  apply IH. intros y Hy. apply Hc. by right.
Qed.

Lemma fold_insert_genre_covers (names : list string) (table : list (Z * string)) n :
  In n names ->
  existsb (fun g => String.eqb (snd g) n)
    (fold_left (fun t name => insert_genre name t) names table) = true.
Proof.
  revert table. induction names as [|y names IH]; simpl; intros table Hn; [done|].
  destruct Hn as [->|Hn]; [|by apply IH].
  apply existsb_exists.
  assert (exists g, In g (insert_genre n table) /\ String.eqb (snd g) n = true)
    as (g & Hg & Hk).
  { unfold insert_genre. destruct (existsb _ table) eqn:He.
    - by apply existsb_exists in He.
    - eexists (_, n). split; [apply in_or_app; right; by left|]. apply String.eqb_refl. }
  exists g. split; [|done]. by apply fold_insert_genre_incl.
Qed.

(** X17: loading the same CSV a second time changes nothing: every insert
    of upload_data.py is ON CONFLICT DO NOTHING. *)
Theorem upload_data_idempotent (db : Database) (csv : list CsvRow) :
  upload_data (upload_data db csv) csv = upload_data db csv.
Proof.
  unfold upload_data. simpl.
  set (names := List.filter _ (flat_map _ csv)).
  rewrite (fold_insert_genre_covered_id names (fold_left _ names (Genre db)))
    by (intros n Hn; by apply fold_insert_genre_covers).
  f_equal; apply insert_all_idem.
  - apply Z.eqb_refl.
  - intros x. apply Z.eqb_refl.
  - intros x. by rewrite !Z.eqb_refl.
  - intros x. by rewrite !Z.eqb_refl.
Qed.

Lemma existsb_genre_dict (table : list (Z * string)) (name : string) :
  existsb (fun g => String.eqb (snd g) name) table = true ->
  exists gid, genre_dict table name = Some gid /\ In (gid, name) table.
Proof.
  intros He. unfold genre_dict.
  destruct (List.find _ (rev table)) as [[gid n]|] eqn:Hf.
  - apply find_some in Hf as [Hin Hn]. simpl in Hn. apply String.eqb_eq in Hn. subst n.
    exists gid. split; [done|]. by apply in_rev.
  - apply existsb_exists in He as (g & Hg & Hn).
    eapply find_none in Hf; [|apply in_rev in Hg; exact Hg]. simpl in Hf. congruence.
Qed.

Lemma insert_all_has {A} (key_eq : A -> A -> bool) (xs table : list A) (x : A) :
  (forall x, key_eq x x = true) -> In x xs ->
  exists y, In y (insert_all key_eq xs table) /\ key_eq x y = true.
Proof.
  intros Hrefl Hx.
  pose proof (insert_all_covers key_eq xs table Hrefl x Hx) as H.
  by apply existsb_exists in H.
Qed.

Lemma upload_data_line (db : Database) (csv : list CsvRow) (row : CsvRow) :
  In row csv ->
  In (csv_userId row) (User (upload_data db csv)) /\
  (exists t, In (csv_movieId row, t) (Movie (upload_data db csv))) /\
  (exists v, In (csv_userId row, csv_movieId row, v) (Rating (upload_data db csv))) /\
  (forall genre, In genre (split_on "|" (csv_genres row)) ->
     genre <> no_genres_listed ->
     exists gid, In (gid, genre) (Genre (upload_data db csv)) /\
                 In (csv_movieId row, gid) (Movie_Genre (upload_data db csv))) /\
  (forall u, In u (User db) -> In u (User (upload_data db csv))) /\
  (forall r, In r (Rating db) -> In r (Rating (upload_data db csv))).
Proof.
  intros Hrow. unfold upload_data. simpl.
  set (names := List.filter _ (flat_map _ csv)).
  set (genre_table := fold_left _ names (Genre db)).
  split; [|split; [|split; [|split; [|split]]]].
  - destruct (insert_all_has Z.eqb (map csv_userId csv) (User db) (csv_userId row))
      as (y & Hy & Hk); [apply Z.eqb_refl | by apply in_map |].
    apply Z.eqb_eq in Hk. by subst.
  - destruct (insert_all_has (fun a b : Z * string => Z.eqb (fst a) (fst b))
                (map (fun row => (csv_movieId row, csv_title row)) csv) (Movie db)
                (csv_movieId row, csv_title row)) as ([m t] & Hy & Hk).
    { intros x. apply Z.eqb_refl. }
    { apply in_map_iff. by exists row. }
    simpl in Hk. apply Z.eqb_eq in Hk. subst m. by exists t.
  - destruct (insert_all_has
                (fun a b : Z * Z * Q => Z.eqb (fst (fst a)) (fst (fst b))
                                        && Z.eqb (snd (fst a)) (snd (fst b)))
                (map (fun row => (csv_userId row, csv_movieId row, csv_rating row)) csv)
                (Rating db) (csv_userId row, csv_movieId row, csv_rating row))
      as ([[u m] v] & Hy & Hk).
    { intros x. by rewrite !Z.eqb_refl. }
    { apply in_map_iff. by exists row. }
    simpl in Hk. apply andb_prop in Hk as [H1 H2].
    apply Z.eqb_eq in H1, H2. subst. by exists v.
  - intros genre Hg Hne.
    assert (In genre names) as Hn.
    { subst names. apply filter_In. split.
      - apply in_flat_map. by exists row.
      - apply negb_true_iff. by apply String.eqb_neq. }
    destruct (existsb_genre_dict genre_table genre) as (gid & Hd & Hin).
    { by apply fold_insert_genre_covers. }
    exists gid. split; [done|].
    destruct (insert_all_has
                (fun a b : Z * Z => Z.eqb (fst a) (fst b) && Z.eqb (snd a) (snd b))
                (movie_genre_pairs csv genre_table) (Movie_Genre db)
                (csv_movieId row, gid)) as ([m gid'] & Hy & Hk).
    { intros x. by rewrite !Z.eqb_refl. }
    { unfold movie_genre_pairs. apply in_flat_map. exists row. split; [done|].
      apply in_flat_map. exists genre. split; [done|].
      apply String.eqb_neq in Hne. rewrite Hne, Hd. by left. }
    simpl in Hk. apply andb_prop in Hk as [H1 H2].
    apply Z.eqb_eq in H1, H2. by subst.
  - intros u. apply insert_all_incl.
  - intros r. apply insert_all_incl.
Qed.

(** X18: after the load, the store has the user, the movie and a rating of
    the (user, movie) pair of every CSV line, and, for every genre of the
    line other than the token '(no genres listed)', the genre and its link
    to the movie; rows that were in the store before are kept. *)
Theorem upload_data_stores_every_line (db : Database) (csv : list CsvRow) (row : CsvRow) :
  In row csv ->
  In (csv_userId row) (User (upload_data db csv)) /\
  (exists t, In (csv_movieId row, t) (Movie (upload_data db csv))) /\
  (exists v, In (csv_userId row, csv_movieId row, v) (Rating (upload_data db csv))) /\
  (forall genre, In genre (split_on "|" (csv_genres row)) ->
     genre <> no_genres_listed ->
     exists gid, In (gid, genre) (Genre (upload_data db csv)) /\
                 In (csv_movieId row, gid) (Movie_Genre (upload_data db csv))) /\
  (forall u, In u (User db) -> In u (User (upload_data db csv))) /\
  (forall r, In r (Rating db) -> In r (Rating (upload_data db csv))).
Proof. apply upload_data_line. Qed.

Lemma unique_ratings_key_unique (table : list (Z * Z * Q)) :
  (forall u m v1 v2, In (u, m, v1) table -> In (u, m, v2) table -> v1 = v2) <->
  key_unique (fun a b : Z * Z * Q => Z.eqb (fst (fst a)) (fst (fst b))
                                     && Z.eqb (snd (fst a)) (snd (fst b))) table.
Proof.
  split.
  - intros Hu [[u1 m1] v1] [[u2 m2] v2] H1 H2 Hk. simpl in Hk.
    apply andb_prop in Hk as [Hu' Hm']. apply Z.eqb_eq in Hu', Hm'. subst.
    by rewrite (Hu _ _ _ _ H1 H2).
  - intros Hk u m v1 v2 H1 H2.
    assert ((u, m, v1) = (u, m, v2)) as [= ->]; [|done].
    apply Hk; try done. simpl. by rewrite !Z.eqb_refl.
Qed.

Lemma unique_movies_key_unique (table : list (Z * string)) :
  (forall m t1 t2, In (m, t1) table -> In (m, t2) table -> t1 = t2) <->
  key_unique (fun a b : Z * string => Z.eqb (fst a) (fst b)) table.
Proof.
  split.
  - intros Hu [m1 t1] [m2 t2] H1 H2 Hk. simpl in Hk.
    apply Z.eqb_eq in Hk. subst. by rewrite (Hu _ _ _ H1 H2).
  - intros Hk m t1 t2 H1 H2.
    assert ((m, t1) = (m, t2)) as [= ->]; [|done].
    apply Hk; try done. simpl. apply Z.eqb_refl.
Qed.

Lemma upload_data_unique (db : Database) (csv : list CsvRow) :
  unique_ratings db -> unique_movies db ->
  unique_ratings (upload_data db csv) /\ unique_movies (upload_data db csv).
Proof.
  unfold unique_ratings, unique_movies. intros Hr Hm. split.
  - apply unique_ratings_key_unique. simpl. apply insert_all_key_unique.
    + intros x y. by rewrite (Z.eqb_sym (fst (fst x))), (Z.eqb_sym (snd (fst x))).
    + by apply unique_ratings_key_unique.
  - apply unique_movies_key_unique. simpl. apply insert_all_key_unique.
    + intros x y. apply Z.eqb_sym.
    + by apply unique_movies_key_unique.
Qed.

(** X19: the loader keeps the keys of the store unique: when the store had
    one value per (user, movie) and one title per movie before the load,
    it has so afterwards, and the rating feed of the loaded store has one
    row per (user, movie). *)
Theorem upload_data_keeps_keys_unique (db : Database) (csv : list CsvRow) :
  unique_ratings db -> unique_movies db ->
  unique_ratings (upload_data db csv) /\ unique_movies (upload_data db csv) /\
  List.NoDup (map feed_key (query (upload_data db csv))).
Proof.
  intros Hr Hm. destruct (upload_data_unique db csv Hr Hm) as [Hr' Hm'].
  split; [done|]. split; [done|]. by apply query_keys_NoDup.
Qed.

(** X20: a CSV line with a genre other than the token '(no genres listed)'
    reaches the rating feed of the loaded store, as a row for its user and
    its movie. *)
Theorem csv_line_with_genre_reaches_feed (db : Database) (csv : list CsvRow)
    (row : CsvRow) (genre : string) :
  In row csv ->
  In genre (split_on "|" (csv_genres row)) -> genre <> no_genres_listed ->
  exists frow, In frow (query (upload_data db csv)) /\
    user_id frow = csv_userId row /\ movie_id frow = csv_movieId row.
Proof.
  intros Hrow Hg Hne.
  destruct (upload_data_line db csv row Hrow) as (_ & [t Ht] & [v Hv] & Hgen & _).
  destruct (Hgen genre Hg Hne) as (gid & Hgid & Hmg).
  destruct (query_has_rating _ _ _ _ _ _ _ Hv Ht Hmg Hgid)
    as (frow & Hf & Hu & Hm & _).
  exists frow. done.
Qed.

(** ** The rating history of a user (get_ratings_by_user) *)

Lemma In_or_flat_map {A B} (a : B) (f : A -> list B) (l : list A) (x : B) :
  In x (match l with [] => [a] | p :: l' => flat_map f (p :: l') end) <->
  (l = [] /\ x = a) \/ In x (flat_map f l).
Proof.
  destruct l as [|p l]; [simpl; intuition congruence|].
  split; [by right|]. by intros [[? _]|H].
Qed.

Lemma In_or_map {A B} (a : B) (h : A -> B) (l : list A) (x : B) :
  In x (match l with [] => [a] | p :: l' => map h (p :: l') end) <->
  (l = [] /\ x = a) \/ In x (map h l).
Proof.
  destruct l as [|p l]; [simpl; intuition congruence|].
  split; [by right|]. by intros [[? _]|H].
Qed.

Lemma In_joined_left (db : Database) (user : Z) (x : Z * Z * Q * string * option string) :
  In x (Crud.joined_left db user) ->
  fst (fst (fst (fst x))) = user /\
  In (fst (fst x)) (Rating db) /\
  In (snd (fst (fst (fst x))), snd (fst x)) (Movie db) /\
  (forall name, snd x = Some name ->
     exists gid, In (snd (fst (fst (fst x))), gid) (Movie_Genre db) /\
                 In (gid, name) (Genre db)).
Proof.
  unfold Crud.joined_left. intros H.
  apply in_flat_map in H as ([[u m] v] & Hr & H).
  destruct (Z.eqb_spec u user) as [->|]; [|done].
  apply in_flat_map in H as ([mid t] & Hm & H). cbn [fst snd] in H.
  destruct (Z.eqb_spec mid m) as [->|]; [|done].
  apply In_or_flat_map in H as [[_ ->]|H]; [simpl; repeat split; done|].
  apply in_flat_map in H as ([mm gid] & Hmg & H).
  apply filter_In in Hmg as [Hmg Hmm]. cbn [fst snd] in Hmm, H.
  apply Z.eqb_eq in Hmm. subst mm.
  apply In_or_map in H as [[_ ->]|H]; [simpl; repeat split; done|].
  apply in_map_iff in H as ([gid' n] & <- & Hg).
  apply filter_In in Hg as [Hg Hid]. cbn [fst snd] in Hid.
  apply Z.eqb_eq in Hid. subst gid'.
  simpl. repeat split; try done. intros name [= <-]. eauto.
Qed.

Lemma joined_left_has (db : Database) (user m : Z) (v : Q) (t : string) :
  In (user, m, v) (Rating db) -> In (m, t) (Movie db) ->
  exists name, In (user, m, v, t, name) (Crud.joined_left db user).
Proof.
  intros Hr Hm. unfold Crud.joined_left.
  set (links := List.filter (fun mg : Z * Z => Z.eqb (fst mg) m) (Movie_Genre db)).
  set (f := fun mg : Z * Z =>
    match List.filter (fun g : Z * string => Z.eqb (fst g) (snd mg)) (Genre db) with
    | [] => [(user, m, v, t, @None string)]
    | p :: l' => map (fun g : Z * string => (user, m, v, t, Some (snd g))) (p :: l')
    end).
  assert (exists name,
    In (user, m, v, t, name)
       (match links with
        | [] => [(user, m, v, t, None)]
        | p :: l' => flat_map f (p :: l')
        end)) as [name Hname].
  { destruct links as [|l0 ls] eqn:Hl.
    - eexists. by left.
    - assert (exists name, In (user, m, v, t, name) (f l0)) as [name Hn].
      { subst f. cbv beta.
        destruct (List.filter _ (Genre db)) as [|g0 gs]; eexists; by left. }
      exists name. apply in_flat_map. exists l0. split; [by left | done]. }
  exists name.
  apply in_flat_map. exists (user, m, v). split; [done|]. rewrite Z.eqb_refl.
  apply in_flat_map. exists (m, t). split; [done|]. cbn [fst snd].
  rewrite Z.eqb_refl. exact Hname.
Qed.

Lemma add_to_history_cases key name groups k agg :
  In (k, agg) (Crud.add_to_history key name groups) ->
  In (k, agg) groups
  \/ (exists agg0, In (k, agg0) groups /\ same_group k key = true /\
                   agg = Crud.string_agg agg0 name)
  \/ (k = key /\ agg = name).
Proof.
  induction groups as [|[k0 a0] rest IH]; simpl.
  - intros [[= <- <-]|[]]. right. right. done.
  - destruct (same_group k0 key) eqn:Hk0.
    + intros [[= <- <-]|Hin].
      * right. left. exists a0. split; [by left | done].
      * left. by right.
    + intros [[= <- <-]|Hin]; [left; by left|].
      destruct (IH Hin) as [H|[(agg0 & H1 & H2 & H3)|H]].
      * left. by right.
      * right. left. exists agg0. split; [by right | done].
      * right. right. done.
Qed.

Lemma add_to_history_has key name groups :
  exists k agg, In (k, agg) (Crud.add_to_history key name groups) /\
                same_group k key = true.
Proof.
  induction groups as [|[k' a'] rest IH]; simpl.
  - exists key, name. split; [by left | apply same_group_refl].
  - destruct (same_group k' key) eqn:Hs.
    + eexists k', _. split; [by left | done].
    + destruct IH as (k & agg & Hin & Hk). exists k, agg. split; [by right | done].
Qed.

Lemma add_to_history_keeps key name groups k agg :
  In (k, agg) groups -> exists agg', In (k, agg') (Crud.add_to_history key name groups).
Proof.
  induction groups as [|[k' a'] rest IH]; simpl; [done|].
  intros [[= -> ->]|Hin].
  - destruct (same_group k key); eexists; by left.
  - destruct (same_group k' key).
    + eexists. right. exact Hin.
    + destruct (IH Hin) as [agg' H]. eexists. right. exact H.
Qed.

Lemma fold_history_keeps rows acc k agg :
  In (k, agg) acc ->
  exists agg',
    In (k, agg')
      (fold_left (fun groups row => Crud.add_to_history (fst row) (snd row) groups) rows acc).
Proof.
  revert acc agg. induction rows as [|[k' g'] rows IH]; simpl; intros acc agg Hin.
  - eauto.
  - destruct (add_to_history_keeps k' g' acc k agg Hin) as [agg' H]. by eapply IH.
Qed.

Lemma fold_history_has rows acc key name :
  In (key, name) rows ->
  exists k agg,
    In (k, agg)
      (fold_left (fun groups row => Crud.add_to_history (fst row) (snd row) groups) rows acc)
    /\ same_group k key = true.
Proof.
  revert acc. induction rows as [|[k' g'] rows IH]; simpl; intros acc Hin; [done|].
  destruct Hin as [[= -> ->]|Hin]; [|by apply IH].
  destruct (add_to_history_has key name acc) as (k & agg & H & Hk).
  destruct (fold_history_keeps rows _ k agg H) as [agg' H'].
  exists k, agg'. done.
Qed.

(** Every group of the history comes from a joined row with its key, and a
    group whose joined rows all carry a NULL name aggregates to NULL. *)
Lemma fold_history_origin rows (P : Z * Z * Q * string -> Prop) :
  (forall k k', same_group k k' = true -> P k -> P k') ->
  (forall row, In row rows -> P (fst row) -> snd row = None) ->
  forall acc,
    (forall k agg, In (k, agg) acc -> P k -> agg = None) ->
    forall k agg,
      In (k, agg)
        (fold_left (fun groups row => Crud.add_to_history (fst row) (snd row) groups) rows acc) ->
      ((exists agg0, In (k, agg0) acc) \/ (exists name, In (k, name) rows)) /\
      (P k -> agg = None).
Proof.
  intros HP. induction rows as [|[key name] rows IH]; simpl; intros Hrows acc Hacc k agg Hin.
  - split; [left; eauto | by apply Hacc].
  - destruct (IH (fun row Hr => Hrows row (or_intror Hr))
               (Crud.add_to_history key name acc)) with (k := k) (agg := agg)
      as [Horigin Hnone]; [|done|].
    + intros k1 agg1 H1 HP1.
      apply add_to_history_cases in H1 as [H1|[(agg0 & H1 & H2 & ->)|(-> & ->)]].
      * by eapply Hacc.
      * rewrite (Hacc _ _ H1 HP1).
        assert (name = None) as ->
          by exact (Hrows (key, name) (or_introl eq_refl) (HP _ _ H2 HP1)).
        done.
      * exact (Hrows (key, name) (or_introl eq_refl) HP1).
    + split; [|done].
      destruct Horigin as [[agg0 H0]|[name' H0]].
      * apply add_to_history_cases in H0 as [H0|[(agg1 & H1 & _)|(-> & _)]].
        -- left. eauto.
        -- left. eauto.
        -- right. exists name. by left.
      * right. exists name'. by right.
Qed.

Lemma history_rows (db : Database) (user : Z) :
  (forall m v t, In (user, m, v) (Rating db) -> In (m, t) (Movie db) ->
     exists h, In h (Crud.get_ratings_by_user user db) /\
       Crud.h_user_id h = user /\ Crud.h_movie_id h = m /\
       (Crud.h_rating h == v)%Q /\ Crud.h_title h = t) /\
  (forall h, In h (Crud.get_ratings_by_user user db) ->
     Crud.h_user_id h = user /\
     In (user, Crud.h_movie_id h, Crud.h_rating h) (Rating db) /\
     ((forall gid, ~ In (Crud.h_movie_id h, gid) (Movie_Genre db)) ->
      Crud.h_genres h = None)).
Proof.
  unfold Crud.get_ratings_by_user. split.
  - intros m v t Hr Hm.
    destruct (joined_left_has db user m v t Hr Hm) as [name Hj].
    destruct (fold_history_has _ [] _ _ Hj) as (k & agg & Hin & Hk).
    apply same_group_spec in Hk as (H1 & H2 & H3 & H4).
    destruct k as [[[u' m'] v'] t']. simpl in *. subst.
    exists (Crud.to_history_row (user, m, v', t, agg)). split; [|done].
    apply in_map_iff. by eexists.
  - intros h Hh. apply in_map_iff in Hh as ([[[[u m] v] t] agg] & <- & Hin). simpl.
    destruct (fold_history_origin (Crud.joined_left db user)
                (fun k => forall gid, ~ In (snd (fst (fst k)), gid) (Movie_Genre db)))
      with (acc := @nil (Z * Z * Q * string * option string)) (k := (u, m, v, t))
           (agg := agg) as [Horigin Hnone]; try done.
    + intros k k' Hk HP gid. apply same_group_spec in Hk as (_ & <- & _). apply HP.
    + intros [k name] Hrow HP. simpl in *.
      destruct name as [name|]; [|done].
      apply In_joined_left in Hrow as (_ & _ & _ & Hname).
      destruct (Hname name eq_refl) as (gid & Hmg & _). by destruct (HP gid).
    + destruct Horigin as [[agg0 []]|[name Hj]].
      apply In_joined_left in Hj as (Hu & Hr & _). simpl in *. subst u.
      repeat split; done.
Qed.

(** X21: the rating history of a user has a row for every rating of the
    user whose movie is in the Movie table, with or without genres, and
    only rows of ratings of that user; the rows of a movie without genre
    link carry a NULL genre string. *)
Theorem history_has_every_rating (db : Database) (user : Z) :
  (forall m v t, In (user, m, v) (Rating db) -> In (m, t) (Movie db) ->
     exists h, In h (Crud.get_ratings_by_user user db) /\
       Crud.h_user_id h = user /\ Crud.h_movie_id h = m /\
       (Crud.h_rating h == v)%Q /\ Crud.h_title h = t) /\
  (forall h, In h (Crud.get_ratings_by_user user db) ->
     Crud.h_user_id h = user /\
     In (user, Crud.h_movie_id h, Crud.h_rating h) (Rating db) /\
     ((forall gid, ~ In (Crud.h_movie_id h, gid) (Movie_Genre db)) ->
      Crud.h_genres h = None)).
Proof. apply history_rows. Qed.

(** ** GET /recommend/{user_id} *)

Lemma user_check (user : Z) (db : Database) :
  existsb (Z.eqb user) (Crud.get_all_users db) = true <-> In user (User db).
Proof.
  unfold Crud.get_all_users. rewrite existsb_exists. split.
  - intros (x & Hx & Heq). apply Z.eqb_eq in Heq. by subst.
  - intros H. exists user. split; [done | apply Z.eqb_refl].
Qed.

Section RecommendRoute.
Context {lib : Surprise} {py : SetOrder}.

(** While the process serves requests, a call leaves globals and world as
    they were and either returns a list or rejects the user. *)
Lemma get_recommendations_read_only_aux (w : World) (g : Globals) (user top_n : Z) :
  reachable g ->
  globals_after (get_recommendations w g user top_n) = g /\
  world_after (get_recommendations w g user top_n) = w /\
  ((exists recs, returned (get_recommendations w g user top_n) = Ok recs) \/
   returned (get_recommendations w g user top_n) = Raise UserNotFound).
Proof.
  intros Hr. apply reachable_ready in Hr as [[a Ha] (df & _ & Hmi & Hrm & Hcov)].
  unfold get_recommendations. rewrite Ha.
  destruct (recommend_with_globals a g w user top_n) as [-> ->].
  { intros mi. rewrite Hmi. by intros [= <-]. }
  split; [done|]. split; [done|].
  rewrite (recommend_with_returned a g w user top_n _ _ Hrm Hmi).
  destruct (loc (pivot_table df) user); [left; by eexists | by right].
Qed.

(** X22: GET /recommend/{user_id} while the process serves requests and
    the store is reachable.  The answer is 404 for a user who is not in
    the User table; the non-personalized list (at most five movies, each
    with rating 3.5) for a user without rating history, without consulting
    the model; otherwise the list of [get_recommendations] with every item
    flagged as personalized, or 404 when the user is absent from the
    rating matrix.  It is never a 500, and the globals and the world are
    left as they were. *)
Theorem recommend_route_responses (w : World) (g : Globals) (db : Database) (user : Z) :
  reachable g -> store w = Some db ->
  Api.globals_served (Api.recommend w g user) = g /\
  Api.world_served (Api.recommend w g user) = w /\
  match Api.response (Api.recommend w g user) with
  | Api.HTTPException code detail =>
      code = 404 /\
      ((~ In user (User db) /\
        detail = Api.Message "Usuario no encontrado en la base de datos")
       \/
       (In user (User db) /\ Crud.get_ratings_by_user user db <> [] /\
        returned (get_recommendations w g user 5) = Raise UserNotFound /\
        detail = Api.Message "Usuario no encontrado en el dataset de ratings"))
  | Api.Success body =>
      In user (User db) /\ Api.body_userId body = user /\
      Api.ratingsHistory body = Crud.get_ratings_by_user user db /\
      ((Crud.get_ratings_by_user user db = [] /\ Api.personalized body = false /\
        Api.recommendations body
        = map (Api.non_personalized_rec db) (firstn 5 (Movie db)) /\
        (length (Api.recommendations body) <= 5)%nat)
       \/
       (Crud.get_ratings_by_user user db <> [] /\ Api.personalized body = true /\
        exists recs, returned (get_recommendations w g user 5) = Ok recs /\
          Api.recommendations body
          = map (fun rec => {| Api.item := rec; Api.non_personalized := false |}) recs))
  end.
Proof.
  intros Hr Hstore. unfold Api.recommend. rewrite Hstore.
  destruct (existsb (Z.eqb user) (Crud.get_all_users db)) eqn:Huser; simpl.
  - apply user_check in Huser.
    destruct (Crud.get_ratings_by_user user db) as [|h hs] eqn:Hh; simpl.
    + repeat split; try done. left. repeat split; try done.
      rewrite length_map, length_firstn. lia.
    + destruct (get_recommendations_read_only_aux w g user 5 Hr) as (-> & -> & Hret).
      split; [done|]. split; [done|].
      destruct Hret as [[recs ->]| ->]; simpl.
      * repeat split; try done. right. repeat split; try done. by exists recs.
      * split; [done|]. right. done.
  - repeat split; try done. left. split; [|done].
    intros Hin. apply user_check in Hin. congruence.
Qed.

End RecommendRoute.

(** ** Statements on the Rating table *)

Lemma same_rating_key_spec (u m : Z) (r : Z * Z * Q) :
  Crud.same_rating_key u m r = true <-> fst (fst r) = u /\ snd (fst r) = m.
Proof.
  unfold Crud.same_rating_key. by rewrite andb_true_iff, !Z.eqb_eq.
Qed.

Lemma In_update_rating (db : Database) (u m : Z) (v : Q) (x : Z * Z * Q) :
  In x (Rating (Crud.update_rating u m v db)) <->
  (x = (u, m, v) /\ exists v0, In (u, m, v0) (Rating db))
  \/ (In x (Rating db) /\ Crud.same_rating_key u m x = false).
Proof.
  simpl. rewrite in_map_iff. split.
  - intros (r & <- & Hr). destruct (Crud.same_rating_key u m r) eqn:Hk.
    + left. split; [done|]. apply same_rating_key_spec in Hk as [<- <-].
      exists (snd r). by destruct r as [[? ?] ?].
    + right. done.
  - intros [[-> [v0 H0]]|[Hx Hk]].
    + exists (u, m, v0). split; [|done].
      assert (Crud.same_rating_key u m (u, m, v0) = true) as ->; [|done].
      apply same_rating_key_spec. done.
    + exists x. by rewrite Hk.
Qed.

Lemma In_create_rating (db : Database) (u m : Z) (v : Q) (x : Z * Z * Q) :
  In x (Rating (Crud.create_rating u m v db)) <->
  x = (u, m, v) \/ (In x (Rating db) /\ Crud.same_rating_key u m x = false).
Proof.
  unfold Crud.create_rating.
  destruct (existsb (Crud.same_rating_key u m) (Rating db)) eqn:He.
  - rewrite In_update_rating. split; [tauto|].
    intros [->|H]; [left|tauto]. split; [done|].
    apply existsb_exists in He as ([[u0 m0] v0] & H0 & Hk).
    apply same_rating_key_spec in Hk as [<- <-]. by exists v0.
  - simpl. rewrite in_app_iff. simpl. split.
    + intros [H|[<-|[]]]; [right|by left]. split; [done|].
      destruct (Crud.same_rating_key u m x) eqn:Hk; [|done].
      assert (existsb (Crud.same_rating_key u m) (Rating db) = true) as H'
        by (apply existsb_exists; by exists x).
      congruence.
    + intros [->|[H _]]; [right; by left | by left].
Qed.

Lemma create_rating_tables (db : Database) (u m : Z) (v : Q) :
  User (Crud.create_rating u m v db) = User db /\
  Movie (Crud.create_rating u m v db) = Movie db /\
  Genre (Crud.create_rating u m v db) = Genre db /\
  Movie_Genre (Crud.create_rating u m v db) = Movie_Genre db.
Proof.
  unfold Crud.create_rating. destruct (existsb _ (Rating db)); done.
Qed.

(** X23: the upsert of create_rating.  Afterwards the table holds the new
    value for the (user, movie) pair and no other value for it, every row
    of another pair is as before, the other tables are untouched, and a
    table with one value per pair stays so. *)
Theorem create_rating_upserts (db : Database) (u m : Z) (v : Q) :
  In (u, m, v) (Rating (Crud.create_rating u m v db)) /\
  (forall v', In (u, m, v') (Rating (Crud.create_rating u m v db)) -> v' = v) /\
  (forall u' m' v', (u', m') <> (u, m) ->
     (In (u', m', v') (Rating (Crud.create_rating u m v db))
      <-> In (u', m', v') (Rating db))) /\
  (User (Crud.create_rating u m v db) = User db /\
   Movie (Crud.create_rating u m v db) = Movie db /\
   Genre (Crud.create_rating u m v db) = Genre db /\
   Movie_Genre (Crud.create_rating u m v db) = Movie_Genre db) /\
  (unique_ratings db -> unique_ratings (Crud.create_rating u m v db)).
Proof.
  assert (forall v', In (u, m, v') (Rating (Crud.create_rating u m v db)) -> v' = v) as Hone.
  { intros v' H. apply In_create_rating in H as [[= ->]|[_ Hk]]; [done|].
    assert (Crud.same_rating_key u m (u, m, v') = true) as Ht
      by (by apply same_rating_key_spec).
    congruence. }
  assert (forall u' m' v', (u', m') <> (u, m) ->
     (In (u', m', v') (Rating (Crud.create_rating u m v db))
      <-> In (u', m', v') (Rating db))) as Hother.
  { intros u' m' v' Hne. rewrite In_create_rating. split.
    - intros [[= -> -> _]|[H _]]; done.
    - intros H. right. split; [done|].
      destruct (Crud.same_rating_key u m (u', m', v')) eqn:Hk; [|done].
      apply same_rating_key_spec in Hk as [<- <-]. done. }
  split; [apply In_create_rating; by left|].
  split; [done|]. split; [done|]. split; [apply create_rating_tables|].
  intros Hu u' m' v1 v2 H1 H2.
  destruct (decide ((u', m') = (u, m))) as [[= -> ->]|Hne].
  - by rewrite (Hone _ H1), (Hone _ H2).
  - apply (Hother _ _ _ Hne) in H1, H2. by eapply Hu.
Qed.

Lemma set_store_same (w : World) (db : Database) :
  store w = Some db -> Api.set_store w db = w.
Proof. destruct w. simpl. by intros ->. Qed.

Lemma map_id_on {A} (f : A -> A) (l : list A) :
  (forall x, In x l -> f x = x) -> map f l = l.
Proof.
  induction l as [|a l IH]; simpl; intros H; [done|].
  rewrite (H a) by (by left). f_equal. apply IH. intros x Hx. apply H. by right.
Qed.

Lemma filter_all {A} (f : A -> bool) (l : list A) :
  (forall x, In x l -> f x = true) -> List.filter f l = l.
Proof.
  induction l as [|a l IH]; simpl; intros H; [done|].
  rewrite (H a) by (by left). f_equal. apply IH. intros x Hx. apply H. by right.
Qed.

(** X24: PUT /ratings/ and DELETE /ratings/ for a (user, movie) pair that
    has no rating answer with success and change nothing: an UPDATE or a
    DELETE that matches no row is not an error. *)
Theorem modify_or_remove_missing_rating_is_silent (w : World) (db : Database)
    (u m : Z) (v : Q) :
  store w = Some db ->
  (forall v', ~ In (u, m, v') (Rating db)) ->
  Api.modify_rating w u m v = (w, Api.Success tt) /\
  Api.remove_rating w u m = (w, Api.Success tt).
Proof.
  intros Hstore Hno.
  assert (forall x, In x (Rating db) -> Crud.same_rating_key u m x = false) as Hk.
  { intros [[u0 m0] v0] Hx. destruct (Crud.same_rating_key u m (u0, m0, v0)) eqn:Hk; [|done].
    apply same_rating_key_spec in Hk as [<- <-]. by destruct (Hno v0). }
  unfold Api.modify_rating, Api.remove_rating, Api.run_statement. rewrite Hstore.
  assert (Crud.update_rating u m v db = db) as ->.
  { unfold Crud.update_rating. rewrite map_id_on; [by destruct db|].
    intros x Hx. by rewrite (Hk x Hx). }
  assert (Crud.delete_rating u m db = db) as ->.
  { unfold Crud.delete_rating. rewrite filter_all; [by destruct db|].
    intros x Hx. by rewrite (Hk x Hx). }
  by rewrite set_store_same.
Qed.

(** ** Users *)

Lemma max_id_bound (ids : list Z) (x : Z) :
  In x ids -> exists mx, Crud.max_id ids = Some mx /\ x <= mx.
Proof.
  destruct ids as [|a ids]; [done|]. simpl. intros Hin. eexists. split; [done|].
  revert a x Hin. induction ids as [|b ids IH]; simpl; intros a x Hin.
  - destruct Hin as [->|[]]. lia.
  - destruct Hin as [->|[->|Hin]].
    + specialize (IH x x (or_introl eq_refl)). lia.
    + specialize (IH x x (or_introl eq_refl)).
      assert (fold_right Z.max x ids <= Z.max x (fold_right Z.max a ids)); [|lia].
      clear. revert x a. induction ids as [|c ids IH]; simpl; intros; [lia|].
      specialize (IH x a). lia.
    + specialize (IH a x (or_intror Hin)). lia.
Qed.

(** X25: the id proposed by GET /users/next-id is 1 on an empty table and
    otherwise larger than every id in use, so that creating a user with it
    adds exactly that user; creating a user whose id is in use changes
    nothing. *)
Theorem next_user_id_is_fresh (db : Database) :
  (User db = [] -> Crud.get_next_user_id db = 1) /\
  (forall u, In u (User db) -> u < Crud.get_next_user_id db) /\
  User (Crud.create_user (Crud.get_next_user_id db) db)
  = User db ++ [Crud.get_next_user_id db] /\
  (forall u, In u (User db) -> Crud.create_user u db = db).
Proof.
  assert (forall u, In u (User db) -> u < Crud.get_next_user_id db) as Hfresh.
  { intros u Hu. unfold Crud.get_next_user_id.
    destruct (max_id_bound _ _ Hu) as (mx & -> & Hle). simpl. lia. }
  split; [|split; [done|split]].
  - intros Hnil. unfold Crud.get_next_user_id. by rewrite Hnil.
  - unfold Crud.create_user, insert_do_nothing. simpl.
    destruct (existsb _ (User db)) eqn:He; [|done].
    apply existsb_exists in He as (x & Hx & Heq). apply Z.eqb_eq in Heq. subst x.
    specialize (Hfresh _ Hx). lia.
  - intros u Hu. unfold Crud.create_user, insert_do_nothing.
    assert (existsb (Z.eqb u) (User db) = true) as ->.
    { apply existsb_exists. exists u. split; [done | apply Z.eqb_refl]. }
    by destruct db.
Qed.

(** ** Genre links *)

Lemma genre_id_of_None (db : Database) (name : string) :
  Crud.genre_id_of db name = None <-> forall gid, ~ In (gid, name) (Genre db).
Proof.
  unfold Crud.genre_id_of. split.
  - destruct (List.find _ (Genre db)) as [g|] eqn:Hf; [done|].
    intros _ gid Hin. eapply find_none in Hf; [|exact Hin]. simpl in Hf.
    by rewrite String.eqb_refl in Hf.
  - intros Hno. destruct (List.find _ (Genre db)) as [[gid n]|] eqn:Hf; [|done].
    apply find_some in Hf as [Hin Hn]. simpl in Hn. apply String.eqb_eq in Hn. subst n.
    by destruct (Hno gid).
Qed.

Lemma genre_id_of_Some (db : Database) (name : string) (gid : Z) :
  Crud.genre_id_of db name = Some gid -> In (gid, name) (Genre db).
Proof.
  unfold Crud.genre_id_of.
  destruct (List.find _ (Genre db)) as [[gid' n]|] eqn:Hf; [|done].
  intros [= <-]. apply find_some in Hf as [Hin Hn]. simpl in Hn.
  apply String.eqb_eq in Hn. by subst n.
Qed.

Lemma In_get_movie_genres_by_id (db : Database) (m : Z) (name : string) :
  In name (Crud.get_movie_genres_by_id m db) <->
  exists gid, In (m, gid) (Movie_Genre db) /\ In (gid, name) (Genre db).
Proof. apply In_movie_genre_names. Qed.

Lemma link_movie_to_genre_Ok (db db' : Database) (m : Z) (name : string) :
  Crud.link_movie_to_genre m name db = inr db' ->
  exists gid, In (gid, name) (Genre db) /\ In (m, gid) (Movie_Genre db') /\
    User db' = User db /\ Movie db' = Movie db /\ Genre db' = Genre db /\
    Rating db' = Rating db /\
    (forall mg, In mg (Movie_Genre db) -> In mg (Movie_Genre db')).
Proof.
  unfold Crud.link_movie_to_genre.
  destruct (Crud.genre_id_of db name) as [gid|] eqn:Hg; [|done].
  intros [= <-]. exists gid. simpl.
  split; [by apply genre_id_of_Some|].
  unfold insert_do_nothing.
  destruct (existsb _ (Movie_Genre db)) eqn:He.
  - split; [|done].
    apply existsb_exists in He as ([m' g'] & Hin & Hk). simpl in Hk.
    apply andb_prop in Hk as [H1 H2]. apply Z.eqb_eq in H1, H2. by subst.
  - split; [apply in_or_app; right; by left|].
    repeat split; try done. intros mg Hmg. apply in_or_app. by left.
Qed.

(** X26: POST /movie-genres/ answers 404 and changes nothing when no genre
    has the given name; otherwise it succeeds, the genre is among the
    genres of the movie afterwards, and linking the same pair again
    changes nothing. *)
Theorem add_movie_genre_links_or_404 (w : World) (db : Database) (m : Z) (name : string) :
  store w = Some db ->
  ((forall gid, ~ In (gid, name) (Genre db)) ->
   Api.add_movie_genre w m name
   = (w, Api.HTTPException 404 (Api.MessageWithDbError "" (Crud.GenreNotFound name)))) /\
  (forall gid, In (gid, name) (Genre db) ->
   exists db', Api.add_movie_genre w m name = (Api.set_store w db', Api.Success tt) /\
     In name (Crud.get_movie_genres_by_id m db') /\
     Crud.link_movie_to_genre m name db' = inr db').
Proof.
  intros Hstore. unfold Api.add_movie_genre. rewrite Hstore. split.
  - intros Hno. unfold Crud.link_movie_to_genre.
    by rewrite (proj2 (genre_id_of_None db name) Hno).
  - intros gid Hgid.
    destruct (Crud.link_movie_to_genre m name db) as [e|db'] eqn:Hlink.
    { unfold Crud.link_movie_to_genre in Hlink.
      destruct (Crud.genre_id_of db name) eqn:Hg; [done|].
      by destruct (proj1 (genre_id_of_None db name) Hg gid). }
    exists db'. split; [done|].
    destruct (link_movie_to_genre_Ok _ _ _ _ Hlink) as (gid0 & Hg0 & Hmg & _ & _ & Hgen & _).
    split.
    + apply In_get_movie_genres_by_id. exists gid0. rewrite Hgen. done.
    + unfold Crud.link_movie_to_genre in *.
      assert (Crud.genre_id_of db' name = Crud.genre_id_of db name) as Hsame.
      { unfold Crud.genre_id_of.
        destruct (Crud.genre_id_of db name); [|done].
        injection Hlink as <-. done. }
      rewrite Hsame.
      destruct (Crud.genre_id_of db name) as [gid1|] eqn:Hg1; [|done].
      injection Hlink as <-. simpl. f_equal. f_equal.
      unfold insert_do_nothing at 1.
      assert (existsb (fun b : Z * Z => Z.eqb m (fst b) && Z.eqb gid1 (snd b))
                (insert_do_nothing
                   (fun a b : Z * Z => Z.eqb (fst a) (fst b) && Z.eqb (snd a) (snd b))
                   (m, gid1) (Movie_Genre db)) = true) as He.
      { apply existsb_exists. exists (m, gid1). split; [|simpl; by rewrite !Z.eqb_refl].
        unfold insert_do_nothing.
        destruct (existsb _ (Movie_Genre db)) eqn:He'.
        - apply existsb_exists in He' as ([m' g'] & Hin & Hk). simpl in Hk.
          apply andb_prop in Hk as [H1 H2]. apply Z.eqb_eq in H1, H2. by subst.
        - apply in_or_app. right. by left. }
      simpl in He. simpl. by rewrite He.
Qed.

(** X27: linking a genre repairs a dropped rating.  After a genre has been
    linked to a movie, every rating of that movie is in the rating feed,
    so that the next retrain sees it. *)
Theorem link_brings_ratings_into_feed (db db' : Database) (u m : Z) (v : Q)
    (t name : string) :
  In (u, m, v) (Rating db) -> In (m, t) (Movie db) ->
  Crud.link_movie_to_genre m name db = inr db' ->
  exists row, In row (query db') /\ user_id row = u /\ movie_id row = m /\
              (rating row == v)%Q /\ title row = t.
Proof.
  intros Hr Hm Hlink.
  destruct (link_movie_to_genre_Ok _ _ _ _ Hlink)
    as (gid & Hg & Hmg & _ & Hmovie & Hgenre & Hrating & _).
  apply (query_has_rating db' u m gid v t name).
  - by rewrite Hrating.
  - by rewrite Hmovie.
  - done.
  - by rewrite Hgenre.
Qed.

(** ** Routes together *)

Section RoutesTogether.
Context {lib : Surprise} {py : SetOrder}.

(** X28: a user whose ratings are all of movies without genre link.  With
    globals built from the current store, GET /recommend answers 404
    "not found in the ratings dataset" for such a user, although the user
    is in the User table and has a rating history. *)
Theorem genreless_only_user_gets_404 (w : World) (g : Globals) (db : Database)
    (user m : Z) (v : Q) (t : string) :
  reachable g -> store w = Some db ->
  rating_matrix g = Some (pivot_table (query db)) ->
  In user (User db) ->
  In (user, m, v) (Rating db) -> In (m, t) (Movie db) ->
  (forall m' v' gid, In (user, m', v') (Rating db) -> ~ In (m', gid) (Movie_Genre db)) ->
  Api.response (Api.recommend w g user)
  = Api.HTTPException 404 (Api.Message "Usuario no encontrado en el dataset de ratings").
Proof.
  intros Hr Hstore Hrm Huser Hrating Hmovie Hno.
  unfold Api.recommend. rewrite Hstore.
  apply user_check in Huser. rewrite Huser. simpl.
  destruct (proj1 (history_rows db user) m v t Hrating Hmovie) as (h & Hh & _).
  destruct (Crud.get_ratings_by_user user db) as [|h0 hs]; [done|]. simpl.
  apply reachable_ready in Hr as [[a Ha] (df & _ & Hmi & _ & _)].
  unfold get_recommendations. rewrite Ha.
  rewrite (recommend_with_returned a g w user 5 _ _ Hrm Hmi).
  destruct (loc (pivot_table (query db)) user) as [s|] eqn:Hloc; [|done].
  assert (In user (index (pivot_table (query db)))) as Hin.
  { destruct (in_dec Z.eq_dec user (index (pivot_table (query db)))) as [H|H]; [done|].
    apply loc_None in H. congruence. }
  apply In_index_pivot_table in Hin as (row & Hrow & Hu).
  apply query_row_origin in Hrow as [Hrat [gid Hmg]]. rewrite Hu in Hrat.
  by destruct (Hno _ _ gid Hrat).
Qed.

(** X29: rate, retrain, recommend.  After POST /ratings/ for a user of the
    User table and a movie that has a genre, and a POST /retrain that
    succeeds, GET /recommend answers that user with a personalized
    list. *)
Theorem rate_retrain_then_personalized (w : World) (g : Globals) (db : Database)
    (user m gid : Z) (v : Q) (t name : string) :
  store w = Some db -> In user (User db) ->
  In (m, t) (Movie db) -> In (m, gid) (Movie_Genre db) -> In (gid, name) (Genre db) ->
  Api.response (Api.retrain (fst (Api.add_rating w user m v)) g) = Api.Success tt ->
  exists body,
    Api.response
      (Api.recommend (Api.world_served (Api.retrain (fst (Api.add_rating w user m v)) g))
                     (Api.globals_served (Api.retrain (fst (Api.add_rating w user m v)) g))
                     user)
    = Api.Success body /\ Api.personalized body = true.
Proof.
  intros Hstore Huser Hmovie Hmg Hgenre.
  unfold Api.add_rating, Api.run_statement. rewrite Hstore. simpl.
  set (db1 := Crud.create_rating user m v db).
  set (w1 := Api.set_store w db1).
  unfold Api.retrain. simpl.
  destruct (returned (retrain_model w1 g)) as [a|e] eqn:Hret; [|done]. intros _.
  destruct (retrain_model_Ok_world _ _ _ Hret) as (Hw & _ & _).
  destruct (retrain_model_Ok _ _ _ Hret) as (df & Hfetch & _ & Hg).
  simpl in Hfetch. injection Hfetch as <-.
  destruct (create_rating_tables db user m v) as (HU & HM & HG & HMG).
  fold db1 in HU, HM, HG, HMG.
  assert (In (user, m, v) (Rating db1)) as Hr1 by (apply In_create_rating; by left).
  unfold Api.recommend. rewrite Hw. simpl.
  assert (existsb (Z.eqb user) (Crud.get_all_users db1) = true) as ->
    by (apply user_check; by rewrite HU).
  simpl.
  destruct (proj1 (history_rows db1 user) m v t Hr1) as (h & Hh & _);
    [by rewrite HM|].
  destruct (Crud.get_ratings_by_user user db1) as [|h0 hs] eqn:Hhist; [done|].
  rewrite Hg. unfold get_recommendations. simpl.
  erewrite (recommend_with_returned a _ _ user 5 (pivot_table (query db1))
              (movie_info_of (query db1))) by (simpl; reflexivity).
  destruct (loc (pivot_table (query db1)) user) as [s|] eqn:Hloc.
  - eexists. split; [done|]. done.
  - apply loc_None in Hloc. destruct Hloc.
    apply In_index_pivot_table.
    destruct (query_has_rating db1 user m gid v t name) as (row & Hrow & Hu & _);
      try done; try (by rewrite HM); try (by rewrite HMG); try (by rewrite HG).
    exists row. done.
Qed.

End RoutesTogether.

(** * Sanity checks on concrete data *)

Example split_genres : split_on "|" "Action|Drama" = ["Action"; "Drama"].
Proof. reflexivity. Qed.

Example split_empty : split_on "|" "" = [""].
Proof. reflexivity. Qed.

Example format_half :
  format_1f (7 # 2) = "3.5" /\ format_1f 4 = "4.0" /\ format_1f (45 # 10) = "4.5".
Proof. repeat split; reflexivity. Qed.

Example round2_ex :
  (round2 (3456 # 1000) == 346 # 100)%Q /\ (round2 (3455 # 1000) == 346 # 100)%Q.
Proof. split; reflexivity. Qed.

Example nlargest_stable :
  nlargest 2 [(1, 4%Q); (2, 5%Q); (3, 5%Q); (4, 3%Q)] snd = [(2, 5%Q); (3, 5%Q)]
  /\ nlargest (-1) [(1, 4%Q)] snd = [] /\ nlargest 0 [(1, 4%Q)] snd = [].
Proof. repeat split; reflexivity. Qed.

Example decimal_ex : decimal 0 = "0" /\ decimal 10 = "10" /\ decimal 407 = "407".
Proof. repeat split; reflexivity. Qed.

Example sample_feed_movies :
  map (fun r => (user_id r, movie_id r, genres r)) (query sample_db)
  = [(1, 10, "Sci-Fi"); (1, 20, "Sci-Fi|Drama"); (1, 30, "Drama");
     (2, 10, "Sci-Fi"); (2, 40, "Sci-Fi")].
Proof. reflexivity. Qed.

Example upload_sample_csv :
  Genre (upload_data empty_db sample_csv) = [(1, "Horror"); (2, "Sci-Fi")] /\
  Movie_Genre (upload_data empty_db sample_csv) = [(10, 1); (10, 2)] /\
  map (fun r => (user_id r, movie_id r, genres r)) (query (upload_data empty_db sample_csv))
  = [(1, 10, "Horror|Sci-Fi"); (2, 10, "Horror|Sci-Fi")] /\
  In (1, 50, 4%Q) (Rating (upload_data empty_db sample_csv)).
Proof. repeat split; try reflexivity. simpl. auto. Qed.

(** Without similar liked movies the explanation falls back to the shared
    genres. *)
Example genre_rule_explanation :
  map (fun rec => (movieId rec, explanation rec))
    (match returned (get_recommendations (lib := uncorrelated_lib) (py := sample_order)
                       sample_world uncorrelated_globals 1 5) with
     | Ok recs => recs
     | Raise _ => []
     end)
  = [(40, "Te recomendamos esta película porque contiene géneros que sueles disfrutar: Sci-Fi.")].
Proof. vm_compute. reflexivity. Qed.

(** The order of the listed genres is that of the iteration over the set:
    the same cache gives the two texts under the two sample orders. *)
Example genre_rule_follows_set_order :
  let mi : gmap Z MovieInfo :=
    {[ 60 := {| mi_title := "Fargo"; mi_genres := "Drama|Sci-Fi" |} ]} in
  let cache : gmap Z (gset string) :=
    {[ 20 := {[ "Sci-Fi"; "Drama" ]}; 60 := {[ "Drama"; "Sci-Fi" ]} ]} in
  snd (genre_explanation (py := sample_order) mi [20] 60 cache)
  = "Te recomendamos esta película porque contiene géneros que sueles disfrutar: Sci-Fi, Drama."
  /\
  snd (genre_explanation (py := reversed_order) mi [20] 60 cache)
  = "Te recomendamos esta película porque contiene géneros que sueles disfrutar: Drama, Sci-Fi.".
Proof. split; vm_compute; reflexivity. Qed.

(** The cache write of the genre rule needs a movie of [movie_info] that
    the cache does not cover, which [load_data] rules out: on
    [uncovered_globals] the call writes the entry of movie 40. *)
Example cache_written_when_not_covered :
  movie_genres_cache
    (globals_after (get_recommendations (lib := uncorrelated_lib) (py := sample_order)
                      sample_world uncovered_globals 1 5)) !! 40
  = Some {[ "Sci-Fi" ]}
  /\ movie_genres_cache uncovered_globals !! 40 = None.
Proof. split; vm_compute; reflexivity. Qed.

(** * The claims on concrete data *)

Lemma sample_globals_reachable : reachable (lib := sample_lib) (py := sample_order) sample_globals.
Proof. unfold sample_globals. apply reach_init. vm_compute. reflexivity. Qed.

Lemma genreless_movie_ratings_dropped_witness :
  (forall row, In row (query sample_db) -> movie_id row <> 50) /\
  ~ In 50 (columns (pivot_table (query sample_db))).
Proof.
  destruct (genreless_movie_ratings_dropped (lib := sample_lib) (py := sample_order) sample_db 2 50 (7 # 2))
    as (H1 & H2 & _).
  - simpl. auto 10.
  - intros gid Hin. simpl in Hin.
    repeat (destruct Hin as [Hin|Hin]; [discriminate Hin|]). exact Hin.
  - split; assumption.
Defined.

Lemma user_not_found_iff_absent_from_matrix_witness :
  exists df, data sample_globals = Some df /\
    rating_matrix sample_globals = Some (pivot_table df).
Proof.
  destruct (user_not_found_iff_absent_from_matrix (lib := sample_lib) (py := sample_order)
              sample_world sample_globals 3 5) as (df & H1 & H2 & _).
  - unfold sample_globals. apply reach_init. vm_compute. reflexivity.
  - exists df. split; assumption.
Defined.

(** User 3 is in the User table of the store the globals were built from,
    has no rating, and is rejected as not found. *)
Lemma known_user_without_ratings_rejected :
  In 3 (User sample_db) /\
  (forall m v, ~ In (3, m, v) (Rating sample_db)) /\
  reachable (lib := sample_lib) (py := sample_order) sample_globals /\
  data sample_globals = Some (query sample_db) /\
  returned (get_recommendations (lib := sample_lib) (py := sample_order) sample_world sample_globals 3 5)
  = Raise UserNotFound.
Proof.
  split; [simpl; auto|]. split.
  - intros m v Hin. simpl in Hin.
    repeat (destruct Hin as [Hin|Hin]; [discriminate Hin|]). exact Hin.
  - split; [apply sample_globals_reachable|].
    split; vm_compute; reflexivity.
Qed.

Lemma recommendations_at_most_n_above_floor_witness :
  exists recs,
    returned (get_recommendations (lib := sample_lib) (py := sample_order) sample_world sample_globals 1 5)
    = Ok recs /\
    (forall rec, In rec recs -> (3 <= predicted_rating rec)%Q).
Proof.
  destruct (recommendations_at_most_n_above_floor (lib := sample_lib) (py := sample_order)
              sample_world sample_globals (pivot_table (query sample_db)) 1 5)
    as (recs & H1 & _ & _ & H2).
  - unfold sample_globals. apply reach_init. vm_compute. reflexivity.
  - vm_compute. reflexivity.
  - vm_compute. auto.
  - exists recs. split; assumption.
Defined.

Lemma get_recommendations_read_only_witness :
  globals_after (get_recommendations (lib := sample_lib) (py := sample_order) sample_world sample_globals 1 5)
  = sample_globals.
Proof.
  destruct (get_recommendations_read_only (lib := sample_lib) (py := sample_order)
              sample_world sample_globals 1 5) as [H _].
  - unfold sample_globals. apply reach_init. vm_compute. reflexivity.
  - exact H.
Defined.

Lemma neighbor_similarity_explanation_witness :
  exists texts,
    length texts = 3%nat /\
    explanation sample_rec
    = "Te recomendamos esta película porque te gustaron películas similares como "
      +:+ String.concat ", " (removelast texts) +:+ " y " +:+ List.last texts "" +:+ ".".
Proof.
  destruct (neighbor_similarity_explanation (lib := sample_lib) (py := sample_order)
              sample_world sample_globals sample_algo 1 5 sample_recs sample_rec 3)
    as (df & mi & s & H1 & _ & H3 & H).
  - unfold sample_globals. apply reach_init. vm_compute. reflexivity.
  - vm_compute. reflexivity.
  - vm_compute. reflexivity.
  - vm_compute. auto.
  - vm_compute. reflexivity.
  - assert (rating_matrix sample_globals = Some sample_matrix) as Hm
      by (vm_compute; reflexivity).
    assert (pivot_table df = sample_matrix) as Hpt by congruence.
    rewrite Hpt in H3.
    assert (loc sample_matrix 1 = Some sample_row_1) as Hs by (vm_compute; reflexivity).
    rewrite H3 in Hs. injection Hs as ->.
    cbv zeta in H. destruct H as (_ & _ & _ & _ & _ & H).
    destruct H as (texts & HF & He); [vm_compute; lia|].
    exists texts. split; [|exact He].
    apply List.Forall2_length in HF. rewrite HF. vm_compute. reflexivity.
Defined.

Example sample_rec_explanation :
  movieId sample_rec = 40 /\
  explanation sample_rec
  = "Te recomendamos esta película porque te gustaron películas similares como Alien (valoración: 5.0), Brazil (valoración: 4.0) y Casino (valoración: 4.0).".
Proof. split; vm_compute; reflexivity. Qed.

(** After the restart the model is the one persisted before user 3 rated,
    and the rating matrix is built from the feed that has that rating:
    no single feed produced both. *)
Lemma restored_model_with_newer_matrix :
  reachable (lib := sample_lib) (py := sample_order) restart_globals /\ ~ same_snapshot restart_globals.
Proof.
  split.
  - unfold restart_globals. apply reach_init. vm_compute. reflexivity.
  - intros (df & a & Hrm & Ha & Hts).
    assert (option_map index (rating_matrix restart_globals) = Some [1; 2; 3]) as Hidx
      by (vm_compute; reflexivity).
    rewrite Hrm in Hidx. simpl in Hidx. rewrite index_pivot_table in Hidx.
    assert (algo restart_globals = Some sample_algo) as Ha' by (vm_compute; reflexivity).
    rewrite Ha in Ha'. injection Ha' as ->.
    assert (trainset sample_algo = Some (build_full_trainset (query sample_db))) as Hts'
      by (vm_compute; reflexivity).
    rewrite Hts in Hts'. injection Hts' as Hraw.
    apply (f_equal (map (fun t : Z * Z * Q => fst (fst t)))) in Hraw.
    rewrite !map_map in Hraw. simpl in Hraw.
    change (map (fun x => user_id x) df) with (map user_id df) in Hraw.
    rewrite Hraw in Hidx. vm_compute in Hidx. discriminate Hidx.
Qed.

Lemma retrain_same_snapshot_restore_keeps_matrix_witness :
  (exists df s,
     fetch_data_from_db (store sample_world) = Ok df /\
     rating_matrix (globals_after (retrain_model (lib := sample_lib)
                                     sample_world initial_globals))
     = Some (pivot_table df) /\
     trainset sample_algo = Some (build_full_trainset df) /\
     compute_similarities (Surprise := sample_lib) (build_full_trainset df) = Ok s /\
     sim sample_algo = Some s) /\
  algo restart_globals = Some sample_algo /\
  rating_matrix restart_globals = Some (pivot_table (query sample_db_later)).
Proof.
  split.
  - destruct (retrain_same_snapshot_restore_keeps_matrix (lib := sample_lib)
                sample_world initial_globals) as (H & _ & _).
    destruct (H sample_algo) as (df & s & H1 & H2 & _ & H4 & H5 & H6).
    + vm_compute. reflexivity.
    + exists df, s. repeat split; assumption.
  - destruct (retrain_same_snapshot_restore_keeps_matrix (lib := sample_lib)
                restart_world initial_globals) as (_ & _ & H).
    destruct (H sample_algo sample_db_later) as (_ & H1 & H2).
    + vm_compute. reflexivity.
    + reflexivity.
    + split; assumption.
Defined.

(** The retrain raises when the pickle cannot be written, and the globals
    are no longer those of before the request. *)
Lemma failed_retrain_overwrites_globals :
  reachable (lib := sample_lib) (py := sample_order) sample_globals /\
  returned (retrain_model (lib := sample_lib) failing_disk_world sample_globals)
  = Raise PersistError /\
  globals_after (retrain_model (lib := sample_lib) failing_disk_world sample_globals)
  <> sample_globals.
Proof.
  split; [apply sample_globals_reachable|]. split; [vm_compute; reflexivity|].
  intros H. apply (f_equal (fun g => option_map index (rating_matrix g))) in H.
  vm_compute in H. discriminate H.
Qed.

Lemma failed_retrain_effects_witness :
  rating_matrix (globals_after
    (retrain_model (lib := sample_lib) failing_disk_world sample_globals))
  = Some (pivot_table (query sample_db_later)).
Proof.
  destruct (failed_retrain_effects (lib := sample_lib)
              failing_disk_world sample_globals PersistError)
    as [(H & _)|(db & a' & Hs & _ & _ & Hrm & _)].
  - vm_compute. reflexivity.
  - discriminate H.
  - injection Hs as <-. exact Hrm.
Defined.

(** A reachable store with no rating at all: building the dataset returns
    normally. *)
Lemma empty_feed_builds_empty_dataset :
  fetch_data_from_db (store empty_world) = Ok [] /\
  returned (load_data empty_world initial_globals) = Ok ([], ∅, empty_frame).
Proof. split; reflexivity. Qed.

Lemma load_data_unreachable_or_empty_witness :
  returned (load_data empty_world initial_globals) = Ok ([], ∅, empty_frame) /\
  globals_after (load_data empty_world initial_globals) = initial_globals.
Proof.
  destruct (load_data_unreachable_or_empty (lib := sample_lib) (py := sample_order)
              empty_world initial_globals) as (_ & H & _).
  apply (H empty_db); reflexivity.
Defined.

Lemma predict_fallback_on_shortfall_witness :
  Predictor.predict Predictor.default_config sample_model 1 30
  = Ok (Predictor.clamp (Predictor.global_mean sample_model)).
Proof.
  destruct (predict_fallback_on_shortfall Predictor.default_config sample_model 1 30
              {[ 10 := 5%Q; 20 := 4%Q ]}) as [H _].
  - vm_compute. reflexivity.
  - left. apply Nat.ltb_lt. vm_compute. reflexivity.
  - exact H.
Defined.

Lemma predict_within_rating_range_witness : (1 # 2 <= 9 # 2 <= 5)%Q.
Proof.
  apply (predict_within_rating_range Predictor.default_config sample_model 1 30 (9 # 2)).
  vm_compute. reflexivity.
Defined.

(** * The further properties on concrete data *)

Ltac in_list H :=
  simpl in H;
  repeat match type of H with
  | _ \/ _ => destruct H as [H|H]
  | False => destruct H
  end.

Lemma sample_db_unique_ratings : unique_ratings sample_db.
Proof.
  intros u m v1 v2 H1 H2. in_list H1; in_list H2; congruence.
Qed.

Lemma sample_db_unique_movies : unique_movies sample_db.
Proof.
  intros m t1 t2 H1 H2. in_list H1; in_list H2; congruence.
Qed.

Lemma sample_db_names_no_bar gid name : In (gid, name) (Genre sample_db) -> no_bar name.
Proof.
  intros H. in_list H; injection H as <- <-; intros Hb; in_list Hb; discriminate Hb.
Qed.

Lemma rating_with_genre_in_feed_witness :
  exists row, In row (query sample_db) /\ user_id row = 1 /\ movie_id row = 10 /\
              (rating row == 5)%Q /\ title row = "Alien".
Proof.
  apply (rating_with_genre_in_feed sample_db 1 10 1 5 "Alien" "Sci-Fi");
    simpl; auto 10.
Defined.

Lemma feed_one_row_per_rating_witness : List.NoDup (map feed_key (query sample_db)).
Proof.
  apply (feed_one_row_per_rating sample_db).
  - exact sample_db_unique_ratings.
  - exact sample_db_unique_movies.
Defined.

Lemma matrix_cell_is_stored_rating_witness :
  exists r, cell (query sample_db) 1 20 = Some r /\ (r == 4)%Q.
Proof.
  apply (matrix_cell_is_stored_rating sample_db 1 20 1 4 "Brazil" "Sci-Fi").
  - exact sample_db_unique_ratings.
  - exact sample_db_unique_movies.
  - simpl. auto 10.
  - simpl. auto 10.
  - simpl. auto 10.
  - simpl. auto 10.
Defined.

Lemma load_data_caches_linked_genres_witness :
  movie_genres_cache (globals_after (load_data sample_world initial_globals)) !! 20
  = Some (list_to_set (movie_genre_names sample_db 20)).
Proof.
  apply (load_data_caches_linked_genres sample_world initial_globals sample_db
           sample_feed_row).
  - reflexivity.
  - exact sample_db_names_no_bar.
  - vm_compute. auto 10.
Defined.

Lemma recommendations_are_unrated_witness :
  exists df, rating_matrix sample_globals = Some (pivot_table df) /\
    forall rec, In rec sample_recs ->
      In (movieId rec) (columns (pivot_table df)) /\
      cell df 1 (movieId rec) = None.
Proof.
  apply (recommendations_are_unrated (lib := sample_lib) (py := sample_order) sample_world sample_globals 1 5).
  - unfold sample_globals. apply reach_init. vm_compute. reflexivity.
  - vm_compute. reflexivity.
Defined.

Lemma recommendations_descending_distinct_witness :
  StronglySorted (fun r1 r2 => (predicted_rating r2 <= predicted_rating r1)%Q) sample_recs /\
  List.NoDup (map movieId sample_recs).
Proof.
  apply (recommendations_descending_distinct (lib := sample_lib) (py := sample_order)
           sample_world sample_globals 1 5).
  - unfold sample_globals. apply reach_init. vm_compute. reflexivity.
  - vm_compute. reflexivity.
Defined.

Lemma equal_estimates_keep_column_order_witness :
  exists recs,
    returned (get_recommendations (lib := sample_lib) (py := sample_order) sample_world sample_globals 2 1)
    = Ok recs /\
    map movieId recs = firstn (Z.to_nat 1) (isna_labels sample_row_2).
Proof.
  apply (equal_estimates_keep_column_order (lib := sample_lib) (py := sample_order) sample_world sample_globals
           sample_algo (pivot_table (query sample_db)) sample_row_2 2 1 sample_estimate).
  - unfold sample_globals. apply reach_init. vm_compute. reflexivity.
  - vm_compute. reflexivity.
  - vm_compute. reflexivity.
  - vm_compute. reflexivity.
  - intros m Hm. vm_compute in Hm.
    destruct Hm as [<-|[<-|[]]]; vm_compute; reflexivity.
  - vm_compute. discriminate.
Defined.

Lemma explanation_never_empty_witness :
  movieId sample_rec = 40 /\ explanation sample_rec <> "".
Proof.
  split; [vm_compute; reflexivity|].
  destruct (explanation_never_empty (lib := sample_lib) (py := sample_order)
              sample_world sample_globals 1 5 sample_recs sample_rec) as [H _].
  - vm_compute. reflexivity.
  - vm_compute. auto.
  - exact H.
Defined.

Lemma unknown_to_trainset_generic_explanation_witness :
  movieId stale_rec = 60 /\ explanation stale_rec = generic_explanation.
Proof.
  split; [vm_compute; reflexivity|].
  apply (unknown_to_trainset_generic_explanation (lib := sample_lib) (py := sample_order)
           stale_world stale_globals sample_algo 1 5 stale_recs stale_rec UnknownRawId).
  - unfold stale_globals. apply reach_init. vm_compute. reflexivity.
  - vm_compute. reflexivity.
  - vm_compute. reflexivity.
  - vm_compute. auto.
  - vm_compute. reflexivity.
Defined.

Lemma recommendation_metadata_from_feed_witness :
  exists df row, data sample_globals = Some df /\
    List.find (fun r => Z.eqb (movie_id r) (movieId sample_rec)) df = Some row /\
    rec_title sample_rec = title row /\ rec_genres sample_rec = genres row.
Proof.
  apply (recommendation_metadata_from_feed (lib := sample_lib) (py := sample_order)
           sample_world sample_globals 1 5 sample_recs sample_rec).
  - unfold sample_globals. apply reach_init. vm_compute. reflexivity.
  - vm_compute. reflexivity.
  - vm_compute. auto.
Defined.

Lemma genre_overlap_explanation_witness :
  exists listed,
    List.NoDup listed /\
    explanation uncorrelated_rec
    = match listed with
      | [] => "Esta película ha sido bien valorada por usuarios con gustos similares a los tuyos."
      | _ :: _ =>
          "Te recomendamos esta película porque contiene géneros que sueles disfrutar: "
          +:+ String.concat ", " listed +:+ "."
      end.
Proof.
  destruct (genre_overlap_explanation (lib := uncorrelated_lib) (py := sample_order)
              sample_world uncorrelated_globals uncorrelated_algo 1 5
              uncorrelated_recs uncorrelated_rec 3)
    as (df & s & gs & H1 & H2 & _ & H).
  - unfold uncorrelated_globals. apply reach_init. vm_compute. reflexivity.
  - vm_compute. reflexivity.
  - vm_compute. reflexivity.
  - vm_compute. auto.
  - vm_compute. reflexivity.
  - assert (rating_matrix uncorrelated_globals = Some sample_matrix) as Hm
      by (vm_compute; reflexivity).
    assert (pivot_table df = sample_matrix) as Hpt by congruence.
    rewrite Hpt in H2.
    assert (loc sample_matrix 1 = Some sample_row_1) as Hs by (vm_compute; reflexivity).
    rewrite H2 in Hs. injection Hs as ->.
    destruct H as (listed & Hnd & _ & He); [vm_compute; reflexivity|].
    exists listed. split; assumption.
Defined.


Lemma restart_reproduces_globals_witness :
  returned (module_init (lib := sample_lib)
              (world_after (module_init (lib := sample_lib) sample_world))) = Ok tt /\
  globals_after (module_init (lib := sample_lib)
                   (world_after (module_init (lib := sample_lib) sample_world)))
  = globals_after (module_init (lib := sample_lib) sample_world).
Proof.
  apply (restart_reproduces_globals (lib := sample_lib) sample_world).
  vm_compute. reflexivity.
Defined.

Lemma retrain_twice_same_model_witness :
  returned (retrain_model (lib := sample_lib)
              (world_after (retrain_model (lib := sample_lib) sample_world initial_globals))
              (globals_after (retrain_model (lib := sample_lib) sample_world initial_globals)))
  = Ok sample_algo.
Proof.
  apply (retrain_twice_same_model (lib := sample_lib) sample_world initial_globals sample_algo).
  vm_compute. reflexivity.
Defined.

Lemma upload_data_stores_every_line_witness :
  In (csv_userId sample_csv_row) (User (upload_data empty_db sample_csv)) /\
  exists v, In (csv_userId sample_csv_row, csv_movieId sample_csv_row, v)
               (Rating (upload_data empty_db sample_csv)).
Proof.
  destruct (upload_data_stores_every_line empty_db sample_csv sample_csv_row)
    as (H1 & _ & H3 & _).
  - simpl. auto.
  - split; assumption.
Defined.

Lemma upload_data_keeps_keys_unique_witness :
  unique_ratings (upload_data sample_db sample_csv) /\
  unique_movies (upload_data sample_db sample_csv) /\
  List.NoDup (map feed_key (query (upload_data sample_db sample_csv))).
Proof.
  apply (upload_data_keeps_keys_unique sample_db sample_csv).
  - exact sample_db_unique_ratings.
  - exact sample_db_unique_movies.
Defined.

Lemma csv_line_with_genre_reaches_feed_witness :
  exists frow, In frow (query (upload_data empty_db sample_csv)) /\
    user_id frow = csv_userId sample_csv_row /\ movie_id frow = csv_movieId sample_csv_row.
Proof.
  apply (csv_line_with_genre_reaches_feed empty_db sample_csv sample_csv_row "Horror").
  - simpl. auto.
  - vm_compute. auto.
  - vm_compute. discriminate.
Defined.

Lemma recommend_route_responses_witness :
  Api.globals_served (Api.recommend (lib := sample_lib) (py := sample_order) sample_world sample_globals 1)
  = sample_globals /\
  Api.world_served (Api.recommend (lib := sample_lib) (py := sample_order) sample_world sample_globals 1)
  = sample_world.
Proof.
  destruct (recommend_route_responses (lib := sample_lib) (py := sample_order)
              sample_world sample_globals sample_db 1) as (H1 & H2 & _).
  - unfold sample_globals. apply reach_init. vm_compute. reflexivity.
  - reflexivity.
  - split; assumption.
Defined.

Lemma modify_or_remove_missing_rating_is_silent_witness :
  Api.modify_rating sample_world 3 10 4 = (sample_world, Api.Success tt) /\
  Api.remove_rating sample_world 3 10 = (sample_world, Api.Success tt).
Proof.
  apply (modify_or_remove_missing_rating_is_silent sample_world sample_db 3 10 4).
  - reflexivity.
  - intros v' H. in_list H; discriminate H.
Defined.

Lemma add_movie_genre_links_or_404_witness :
  Api.add_movie_genre sample_world 50 "Western"
  = (sample_world,
     Api.HTTPException 404 (Api.MessageWithDbError "" (Crud.GenreNotFound "Western"))) /\
  exists db', Api.add_movie_genre sample_world 50 "Drama"
              = (Api.set_store sample_world db', Api.Success tt) /\
    In "Drama" (Crud.get_movie_genres_by_id 50 db').
Proof.
  split.
  - apply (add_movie_genre_links_or_404 sample_world sample_db 50 "Western").
    + reflexivity.
    + intros gid H. in_list H; discriminate H.
  - destruct (add_movie_genre_links_or_404 sample_world sample_db 50 "Drama") as [_ H].
    + reflexivity.
    + destruct (H 2) as (db' & H1 & H2 & _).
      * simpl. auto.
      * exists db'. split; assumption.
Defined.

Lemma link_brings_ratings_into_feed_witness :
  exists row, In row (query sample_db_linked) /\ user_id row = 2 /\ movie_id row = 50 /\
              (rating row == 7 # 2)%Q /\ title row = "Echo".
Proof.
  apply (link_brings_ratings_into_feed sample_db sample_db_linked 2 50 (7 # 2) "Echo" "Drama").
  - simpl. auto 10.
  - simpl. auto 10.
  - vm_compute. reflexivity.
Defined.

Lemma genreless_only_user_gets_404_witness :
  Api.response (Api.recommend (lib := sample_lib) (py := sample_order) genreless_user_world genreless_user_globals 3)
  = Api.HTTPException 404 (Api.Message "Usuario no encontrado en el dataset de ratings").
Proof.
  apply (genreless_only_user_gets_404 (lib := sample_lib) (py := sample_order)
           genreless_user_world genreless_user_globals sample_db_genreless_user
           3 50 4 "Echo").
  - unfold genreless_user_globals. apply reach_init. vm_compute. reflexivity.
  - reflexivity.
  - vm_compute. reflexivity.
  - simpl. auto.
  - simpl. auto 10.
  - simpl. auto 10.
  - intros m' v' gid H1 H2. in_list H1; try discriminate H1.
    injection H1 as <- <-. in_list H2; discriminate H2.
Defined.

Lemma rate_retrain_then_personalized_witness :
  exists body,
    Api.response
      (Api.recommend (lib := sample_lib) (py := sample_order)
         (Api.world_served
            (Api.retrain (lib := sample_lib)
               (fst (Api.add_rating sample_world 3 10 5)) sample_globals))
         (Api.globals_served
            (Api.retrain (lib := sample_lib)
               (fst (Api.add_rating sample_world 3 10 5)) sample_globals))
         3)
    = Api.Success body /\ Api.personalized body = true.
Proof.
  apply (rate_retrain_then_personalized (lib := sample_lib) (py := sample_order)
           sample_world sample_globals sample_db 3 10 1 5 "Alien" "Sci-Fi").
  - reflexivity.
  - simpl. auto.
  - simpl. auto.
  - simpl. auto.
  - simpl. auto.
  - vm_compute. reflexivity.
Defined.
